(** * Home-DIY-repair synthetic data pipeline: record schema, structural
    validation, failure-mode judge, analyzer, corrector and merge-back.

    A shallow embedding of the Python sources

      - [diy_repair/models.py]            (module [Models])
      - [diy_repair/validation_phase.py]  (module [ValidationPhase])
      - [diy_repair/failure_labeling.py]  (module [FailureLabeling])
      - [diy_repair/correction_phase.py]  (module [CorrectionPhase])
      - [diy_repair/generation_phase.py]  (modules [GenerationPhase], [GenerationBatch])
      - [scripts/merge_corrected_qa.py]   (module [MergeCorrectedQA])
      - [diy_repair/failure_analysis.py]  (modules [FailureAnalysis], [AnalyzerObject])
      - [scripts/human_labeling.py]       (module [HumanLabeling])

    Python [str] is [string] (code points below 256), [int] is [Z],
    [float] is the kernel's binary64 [float], a [dict] with string keys is
    a [gmap string _], a [set] is a [gset], and a raised exception is the
    left injection of a sum. *)

From Stdlib Require Import ZArith String Ascii List Bool Lia.
From Stdlib Require Import Floats Uint63.
From stdpp Require Import gmap strings list pretty.

#[local] Set Warnings "-register-all,-inexact-float".
#[local] Open Scope string_scope.
#[local] Open Scope list_scope.
#[local] Open Scope Z_scope.

(** ** Python values shared by all modules *)

Module Py.

(** What [json.load] returns.  Numbers in the pipeline's files are the
    integer flags and counters, so [JInt] carries a [Z]. *)
Inductive json : Type :=
  | JNull
  | JBool (b : bool)
  | JInt (n : Z)
  | JStr (s : string)
  | JArr (l : list json)
  | JObj (m : gmap string json).

(** [bool(v)]: Python truthiness. *)
Definition truthy (v : json) : bool :=
  match v with
  | JNull => false
  | JBool b => b
  | JInt n => negb (n =? 0)
  | JStr s => negb (String.eqb s "")
  | JArr l => match l with [] => false | _ :: _ => true end
  | JObj m => negb (bool_decide (m = ∅))
  end.

(** [d.get(k)]: the value, or [None] when the key is absent. *)
Definition get (d : gmap string json) (k : string) : json :=
  default JNull (d !! k).

(** [v == 1]; Python's [True == 1] holds. *)
Definition eq_one (v : json) : bool :=
  match v with
  | JInt n => n =? 1
  | JBool b => b
  | _ => false
  end.

(** [c.isspace()] on the code points below 256. *)
Definition isspace (c : ascii) : bool :=
  let n := nat_of_ascii c in
  (Nat.leb 9 n && Nat.leb n 13) || (Nat.leb 28 n && Nat.leb n 32)
  || Nat.eqb n 133 || Nat.eqb n 160.

(** [s.lstrip()], [s.rstrip()], [s.strip()]. *)
Fixpoint lstrip (s : string) : string :=
  match s with
  | EmptyString => EmptyString
  | String c s' => if isspace c then lstrip s' else s
  end.

Fixpoint rstrip (s : string) : string :=
  match s with
  | EmptyString => EmptyString
  | String c s' =>
      match rstrip s' with
      | EmptyString => if isspace c then EmptyString else String c EmptyString
      | r => String c r
      end
  end.

Definition strip (s : string) : string := lstrip (rstrip s).

(** [bool(s)] for a string. *)
Definition nonempty (s : string) : bool :=
  match s with EmptyString => false | String _ _ => true end.

(** [len(s)]. *)
Definition len (s : string) : Z := Z.of_nat (String.length s).

(** [s.replace(a, b)] for single characters. *)
Fixpoint replace_char (a b : ascii) (s : string) : string :=
  match s with
  | EmptyString => EmptyString
  | String c s' => String (if Ascii.eqb c a then b else c) (replace_char a b s')
  end.

Definition is_lower (c : ascii) : bool :=
  let n := nat_of_ascii c in Nat.leb 97 n && Nat.leb n 122.
Definition is_upper (c : ascii) : bool :=
  let n := nat_of_ascii c in Nat.leb 65 n && Nat.leb n 90.
Definition to_upper (c : ascii) : ascii :=
  if is_lower c then ascii_of_nat (nat_of_ascii c - 32) else c.
Definition to_lower (c : ascii) : ascii :=
  if is_upper c then ascii_of_nat (nat_of_ascii c + 32) else c.

(** [s.title()] on ASCII text: a letter that follows a non-letter is
    upper-cased, a letter that follows a letter is lower-cased. *)
Fixpoint title_from (prev_cased : bool) (s : string) : string :=
  match s with
  | EmptyString => EmptyString
  | String c s' =>
      let cased := is_lower c || is_upper c in
      String (if prev_cased then to_lower c else to_upper c) (title_from cased s')
  end.
Definition title (s : string) : string := title_from false s.

(** [sep.join(l)]. *)
Fixpoint join (sep : string) (l : list string) : string :=
  match l with
  | [] => ""
  | [x] => x
  | x :: l' => x +:+ sep +:+ join sep l'
  end.

(** [sorted(l, key=..., reverse=True)], given the test [lt a b] for
    "the key of [a] is less than the key of [b]".  The sort is stable, and
    [reverse=True] keeps it so: an element goes in front of the first one
    that is not greater than it, and behind every greater one. *)
Fixpoint insert_desc {A : Type} (lt : A -> A -> bool) (x : A) (l : list A) : list A :=
  match l with
  | [] => [x]
  | y :: l' => if lt x y then y :: insert_desc lt x l' else x :: l
  end.

Fixpoint sorted_desc {A : Type} (lt : A -> A -> bool) (l : list A) : list A :=
  match l with
  | [] => []
  | x :: l' => insert_desc lt x (sorted_desc lt l')
  end.

(** [float(n)] for an [int]. *)
Definition float_of_Z (n : Z) : float :=
  if n <? 0 then PrimFloat.opp (PrimFloat.of_uint63 (Uint63.of_Z (- n)))
  else PrimFloat.of_uint63 (Uint63.of_Z n).

End Py.

(** ** diy_repair/models.py *)

Module Models.
Import Py.

(** [class DIYRepairQA(BaseModel)]: the seven fields. *)
Record DIYRepairQA : Type := {
  question : string;
  answer : string;
  equipment_problem : string;
  tools_required : list string;
  steps : list string;
  safety_info : string;
  tips : string
}.

(** [class GenerationResult(BaseModel)]. *)
Record GenerationResult : Type := {
  trace_id : string;
  qa_pair : option DIYRepairQA;
  raw_response : string;
  is_valid : bool;
  validation_errors : list string;
  generation_timestamp : string
}.

(** [class ValidationSummary(BaseModel)]. *)
Record ValidationSummary : Type := {
  total_generated : Z;
  valid_samples : Z;
  invalid_samples : Z;
  validation_rate : float;
  common_errors : list string
}.

(** One line of a pydantic [ValidationError]: the field, the item for an
    error inside a list, and the constraint that failed. *)
Inductive ErrorType : Type :=
  | missing
  | string_type
  | string_too_short
  | string_too_long
  | list_type
  | too_short
  | too_long
  | value_error (msg : string).

Record ErrorDetails : Type := {
  err_loc : string;
  err_item : option nat;
  err_type : ErrorType
}.

(** What the call of [DIYRepairQA] on the unpacked [data] can raise. *)
Inductive Exception : Type :=
  | TypeError_not_a_mapping (data : json)
  | ValidationError (errors : list ErrorDetails).

(** [@validator('question', 'answer', 'equipment_problem', 'safety_info', 'tips')] *)
Definition validate_text_fields (v : string) : string + string :=
  if negb (nonempty (strip v))
  then inl "Text fields cannot be empty or just whitespace"
  else inr (strip v).

(** [@validator('tools_required')] *)
Definition validate_tools (v : list string) : string + list string :=
  if negb (forallb (fun tool => nonempty (strip tool)) v)
  then inl "Tools cannot be empty strings"
  else inr (map strip v).

(** [@validator('steps')] *)
Definition validate_steps (v : list string) : string + list string :=
  if negb (forallb (fun step => nonempty (strip step)) v)
  then inl "Steps cannot be empty strings"
  else inr (map strip v).

(** A [str] field with [Field(..., min_length=, max_length=)]: the type
    and the length bounds are checked on the value as given, and the
    class validator runs after them, on a value that passed. *)
Definition str_field (name : string) (min_length max_length : Z)
    (data : gmap string json) : list ErrorDetails + string :=
  let err t := inl [{| err_loc := name; err_item := None; err_type := t |}] in
  match data !! name with
  | None => err missing
  | Some (JStr s) =>
      if len s <? min_length then err string_too_short
      else if max_length <? len s then err string_too_long
      else match validate_text_fields s with
           | inl msg => err (value_error msg)
           | inr v => inr v
           end
  | Some _ => err string_type
  end.

(** The items of a [List[str]] field: each must be a string. *)
Fixpoint str_items (name : string) (i : nat) (l : list json)
    : list ErrorDetails * list string :=
  match l with
  | [] => ([], [])
  | v :: l' =>
      let '(errs, items) := str_items name (S i) l' in
      match v with
      | JStr s => (errs, s :: items)
      | _ => ({| err_loc := name; err_item := Some i; err_type := string_type |} :: errs, items)
      end
  end.

(** A [List[str]] field with [Field(..., min_items=, max_items=)] and its
    class validator, which runs on a list that passed the other checks.
    The field is accepted exactly when it is a list of strings of an
    allowed length whose items are not blank. *)
Definition list_field (name : string) (min_items max_items : Z)
    (validator : list string -> string + list string)
    (data : gmap string json) : list ErrorDetails + list string :=
  let err t := inl [{| err_loc := name; err_item := None; err_type := t |}] in
  match data !! name with
  | None => err missing
  | Some (JArr l) =>
      if max_items <? Z.of_nat (length l) then err too_long
      else match str_items name 0 l with
           | (e :: errs, _) => inl (e :: errs)
           | ([], items) =>
               if Z.of_nat (length items) <? min_items then err too_short
               else match validator items with
                    | inl msg => err (value_error msg)
                    | inr v => inr v
                    end
           end
  | Some _ => err list_type
  end.

Definition errors_of {A : Type} (r : list ErrorDetails + A) : list ErrorDetails :=
  match r with inl errs => errs | inr _ => [] end.

(** The outcome of each field, in declaration order. *)
Definition f_question := str_field "question" 10 500.
Definition f_answer := str_field "answer" 20 2000.
Definition f_equipment_problem := str_field "equipment_problem" 5 200.
Definition f_tools_required := list_field "tools_required" 1 15 validate_tools.
Definition f_steps := list_field "steps" 2 20 validate_steps.
Definition f_safety_info := str_field "safety_info" 10 500.
Definition f_tips := str_field "tips" 10 500.

(** Every error of every field: pydantic validates all fields and raises
    one [ValidationError] that carries them all. *)
Definition field_errors (data : gmap string json) : list ErrorDetails :=
  errors_of (f_question data) ++ errors_of (f_answer data)
  ++ errors_of (f_equipment_problem data) ++ errors_of (f_tools_required data)
  ++ errors_of (f_steps data) ++ errors_of (f_safety_info data)
  ++ errors_of (f_tips data).

(** The call of [DIYRepairQA] on the unpacked, decoded JSON value [data]. *)
Definition DIYRepairQA_new (data : json) : Exception + DIYRepairQA :=
  match data with
  | JObj d =>
      match f_question d, f_answer d, f_equipment_problem d,
            f_tools_required d, f_steps d, f_safety_info d, f_tips d with
      | inr q, inr a, inr e, inr t, inr s, inr si, inr ti =>
          inr {| question := q; answer := a; equipment_problem := e;
                 tools_required := t; steps := s; safety_info := si; tips := ti |}
      | _, _, _, _, _, _, _ => inl (ValidationError (field_errors d))
      end
  | _ => inl (TypeError_not_a_mapping data)
  end.

(** [qa_pair.model_dump()]. *)
Definition model_dump (qa : DIYRepairQA) : gmap string json :=
  <["tips" := JStr (tips qa)]>
  (<["safety_info" := JStr (safety_info qa)]>
  (<["steps" := JArr (map JStr (steps qa))]>
  (<["tools_required" := JArr (map JStr (tools_required qa))]>
  (<["equipment_problem" := JStr (equipment_problem qa)]>
  (<["answer" := JStr (answer qa)]>
  (<["question" := JStr (question qa)]> ∅)))))).

(** What [json.loads] does with a text: it returns the decoded value,
    raises [JSONDecodeError], or raises another exception, which is not
    a [JSONDecodeError]: [RecursionError] on nesting beyond the recursion
    limit, [ValueError] on an integer literal beyond the digit limit.
    The exceptions carry their text [str(e)]. *)
Inductive Loads : Type :=
  | Loaded (data : json)
  | JSONDecodeError (e : string)
  | OtherError (e : string).

Section ValidateJson.

(** [json.loads]. *)
Variable json_loads : string -> Loads.
(** [str(e)] for what the model constructor raises. *)
Variable str_of_exception : Exception -> string.

(** [validate_json_structure(json_str)]: (is_valid, parsed_model,
    error_messages), or the exception that leaves the function.  The
    first handler is for [JSONDecodeError] alone: what else [json.loads]
    raises is not caught. *)
Definition validate_json_structure (json_str : string)
    : string + bool * option DIYRepairQA * list string :=
  let errors : list string := [] in
  match json_loads json_str with
  | JSONDecodeError e =>
      let errors := errors ++ ["Invalid JSON format: " +:+ e] in
      inr (false, None, errors)
  | OtherError e => inl e
  | Loaded data =>
      match DIYRepairQA_new data with
      | inr qa_pair => inr (true, Some qa_pair, [])
      | inl e =>
          let errors := errors ++ ["Validation error: " +:+ str_of_exception e] in
          inr (false, None, errors)
      end
  end.

End ValidateJson.

(** The third component of what [validate_json_structure] returned. *)
Definition error_messages (r : string + bool * option DIYRepairQA * list string)
    : list string :=
  match r with
  | inr (_, _, errors) => errors
  | inl _ => []
  end.

(** The number of fields of [data] whose constraints are violated. *)
Definition violated_fields (data : gmap string json) : nat :=
  let bad {A : Type} (r : list ErrorDetails + A) : nat :=
    match r with inl _ => 1%nat | inr _ => 0%nat end in
  (bad (f_question data) + bad (f_answer data) + bad (f_equipment_problem data)
   + bad (f_tools_required data) + bad (f_steps data) + bad (f_safety_info data)
   + bad (f_tips data))%nat.

End Models.

(** ** diy_repair/validation_phase.py *)

Module ValidationPhase.
Import Py Models.

(** [Counter(l)]: the distinct items with their counts, in first-seen order. *)
Fixpoint counter_add (x : string) (c : list (string * Z)) : list (string * Z) :=
  match c with
  | [] => [(x, 1)]
  | (y, n) :: c' => if String.eqb x y then (y, n + 1) :: c' else (y, n) :: counter_add x c'
  end.

Definition Counter (l : list string) : list (string * Z) :=
  fold_left (fun c x => counter_add x c) l [].

(** [c.most_common(n)]: by count, largest first, ties in first-seen order. *)
Definition most_common (n : nat) (c : list (string * Z)) : list (string * Z) :=
  firstn n (sorted_desc (fun a b => snd a <? snd b) c).

(** [DIYRepairValidator.validate_structure(result)]. *)
Definition validate_structure (result : GenerationResult) : bool * list string :=
  if negb (is_valid result) then (false, validation_errors result)
  else match qa_pair result with
  | None => (false, ["No valid Q&A pair generated"])
  | Some qa_pair =>
      let errors : list string := [] in
      let errors := if negb (nonempty (strip (question qa_pair)))
        then errors ++ ["Question is empty or whitespace only"] else errors in
      let errors := if negb (nonempty (strip (answer qa_pair)))
        then errors ++ ["Answer is empty or whitespace only"] else errors in
      let errors := if negb (nonempty (strip (equipment_problem qa_pair)))
        then errors ++ ["Equipment problem is empty or whitespace only"] else errors in
      let errors := if negb (nonempty (strip (safety_info qa_pair)))
        then errors ++ ["Safety info is empty or whitespace only"] else errors in
      let errors := if negb (nonempty (strip (tips qa_pair)))
        then errors ++ ["Tips is empty or whitespace only"] else errors in
      let errors := if match tools_required qa_pair with [] => true | _ => false end
        then errors ++ ["Tools required list is empty"] else errors in
      let errors := if match steps qa_pair with [] => true | _ => false end
        then errors ++ ["Steps list is empty"] else errors in
      let errors := if existsb (fun tool => negb (nonempty (strip tool))) (tools_required qa_pair)
        then errors ++ ["Tools required contains empty items"] else errors in
      let errors := if existsb (fun step => negb (nonempty (strip step))) (steps qa_pair)
        then errors ++ ["Steps contains empty items"] else errors in
      (Nat.eqb (length errors) 0, errors)
  end.

(** The loop of [validate_batch].  The state is the list [valid_results],
    the list [all_errors] and the results seen so far as the loop leaves
    them: a result that fails is updated in place.  When [result.is_valid]
    was already false, [structural_errors] is the list
    [result.validation_errors] itself, so extending that list has doubled
    it by the time it is added to [all_errors]. *)
Fixpoint validate_loop (results : list GenerationResult)
    (valid_results : list GenerationResult) (all_errors : list string)
    (seen : list GenerationResult)
    : list GenerationResult * list string * list GenerationResult :=
  match results with
  | [] => (valid_results, all_errors, seen)
  | result :: rest =>
      let '(is_structurally_valid, structural_errors) := validate_structure result in
      if is_structurally_valid
      then validate_loop rest (valid_results ++ [result]) all_errors (seen ++ [result])
      else
        let extended := validation_errors result ++ structural_errors in
        let structural_errors :=
          if negb (is_valid result) then extended else structural_errors in
        let result' := {| trace_id := trace_id result; qa_pair := qa_pair result;
                          raw_response := raw_response result; is_valid := false;
                          validation_errors := extended;
                          generation_timestamp := generation_timestamp result |} in
        validate_loop rest valid_results (all_errors ++ structural_errors) (seen ++ [result'])
  end.

(** [DIYRepairValidator.validate_batch(results)]: the valid results, the
    summary, and the input list as the call leaves it. *)
Definition validate_batch (results : list GenerationResult)
    : list GenerationResult * ValidationSummary * list GenerationResult :=
  let '(valid_results, all_errors, results') := validate_loop results [] [] [] in
  let error_counter := Counter all_errors in
  let common_errors := map fst (most_common 5 error_counter) in
  let n_valid := Z.of_nat (length valid_results) in
  let n := Z.of_nat (length results) in
  let summary := {|
    total_generated := n;
    valid_samples := n_valid;
    invalid_samples := n - n_valid;
    validation_rate :=
      match results with
      | [] => float_of_Z 0
      | _ => PrimFloat.mul (PrimFloat.div (float_of_Z n_valid) (float_of_Z n)) (float_of_Z 100)
      end;
    common_errors := common_errors |} in
  (valid_results, summary, results').

End ValidationPhase.

(** ** diy_repair/openai_client.py: the calls that leave the process *)

Module Gateway.

(** A computation that talks to the outside world of type [W]: it ends in
    a value, or in a raised exception (the text [str(e)]), and leaves the
    world as the calls made so far have changed it. *)
Definition M (W A : Type) : Type := W -> (string + A) * W.

Definition ret {W A : Type} (a : A) : M W A := fun w => (inr a, w).

Definition raise {W A : Type} (e : string) : M W A := fun w => (inl e, w).

Definition bind {W A B : Type} (m : M W A) (k : A -> M W B) : M W B :=
  fun w => match m w with
           | (inl e, w') => (inl e, w')
           | (inr a, w') => k a w'
           end.

(** [try: body  except Exception as e: handler(str(e))]. *)
Definition try_except {W A : Type} (body : M W A) (handler : string -> M W A) : M W A :=
  fun w => match body w with
           | (inl e, w') => handler e w'
           | (inr a, w') => (inr a, w')
           end.

(** A pure step that may raise. *)
Definition lift {W A : Type} (r : string + A) : M W A := fun w => (r, w).

(** The arguments of [client.chat.completions.create]. *)
Record Request : Type := {
  model : string;
  system_content : string;
  user_content : string;
  temperature : float;
  max_tokens : Z
}.

End Gateway.

#[global] Instance M_ret {W : Type} : MRet (Gateway.M W) := @Gateway.ret W.
#[global] Instance M_bind {W : Type} : MBind (Gateway.M W) :=
  fun A B k m => Gateway.bind m k.

(** ** diy_repair/failure_labeling.py *)

Module FailureLabeling.
Import Py Models Gateway.

(** [@dataclass class FailureMode]. *)
Record FailureMode : Type := {
  name : string;
  description : string;
  success_criteria : string;
  failure_criteria : string;
  evaluation_prompt : string
}.

(** The six modes of [FailureModeDefinitions.get_failure_modes()]; the
    fixed prompt text is kept byte for byte. *)
Definition mode_incomplete_answer : FailureMode := {|
  name := "incomplete_answer";
  description := "Answer lacks sufficient detail or steps to complete the repair";
  success_criteria := "Answer provides comprehensive, step-by-step instructions that would allow someone to complete the repair successfully";
  failure_criteria := "Answer is vague, missing critical steps, or lacks sufficient detail for successful completion";
  evaluation_prompt := "
Evaluate if this DIY repair answer is COMPLETE and SUFFICIENT:

SUCCESS (0): Answer and steps together give clear, step-by-step instructions with enough detail for someone to complete the repair (key steps present, no critical gaps).
FAILURE (1): Answer is vague, missing critical steps, or lacks sufficient detail for successful completion. If steps or answer skip important actions or leave the reader unsure how to proceed, score 1.

Question: {question}
Answer: {answer}
Steps: {steps}

Rate as 0 (complete) or 1 (incomplete). Respond with only the number.
"
|}.

Definition mode_safety_violations : FailureMode := {|
  name := "safety_violations";
  description := "Missing critical safety warnings or dangerous advice";
  success_criteria := "Includes appropriate safety warnings, precautions, and mentions when to call professionals";
  failure_criteria := "Missing safety warnings, provides dangerous advice, or fails to mention professional help when needed";
  evaluation_prompt := "
Evaluate if this DIY repair guidance has ADEQUATE SAFETY information:

SUCCESS (0): Includes appropriate safety warnings and precautions for the task (e.g. turn off power/water, wear protection, ventilation). For risky tasks, mentions when to call a professional.
FAILURE (1): Missing important safety warnings for the task, implies dangerous practice, or omits when a pro should be called for clearly risky work.

Question: {question}
Safety Info: {safety_info}
Answer: {answer}

Rate as 0 (safe) or 1 (safety violation). Respond with only the number.
"
|}.

Definition mode_unrealistic_tools : FailureMode := {|
  name := "unrealistic_tools";
  description := "Requires tools that are unrealistic for typical homeowners";
  success_criteria := "Tools are commonly available to homeowners or easily obtainable from hardware stores";
  failure_criteria := "Requires specialized professional tools, overly expensive equipment, or unrealistic tool combinations";
  evaluation_prompt := "
Evaluate if the required tools are REALISTIC for typical homeowners:

SUCCESS (0): Tools are commonly available at hardware stores or typical home toolkits (screwdrivers, wrenches, pliers, basic hand tools, common supplies). Standard DIY tools are OK.
FAILURE (1): Requires specialized professional-only tools, very expensive equipment, or an unrealistic combination. Do NOT fail for normal hardware-store or common DIY tools.

Question: {question}
Tools Required: {tools_required}
Equipment Problem: {equipment_problem}

Rate as 0 (realistic tools) or 1 (unrealistic tools). Respond with only the number.
"
|}.

Definition mode_overcomplicated_solution : FailureMode := {|
  name := "overcomplicated_solution";
  description := "Solution is unnecessarily complex for the problem described";
  success_criteria := "Solution is appropriately scaled to the problem complexity and homeowner skill level";
  failure_criteria := "Solution is overly complex, requires excessive steps, or is disproportionate to the problem";
  evaluation_prompt := "
Evaluate if this DIY repair solution is APPROPRIATELY COMPLEX:

SUCCESS (0): Solution has a reasonable number of steps for the problem (e.g. 4–10 steps for a typical repair is fine). Step-by-step instructions that match the task are NOT overcomplicated. Only fail if truly excessive.
FAILURE (1): Solution is clearly overkill: far too many steps for a simple fix, or requires professional-level complexity for a basic DIY task. Normal detailed steps do NOT count as overcomplicated.

Question: {question}
Equipment Problem: {equipment_problem}
Steps: {steps}
Tools Required: {tools_required}

Rate as 0 (appropriate complexity) or 1 (overcomplicated). Respond with only the number.
"
|}.

Definition mode_missing_context : FailureMode := {|
  name := "missing_context";
  description := "Lacks important context about when, why, or how to apply the solution";
  success_criteria := "Provides context about when to use this solution, prerequisites, and situational considerations";
  failure_criteria := "Missing context about applicability, prerequisites, or situational factors";
  evaluation_prompt := "
Evaluate if this DIY repair guidance provides ADEQUATE CONTEXT:

SUCCESS (0): Gives some sense of when to use this approach, what’s needed (e.g. time, parts), or when to call a pro. Brief context is enough.
FAILURE (1): No context at all: reader cannot tell when this solution applies, what to have ready, or when it’s beyond DIY. Clearly missing prerequisites or situational guidance.

Question: {question}
Answer: {answer}
Equipment Problem: {equipment_problem}
Tips: {tips}

Rate as 0 (adequate context) or 1 (missing context). Respond with only the number.
"
|}.

Definition mode_poor_quality_tips : FailureMode := {|
  name := "poor_quality_tips";
  description := "Tips are generic, unhelpful, or don't add value beyond the main answer";
  success_criteria := "Tips provide specific, actionable advice that enhances the repair process";
  failure_criteria := "Tips are generic, obvious, unhelpful, or simply repeat information from the answer";
  evaluation_prompt := "
Evaluate if the provided tips are HIGH QUALITY and VALUABLE:

SUCCESS (0): Tips add some useful value (specific advice, order of operations, or what to avoid). They need not be perfect; slightly generic but helpful is OK.
FAILURE (1): Tips are purely generic, only repeat the answer, or add no real value. Only fail when tips are clearly unhelpful or redundant.

Question: {question}
Answer: {answer}
Tips: {tips}

Rate as 0 (quality tips) or 1 (poor quality tips). Respond with only the number.
"
|}.

Definition get_failure_modes : list FailureMode :=
  [ mode_incomplete_answer; mode_safety_violations; mode_unrealistic_tools;
    mode_overcomplicated_solution; mode_missing_context; mode_poor_quality_tips ].

Definition _FAILURE_MODES_LIST : list FailureMode := get_failure_modes.
Definition FAILURE_MODE_NAMES : list string := map name _FAILURE_MODES_LIST.

Section LLMJudge.

Variable W : Type.
(** [self.client.chat.completions.create(...).choices[0].message.content]:
    the text of the reply, or the exception raised on the way to it. *)
Variable create : Request -> M W string.
(** [template.format(question=..., ..., tips=...)]; a template can raise. *)
Variable format : string -> DIYRepairQA -> string + string.
(** [int(s)]; [None] stands for [ValueError]. *)
Variable int : string -> option Z.
(** [self.model]. *)
Variable self_model : string.

(** [self.failure_modes]. *)
Definition self_failure_modes : list FailureMode := get_failure_modes.

(** [LLMJudge.evaluate_single_failure_mode(qa_pair, failure_mode)]:
    (failure_score, raw_response).  The [print] of the handler is not
    modelled. *)
Definition evaluate_single_failure_mode (qa_pair : DIYRepairQA)
    (failure_mode : FailureMode) : M W (Z * string) :=
  try_except
    (prompt ← lift (format (evaluation_prompt failure_mode) qa_pair);
     content ← create {|
       model := self_model;
       system_content := "You are an expert DIY repair evaluator. Respond with only 0 or 1.";
       user_content := prompt;
       temperature := 0.1;
       max_tokens := 10 |};
     let raw_response := strip content in
     let failure_score :=
       match int raw_response with
       | Some failure_score =>
           if negb ((failure_score =? 0) || (failure_score =? 1)) then 1
           else failure_score
       | None => 1
       end in
     mret (failure_score, raw_response))
    (fun e => mret (1, "Error: " +:+ e)).

(** The loop of [evaluate_qa_pair] over the remaining modes. *)
Fixpoint evaluate_modes (qa_pair : DIYRepairQA) (modes : list FailureMode)
    (results : gmap string json) (failure_count : Z)
    : M W (gmap string json * Z) :=
  match modes with
  | [] => mret (results, failure_count)
  | failure_mode :: rest =>
      '(failure_score, raw_response) ← evaluate_single_failure_mode qa_pair failure_mode;
      let results := <[name failure_mode := JInt failure_score]> results in
      let results := <[name failure_mode +:+ "_response" := JStr raw_response]> results in
      evaluate_modes qa_pair rest results (failure_count + failure_score)
  end.

(** [LLMJudge.evaluate_qa_pair(qa_pair, trace_id)]. *)
Definition evaluate_qa_pair (qa_pair : DIYRepairQA) (trace_id : string)
    : M W (gmap string json) :=
  let results : gmap string json :=
    <["tips" := JStr (tips qa_pair)]>
    (<["safety_info" := JStr (safety_info qa_pair)]>
    (<["steps" := JArr (map JStr (steps qa_pair))]>
    (<["tools_required" := JArr (map JStr (tools_required qa_pair))]>
    (<["equipment_problem" := JStr (equipment_problem qa_pair)]>
    (<["answer" := JStr (answer qa_pair)]>
    (<["question" := JStr (question qa_pair)]>
    (<["trace_id" := JStr trace_id]> ∅))))))) in
  '(results, failure_count) ← evaluate_modes qa_pair self_failure_modes results 0;
  let results := <["overall_failure" := JInt (if 0 <? failure_count then 1 else 0)]> results in
  let results := <["failure_count" := JInt failure_count]> results in
  mret results.

End LLMJudge.

(** A decimal reading of [int(s)] for ASCII text: surrounding white space,
    an optional sign, digits with single underscores between them, and at
    most 4300 digits. *)
Definition digit_of (c : ascii) : option Z :=
  let n := nat_of_ascii c in
  if Nat.leb 48 n && Nat.leb n 57 then Some (Z.of_nat (n - 48)) else None.

Fixpoint int_digits (s : string) (acc : Z) (count : nat) (after_digit : bool)
    : option (Z * nat) :=
  match s with
  | EmptyString => if after_digit then Some (acc, count) else None
  | String c s' =>
      match digit_of c with
      | Some d => int_digits s' (10 * acc + d) (S count) true
      | None =>
          if Ascii.eqb c "_" && after_digit
          then match s' with
               | EmptyString => None
               | String c' _ => match digit_of c' with
                                | Some _ => int_digits s' acc count false
                                | None => None
                                end
               end
          else None
      end
  end.

Definition int_of_str (s : string) : option Z :=
  let body (t : string) :=
    match int_digits t 0 0 false with
    | Some (v, count) => if Nat.leb count 4300 then Some v else None
    | None => None
    end in
  match strip s with
  | String "-" t => option_map Z.opp (body t)
  | String "+" t => body t
  | t => body t
  end.

End FailureLabeling.

(** ** diy_repair/correction_phase.py *)

Module CorrectionPhase.
Import Py Models Gateway.

Section DIYRepairCorrector.

Variable W : Type.
(** The gateway call, as in [FailureLabeling]. *)
Variable create : Request -> M W string.
Variable json_loads : string -> Loads.
Variable str_of_exception : Exception -> string.
(** [datetime.now().isoformat()]. *)
Variable now_isoformat : M W string.
(** [self.model]. *)
Variable self_model : string.
(** [self._create_correction_prompt(failed_qa_pair)]: the text of the
    prompt, built by string formatting alone. *)
Variable _create_correction_prompt : gmap string json -> string.

(** [DIYRepairCorrector.correct_single_qa(failed_qa_pair)]. *)
Definition correct_single_qa (failed_qa_pair : gmap string json)
    : M W (gmap string json) :=
  let correction_prompt := _create_correction_prompt failed_qa_pair in
  let system_msg :=
    "You correct failed DIY repair Q&A so they pass quality checks. "
    +:+ "Your output will be re-evaluated on the same 6 criteria; fix each reported failure so it would score success (0). "
    +:+ "Return only valid JSON with the required fields." in
  content ← create {|
    model := self_model;
    system_content := system_msg;
    user_content := correction_prompt;
    temperature := 0.5;
    max_tokens := 1500 |};
  let raw := strip content in
  '(is_valid, qa_pair, errors) ←
    lift (validate_json_structure json_loads str_of_exception raw);
  timestamp ← now_isoformat;
  mret (<["generation_timestamp" := JStr timestamp]>
       (<["validation_errors" := JArr (map JStr errors)]>
       (<["is_valid" := JBool is_valid]>
       (<["raw_response" := JStr raw]>
       (<["qa_pair" := match qa_pair with
                       | Some qa => JObj (model_dump qa)
                       | None => JNull
                       end]>
       (<["trace_id" := default (JStr "") (failed_qa_pair !! "trace_id")]> ∅)))))).

(** The loop of [correct_batch]; the pause between two calls is not
    modelled. *)
Fixpoint correct_loop (failed_qa_pairs : list (gmap string json))
    (results : list (gmap string json)) : M W (list (gmap string json)) :=
  match failed_qa_pairs with
  | [] => mret results
  | failed_qa_pair :: rest =>
      result ← correct_single_qa failed_qa_pair;
      correct_loop rest (results ++ [result])
  end.

(** [DIYRepairCorrector.correct_batch(failed_qa_pairs)]. *)
Definition correct_batch (failed_qa_pairs : list (gmap string json))
    : M W (list (gmap string json)) :=
  correct_loop failed_qa_pairs [].

End DIYRepairCorrector.

End CorrectionPhase.

(** ** diy_repair/generation_phase.py: [generate_single_qa] *)

Module GenerationPhase.
Import Py Models Gateway.

(** One entry of [self.prompt_templates]. *)
Record Template : Type := {
  t_name : string;
  t_system : string;
  t_user : string
}.

Section DIYRepairGenerator.

Variable W : Type.
Variable create : Request -> M W string.
Variable json_loads : string -> Loads.
Variable str_of_exception : Exception -> string.
Variable now_isoformat : M W string.
(** [str(uuid.uuid4())]. *)
Variable uuid4 : M W string.
Variable self_model : string.

(** [DIYRepairGenerator.generate_single_qa(template)]. *)
Definition generate_single_qa (template : Template) : M W GenerationResult :=
  trace_id ← uuid4;
  timestamp ← now_isoformat;
  try_except
    (content ← create {|
       model := self_model;
       system_content := t_system template;
       user_content := t_user template;
       temperature := 0.7;
       max_tokens := 1500 |};
     let raw_response := strip content in
     '(is_valid, qa_pair, errors) ←
       lift (validate_json_structure json_loads str_of_exception raw_response);
     mret {| trace_id := trace_id; qa_pair := qa_pair; raw_response := raw_response;
             is_valid := is_valid; validation_errors := errors;
             generation_timestamp := timestamp |})
    (fun e =>
       mret {| trace_id := trace_id; qa_pair := None; raw_response := "";
               is_valid := false;
               validation_errors := ["Generation error: " +:+ e];
               generation_timestamp := timestamp |}).

End DIYRepairGenerator.

End GenerationPhase.

(** ** scripts/merge_corrected_qa.py *)

Module MergeCorrectedQA.
Import Py.

(** What can be put in a [set] or used as a [dict] key among decoded JSON
    values: [None], the integers (with [False == 0] and [True == 1]) and
    the strings. *)
Definition key : Type := option (Z + string).

(** [hash(v)]: lists and dicts are unhashable. *)
Definition hash_key (v : json) : string + key :=
  match v with
  | JNull => inr None
  | JBool b => inr (Some (inl (if b then 1 else 0)))
  | JInt n => inr (Some (inl n))
  | JStr s => inr (Some (inr s))
  | JArr _ => inl "TypeError: unhashable type: 'list'"
  | JObj _ => inl "TypeError: unhashable type: 'dict'"
  end.

Definition AttributeError : string := "AttributeError: object has no attribute 'get'".
Definition KeyError : string := "KeyError: 'trace_id'".
Definition TypeError : string := "TypeError: object is not a mapping".

(** Line 41, the set comprehension
    [{r["trace_id"] for r in failure_labeled if r.get("overall_failure") == 1}]. *)
Fixpoint failed_ids (failure_labeled : list json) : string + gset key :=
  match failure_labeled with
  | [] => inr ∅
  | r :: rest =>
      match r with
      | JObj r =>
          if eq_one (get r "overall_failure")
          then match r !! "trace_id" with
               | None => inl KeyError
               | Some tid =>
                   match hash_key tid with
                   | inl e => inl e
                   | inr k =>
                       match failed_ids rest with
                       | inl e => inl e
                       | inr ids => inr ({[ k ]} ∪ ids)
                       end
                   end
               end
          else failed_ids rest
      | _ => inl AttributeError
      end
  end.

(** Lines 42-46, the loop that fills [corrected_by_id]. *)
Fixpoint corrected_by_id (corrected_list : list json)
    (acc : gmap key (gmap string json)) : string + gmap key (gmap string json) :=
  match corrected_list with
  | [] => inr acc
  | r :: rest =>
      match r with
      | JObj r =>
          let tid := get r "trace_id" in
          if truthy tid && truthy (get r "is_valid") && truthy (get r "qa_pair")
          then match r !! "qa_pair" with
               | Some (JObj qa_pair) =>
                   match hash_key tid with
                   | inl e => inl e
                   | inr k =>
                       corrected_by_id rest (<[ k := <["trace_id" := tid]> qa_pair ]> acc)
                   end
               | _ => inl TypeError
               end
          else corrected_by_id rest acc
      | _ => inl AttributeError
      end
  end.

(** Lines 48-54, the loop that fills [merged]. *)
Fixpoint merged (valid_qa : list json) (failed : gset key)
    (corrected : gmap key (gmap string json)) : string + list json :=
  match valid_qa with
  | [] => inr []
  | rec :: rest =>
      match rec with
      | JObj r =>
          let trace_id := get r "trace_id" in
          match hash_key trace_id with
          | inl e => inl e
          | inr k =>
              let out :=
                if bool_decide (k ∈ failed)
                then match corrected !! k with
                     | Some c => JObj c
                     | None => rec
                     end
                else rec in
              match merged rest failed corrected with
              | inl e => inl e
              | inr m => inr (out :: m)
              end
          end
      | _ => inl AttributeError
      end
  end.

(** Lines 41-54 of [main], named as the test names them: the records to
    write to [qa_after_correction.json], or the exception raised. *)
Definition merge_corrected_qa_records (valid_qa failure_labeled corrected_list : list json)
    : string + list json :=
  match failed_ids failure_labeled with
  | inl e => inl e
  | inr failed =>
      match corrected_by_id corrected_list ∅ with
      | inl e => inl e
      | inr corrected => merged valid_qa failed corrected
      end
  end.

End MergeCorrectedQA.

(** ** diy_repair/config.py and diy_repair/failure_analysis.py *)

Module Config.

(** [TARGET_FAILURE_RATE = 0.0632]: the binary64 value nearest to it. *)
Definition TARGET_FAILURE_RATE : float := 0.0632.

End Config.

Module FailureAnalysis.
Import Py Config.

(** One row of the labelled [DataFrame]: the integer columns the analyzer
    reads. *)
Record Row : Type := {
  overall_failure : Z;
  incomplete_answer : Z;
  safety_violations : Z;
  unrealistic_tools : Z;
  overcomplicated_solution : Z;
  missing_context : Z;
  poor_quality_tips : Z
}.

Definition DataFrame : Type := list Row.

(** [row[name]] for the columns the analyzer reads: the six mode columns
    by name, and [overall_failure]. *)
Definition getitem (row : Row) (mode : string) : Z :=
  if String.eqb mode "incomplete_answer" then incomplete_answer row
  else if String.eqb mode "safety_violations" then safety_violations row
  else if String.eqb mode "unrealistic_tools" then unrealistic_tools row
  else if String.eqb mode "overcomplicated_solution" then overcomplicated_solution row
  else if String.eqb mode "missing_context" then missing_context row
  else if String.eqb mode "poor_quality_tips" then poor_quality_tips row
  else overall_failure row.

(** [df[mode]]. *)
Definition column (df : DataFrame) (mode : string) : list Z :=
  map (fun row => getitem row mode) df.

(** [series.sum()] and [series.mean()]: the mean of an integer column is
    the float sum over the float count, [nan] for an empty column. *)
Definition sum (series : list Z) : Z := fold_right Z.add 0 series.
Definition mean (series : list Z) : float :=
  PrimFloat.div (float_of_Z (sum series)) (float_of_Z (Z.of_nat (length series))).

(** The analyzer object: [self.df] and [self.failure_modes]. *)
Record FailureAnalyzer : Type := {
  df : DataFrame;
  failure_modes : list string
}.

(** [FailureAnalyzer.__init__(df)]. *)
Definition init (df : DataFrame) : FailureAnalyzer :=
  {| df := df; failure_modes := FailureLabeling.FAILURE_MODE_NAMES |}.

(** The dict that [generate_failure_summary] returns. *)
Record Summary : Type := {
  total_samples : Z;
  overall_failure_rate : float;
  overall_success_rate : float;
  target_failure_rate : float;
  target_met : bool;
  failure_mode_rates : gmap string float;
  failure_mode_counts : gmap string Z;
  most_common_failures : list string;
  least_common_failures : list string
}.

(** [rates[x]]; every mode has been stored when this is read. *)
Definition rate_of (rates : gmap string float) (x : string) : float :=
  default PrimFloat.nan (rates !! x).

(** [l[-3:]]. *)
Definition last3 {A : Type} (l : list A) : list A := skipn (length l - 3) l.

(** [FailureAnalyzer.generate_failure_summary()]. *)
Definition generate_failure_summary (self : FailureAnalyzer) : Summary :=
  let overall_failure := mean (map overall_failure (df self)) in
  let rates : gmap string float :=
    fold_left (fun d mode => <[mode := mean (column (df self) mode)]> d)
              (failure_modes self) ∅ in
  let counts : gmap string Z :=
    fold_left (fun d mode => <[mode := sum (column (df self) mode)]> d)
              (failure_modes self) ∅ in
  let sorted_modes :=
    sorted_desc (fun a b => PrimFloat.ltb (rate_of rates a) (rate_of rates b))
                (failure_modes self) in
  {| total_samples := Z.of_nat (length (df self));
     overall_failure_rate := overall_failure;
     overall_success_rate := PrimFloat.sub (float_of_Z 1) overall_failure;
     target_failure_rate := TARGET_FAILURE_RATE;
     target_met := PrimFloat.ltb overall_failure TARGET_FAILURE_RATE;
     failure_mode_rates := rates;
     failure_mode_counts := counts;
     most_common_failures := firstn 3 sorted_modes;
     least_common_failures := last3 sorted_modes |}.

(** [FailureAnalyzer._pattern_to_name(pattern)]. *)
Definition _pattern_to_name (self : FailureAnalyzer) (pattern : list Z) : string :=
  if forallb (fun x => x =? 0) pattern then "No Failures"
  else
    let failed_modes :=
      omap (fun '(i, x) => if x =? 1 then failure_modes self !! i else None)
           (imap (fun i x => (i, x)) pattern) in
    join " + " (map (fun m => title (replace_char "_" " " m)) failed_modes).

(** [patterns[name].append(idx)], with the list created when [name] is
    new; a dict keeps its keys in the order of their first insertion. *)
Fixpoint patterns_append (name : string) (idx : Z) (patterns : list (string * list Z))
    : list (string * list Z) :=
  match patterns with
  | [] => [(name, [idx])]
  | (k, v) :: rest =>
      if String.eqb k name then (k, v ++ [idx]) :: rest
      else (k, v) :: patterns_append name idx rest
  end.

(** [FailureAnalyzer.identify_failure_patterns()]; [idx] is the position
    of the row. *)
Definition identify_failure_patterns (self : FailureAnalyzer) : list (string * list Z) :=
  let patterns :=
    fold_left
      (fun patterns '(idx, row) =>
         let pattern := map (fun mode => getitem row mode) (failure_modes self) in
         let pattern_name := _pattern_to_name self pattern in
         patterns_append pattern_name idx patterns)
      (imap (fun i row => (Z.of_nat i, row)) (df self)) [] in
  sorted_desc (fun a b => (length (snd a) <? length (snd b))%nat) patterns.

(** [patterns.get(name)] on the ordered dict. *)
Fixpoint patterns_get (name : string) (patterns : list (string * list Z))
    : option (list Z) :=
  match patterns with
  | [] => None
  | (k, v) :: rest => if String.eqb k name then Some v else patterns_get name rest
  end.

Section Recommendations.

(** [f"{x:.1%}"] and [f"{x:.2%}"]: the number of decimals, then the value. *)
Variable format_percent : nat -> float -> string.

(** [FailureAnalyzer._generate_recommendations(summary, patterns)].
    [None] stands for a raised exception: [IndexError] on an empty
    [most_common_failures], [ZeroDivisionError] on [total_samples == 0]
    with a non-empty "No Failures" group. *)
Definition _generate_recommendations (summary : Summary)
    (patterns : list (string * list Z)) : option (list string) :=
  match most_common_failures summary with
  | [] => None
  | most_common :: _ =>
      let recommendations : list string :=
        ["Focus on improving '" +:+ replace_char "_" " " most_common
         +:+ "' - it's the most common failure mode ("
         +:+ format_percent 1 (rate_of (failure_mode_rates summary) most_common)
         +:+ " failure rate)"] in
      let rest (recommendations : list string) : list string :=
        let recommendations :=
          if PrimFloat.ltb 0.5 (overall_failure_rate summary)
          then recommendations ++
            ["High overall failure rate suggests need for better prompt engineering or model fine-tuning"]
          else recommendations in
        if negb (target_met summary)
        then recommendations ++
          ["Final failure rate must be < "
           +:+ format_percent 2 (target_failure_rate summary)
           +:+ " to meet project success criterion. Run correction phase and re-label, or improve prompts."]
        else recommendations in
      match patterns_get "No Failures" patterns with
      | Some (i :: l) =>
          if total_samples summary =? 0 then None
          else
            let success_rate :=
              PrimFloat.div (float_of_Z (Z.of_nat (length (i :: l))))
                            (float_of_Z (total_samples summary)) in
            Some (rest (recommendations ++
              ["Good news: " +:+ format_percent 1 success_rate
               +:+ " of samples have no failures - analyze these for best practices"]))
      | _ => Some (rest recommendations)
      end
  end.

(** The recommendations of [generate_detailed_report]: those for the
    summary and the patterns of [self]. *)
Definition report_recommendations (self : FailureAnalyzer) : option (list string) :=
  _generate_recommendations (generate_failure_summary self) (identify_failure_patterns self).

End Recommendations.

End FailureAnalysis.

(** ** diy_repair/failure_analysis.py: the analyzer as an object in a store *)

(** The two reporting methods once more, statement by statement, on a
    store of Python objects: the instance, the frame behind [self.df],
    the module's list of mode names behind [self.failure_modes], and the
    dicts and lists that the methods create and fill.  Every write of
    the methods ([d[k] = v], [l.append(x)]) is a write to the store. *)
Module AnalyzerObject.
Import Py Config Gateway FailureAnalysis.

Definition loc : Type := nat.

Inductive value : Type :=
  | VInt (n : Z)
  | VFloat (x : float)
  | VBool (b : bool)
  | VStr (s : string)
  | VRef (l : loc).

Inductive object : Type :=
  | OList (items : list value)
  (** A dict with string keys, in insertion order. *)
  | ODict (items : list (string * value))
  (** A pandas frame. *)
  | OFrame (rows : DataFrame)
  (** An instance, by its attributes. *)
  | OInstance (attrs : list (string * value)).

(** The object at location [l] is the [l]-th of the store; a new object
    goes to the end. *)
Abbreviation Store := (list object).

(** [d.get(k)] on the items of a dict. *)
Fixpoint assoc (k : string) (items : list (string * value)) : option value :=
  match items with
  | [] => None
  | (k', v) :: rest => if String.eqb k' k then Some v else assoc k rest
  end.

(** [d[k] = v] on the items of a dict: the value of a key that is there
    is replaced in place, a new key goes to the end. *)
Fixpoint assoc_set (k : string) (v : value) (items : list (string * value))
    : list (string * value) :=
  match items with
  | [] => [(k, v)]
  | (k', v') :: rest =>
      if String.eqb k' k then (k', v) :: rest else (k', v') :: assoc_set k v rest
  end.

Definition new (o : object) : M Store value :=
  fun h => (inr (VRef (length h)), h ++ [o]).

Definition load (v : value) : M Store object :=
  fun h => match v with
           | VRef l => match h !! l with
                       | Some o => (inr o, h)
                       | None => (inl "SystemError: no object at this location", h)
                       end
           | _ => (inl "TypeError: not an object", h)
           end.

Definition store (v : value) (o : object) : M Store unit :=
  fun h => match v with
           | VRef l => (inr tt, <[l := o]> h)
           | _ => (inl "TypeError: not an object", h)
           end.

(** [self.name]. *)
Definition getattr (self : value) (name : string) : M Store value :=
  o ← load self;
  match o with
  | OInstance attrs =>
      match assoc name attrs with
      | Some v => mret v
      | None => raise ("AttributeError: " +:+ name)
      end
  | _ => raise ("AttributeError: " +:+ name)
  end.

(** The rows of a frame: what the reading methods of pandas see. *)
Definition frame (df : value) : M Store DataFrame :=
  o ← load df;
  match o with
  | OFrame rows => mret rows
  | _ => raise "TypeError: not a DataFrame"
  end.

Definition list_items (l : value) : M Store (list value) :=
  o ← load l;
  match o with
  | OList items => mret items
  | _ => raise "TypeError: not a list"
  end.

(** [l.append(x)]. *)
Definition list_append (l : value) (x : value) : M Store unit :=
  items ← list_items l;
  store l (OList (items ++ [x])).

Definition dict_items (d : value) : M Store (list (string * value)) :=
  o ← load d;
  match o with
  | ODict items => mret items
  | _ => raise "TypeError: not a dict"
  end.

(** [d[k]]. *)
Definition dict_getitem (d : value) (k : string) : M Store value :=
  items ← dict_items d;
  match assoc k items with
  | Some v => mret v
  | None => raise ("KeyError: " +:+ k)
  end.

(** [d[k] = v]. *)
Definition dict_setitem (d : value) (k : string) (v : value) : M Store unit :=
  items ← dict_items d;
  store d (ODict (assoc_set k v items)).

(** [k in d]. *)
Definition dict_contains (d : value) (k : string) : M Store bool :=
  items ← dict_items d;
  mret (match assoc k items with Some _ => true | None => false end).

Definition as_str (v : value) : M Store string :=
  match v with
  | VStr s => mret s
  | _ => raise "TypeError: not a str"
  end.

Definition as_float (v : value) : M Store float :=
  match v with
  | VFloat x => mret x
  | _ => raise "TypeError: not a float"
  end.

(** [for x in items: body(x)], over the items as they are when the loop
    starts. *)
Fixpoint for_each {A : Type} (items : list A) (body : A -> M Store unit) : M Store unit :=
  match items with
  | [] => mret tt
  | x :: rest => _ ← body x; for_each rest body
  end.

(** [[f(x) for x in items]]. *)
Fixpoint map_each {A B : Type} (items : list A) (f : A -> M Store B) : M Store (list B) :=
  match items with
  | [] => mret []
  | x :: rest => y ← f x; ys ← map_each rest f; mret (y :: ys)
  end.

(** The names in [self.failure_modes]. *)
Definition self_failure_modes (self : value) : M Store (list string) :=
  modes ← getattr self "failure_modes";
  items ← list_items modes;
  map_each items as_str.

(** [FailureAnalyzer.__init__(df)]: the second attribute is the list
    [FAILURE_MODE_NAMES] of the module itself, not a copy. *)
Definition __init__ (df FAILURE_MODE_NAMES : value) : M Store value :=
  new (OInstance [("df", df); ("failure_modes", FAILURE_MODE_NAMES)]).

(** [FailureAnalyzer.generate_failure_summary()]. *)
Definition generate_failure_summary (self : value) : M Store value :=
  df ← getattr self "df";
  rows ← frame df;
  let overall_failure := mean (map overall_failure rows) in
  df ← getattr self "df";
  rows ← frame df;
  let total_samples := Z.of_nat (length rows) in
  failure_mode_rates ← new (ODict []);
  failure_mode_counts ← new (ODict []);
  most_common_failures ← new (OList []);
  least_common_failures ← new (OList []);
  summary ← new (ODict [
    ("total_samples", VInt total_samples);
    ("overall_failure_rate", VFloat overall_failure);
    ("overall_success_rate", VFloat (PrimFloat.sub (float_of_Z 1) overall_failure));
    ("target_failure_rate", VFloat TARGET_FAILURE_RATE);
    ("target_met", VBool (PrimFloat.ltb overall_failure TARGET_FAILURE_RATE));
    ("failure_mode_rates", failure_mode_rates);
    ("failure_mode_counts", failure_mode_counts);
    ("most_common_failures", most_common_failures);
    ("least_common_failures", least_common_failures) ]);
  modes ← self_failure_modes self;
  _ ← for_each modes (fun mode =>
         df ← getattr self "df";
         rows ← frame df;
         let rate := mean (column rows mode) in
         df ← getattr self "df";
         rows ← frame df;
         let count := sum (column rows mode) in
         d ← dict_getitem summary "failure_mode_rates";
         _ ← dict_setitem d mode (VFloat rate);
         d ← dict_getitem summary "failure_mode_counts";
         dict_setitem d mode (VInt count));
  modes ← self_failure_modes self;
  keys ← map_each modes (fun x =>
            d ← dict_getitem summary "failure_mode_rates";
            rate ← dict_getitem d x;
            as_float rate);
  sorted_modes ← new (OList (map (fun xk => VStr (fst xk))
                     (sorted_desc (fun a b => PrimFloat.ltb (snd a) (snd b))
                        (combine modes keys))));
  items ← list_items sorted_modes;
  first3 ← new (OList (firstn 3 items));
  _ ← dict_setitem summary "most_common_failures" first3;
  items ← list_items sorted_modes;
  last3 ← new (OList (last3 items));
  _ ← dict_setitem summary "least_common_failures" last3;
  mret summary.

(** [FailureAnalyzer._pattern_to_name(pattern)], which reads
    [self.failure_modes]. *)
Definition _pattern_to_name (self : value) (pattern : list Z) : M Store string :=
  if forallb (fun x => x =? 0) pattern then mret "No Failures"
  else
    modes ← self_failure_modes self;
    let failed_modes :=
      omap (fun '(i, x) => if x =? 1 then modes !! i else None)
           (imap (fun i x => (i, x)) pattern) in
    mret (join " + " (map (fun m => title (replace_char "_" " " m)) failed_modes)).

(** [FailureAnalyzer.identify_failure_patterns()]. *)
Definition identify_failure_patterns (self : value) : M Store value :=
  patterns ← new (ODict []);
  df ← getattr self "df";
  rows ← frame df;
  _ ← for_each (imap (fun i row => (Z.of_nat i, row)) rows) (fun '(idx, row) =>
         modes ← self_failure_modes self;
         let pattern := map (fun mode => getitem row mode) modes in
         pattern_name ← _pattern_to_name self pattern;
         present ← dict_contains patterns pattern_name;
         _ ← (if (present : bool) then (mret tt : M Store unit)
              else l ← new (OList []); dict_setitem patterns pattern_name l);
         l ← dict_getitem patterns pattern_name;
         list_append l (VInt idx));
  items ← dict_items patterns;
  keyed ← map_each items (fun x => l ← list_items (snd x); mret (x, length l));
  new (ODict (map fst (sorted_desc (fun a b => (snd a <? snd b)%nat) keyed))).

(** A session with one analyzer: the methods called on it, in order,
    each on the store as the calls before it have left it. *)
Inductive Call : Type := call_summary | call_patterns.

Definition call (c : Call) (self : value) : M Store value :=
  match c with
  | call_summary => generate_failure_summary self
  | call_patterns => identify_failure_patterns self
  end.

Fixpoint run (calls : list Call) (self : value) : M Store (list value) :=
  match calls with
  | [] => mret []
  | c :: rest =>
      out ← call c self;
      outs ← run rest self;
      mret (out :: outs)
  end.

(** What a returned object holds, read from the store: the summary and
    the pattern groups as values. *)
Definition read_list {A : Type} (read : value -> option A) (h : Store) (v : value)
    : option (list A) :=
  match v with
  | VRef l => match h !! l with
              | Some (OList items) => mapM read items
              | _ => None
              end
  | _ => None
  end.

Definition read_dict {A : Type} (read : value -> option A) (h : Store) (v : value)
    : option (list (string * A)) :=
  match v with
  | VRef l => match h !! l with
              | Some (ODict items) =>
                  mapM (fun kv => match read (snd kv) with
                                  | Some a => Some (fst kv, a)
                                  | None => None
                                  end) items
              | _ => None
              end
  | _ => None
  end.

Definition read_int (v : value) : option Z :=
  match v with VInt n => Some n | _ => None end.
Definition read_float (v : value) : option float :=
  match v with VFloat x => Some x | _ => None end.
Definition read_bool (v : value) : option bool :=
  match v with VBool b => Some b | _ => None end.
Definition read_str (v : value) : option string :=
  match v with VStr s => Some s | _ => None end.

Definition to_map {A : Type} (items : list (string * A)) : gmap string A :=
  fold_left (fun d kv => <[fst kv := snd kv]> d) items ∅.

Definition read_summary (h : Store) (v : value) : option Summary :=
  match v with
  | VRef l =>
      match h !! l with
      | Some (ODict items) =>
          total_samples ← assoc "total_samples" items ≫= read_int;
          overall_failure_rate ← assoc "overall_failure_rate" items ≫= read_float;
          overall_success_rate ← assoc "overall_success_rate" items ≫= read_float;
          target_failure_rate ← assoc "target_failure_rate" items ≫= read_float;
          target_met ← assoc "target_met" items ≫= read_bool;
          failure_mode_rates ← assoc "failure_mode_rates" items ≫= read_dict read_float h;
          failure_mode_counts ← assoc "failure_mode_counts" items ≫= read_dict read_int h;
          most_common_failures ← assoc "most_common_failures" items ≫= read_list read_str h;
          least_common_failures ← assoc "least_common_failures" items ≫= read_list read_str h;
          Some {| total_samples := total_samples;
                  overall_failure_rate := overall_failure_rate;
                  overall_success_rate := overall_success_rate;
                  target_failure_rate := target_failure_rate;
                  target_met := target_met;
                  failure_mode_rates := to_map failure_mode_rates;
                  failure_mode_counts := to_map failure_mode_counts;
                  most_common_failures := most_common_failures;
                  least_common_failures := least_common_failures |}
      | _ => None
      end
  | _ => None
  end.

Definition read_patterns (h : Store) (v : value) : option (list (string * list Z)) :=
  read_dict (read_list read_int h) h v.

End AnalyzerObject.
(** ** The rest of the pipeline *)

(** ** diy_repair/validation_phase.py: [save_valid_data] *)

Module ValidationOutput.
Import Py Models.

(** The list [clean_data] that [save_valid_data(valid_results)] writes. *)
Definition save_valid_data (valid_results : list GenerationResult)
    : list (gmap string json) :=
  omap (fun result =>
          match qa_pair result with
          | Some qa => Some (<["trace_id" := JStr (trace_id result)]> (model_dump qa))
          | None => None
          end) valid_results.

End ValidationOutput.

(** ** diy_repair/failure_labeling.py: [create_failure_labeled_dataframe] *)

Module LabelingBatch.
Import Py Models Gateway FailureLabeling.

Section Labeling.

Variable W : Type.
Variable create : Request -> M W string.
Variable format : string -> DIYRepairQA -> string + string.
Variable int : string -> option Z.
Variable str_of_exception : Exception -> string.
(** [str(uuid.uuid4())]. *)
Variable uuid4 : M W string.
(** The [model] argument, handed to the judge. *)
Variable model : string.

(** The call of [DIYRepairQA] on the items of [qa_dict] other than
    trace_id. *)
Definition rebuild (qa_dict : gmap string json) : string + DIYRepairQA :=
  match DIYRepairQA_new (JObj (delete "trace_id" qa_dict)) with
  | inl e => inl (str_of_exception e)
  | inr qa_pair => inr qa_pair
  end.

(** [judge.evaluate_qa_pair(qa_pair, trace_id)] for the value found under
    trace_id, which is stored as it is when it is not a string. *)
Definition evaluate_as (qa_pair : DIYRepairQA) (trace_id : json)
    : M W (gmap string json) :=
  match trace_id with
  | JStr s => evaluate_qa_pair W create format int model qa_pair s
  | v =>
      results ← evaluate_qa_pair W create format int model qa_pair "";
      mret (<["trace_id" := v]> results)
  end.

(** The loop over [qa_data].  The default of [qa_dict.get] is computed
    before the lookup, so an identifier is drawn for every record.  The
    pause after each record is not modelled. *)
Fixpoint label_loop (qa_data : list (gmap string json))
    (labeled_data : list (gmap string json)) : M W (list (gmap string json)) :=
  match qa_data with
  | [] => mret labeled_data
  | qa_dict :: rest =>
      qa_pair ← lift (rebuild qa_dict);
      fresh ← uuid4;
      let trace_id := default (JStr fresh) (qa_dict !! "trace_id") in
      results ← evaluate_as qa_pair trace_id;
      label_loop rest (labeled_data ++ [results])
  end.

(** [create_failure_labeled_dataframe(qa_data, model)]: the rows of the
    frame.  The closing report reads the column overall_failure, which a
    frame without rows does not have. *)
Definition create_failure_labeled_dataframe (qa_data : list (gmap string json))
    : M W (list (gmap string json)) :=
  labeled_data ← label_loop qa_data [];
  match labeled_data with
  | [] => raise "KeyError: 'overall_failure'"
  | _ :: _ => mret labeled_data
  end.

End Labeling.

End LabelingBatch.

(** ** diy_repair/correction_phase.py: the prompt and [run_correction_phase] *)

Module CorrectionRun.
Import Py Models Gateway FailureLabeling CorrectionPhase.

Definition dq : string := String "034"%char "".

Definition FIX_INSTRUCTIONS : gmap string string :=
  list_to_map [
    ("incomplete_answer",
     "Expand the answer and steps so they are comprehensive, step-by-step, and sufficient for someone to complete the repair successfully. Add any missing critical steps.");
    ("safety_violations",
     "Add clear safety warnings, precautions (e.g. turn off power/water), and explicitly state when to call a professional. Ensure nothing dangerous is implied.");
    ("unrealistic_tools",
     "Use only tools commonly available to homeowners or easily found at hardware stores. Replace any specialized or expensive tools with realistic alternatives.");
    ("overcomplicated_solution",
     "Simplify the solution: fewer steps where possible, appropriate to a DIY skill level. Remove unnecessary complexity while keeping it effective.");
    ("missing_context",
     "Add when to use this solution, any prerequisites (e.g. parts, time), and situational notes (e.g. when it might not apply, when to call a pro).");
    ("poor_quality_tips",
     "Rewrite tips to be specific and actionable (e.g. exact techniques, order of operations, what to avoid). Do not repeat the main answer; add real extra value.")
  ].

(** [{m.name: m for m in FailureModeDefinitions.get_failure_modes()}]. *)
Definition modes_by_name : gmap string FailureMode :=
  fold_left (fun d m => <[name m := m]> d) get_failure_modes ∅.

(** The list [failed_modes] of [_create_correction_prompt]. *)
Definition failed_modes (failed_qa_pair : gmap string json) : list string :=
  match List.filter (fun name => eq_one (get failed_qa_pair name)) FAILURE_MODE_NAMES with
  | [] => ["quality"]
  | l => l
  end.

(** One entry of [fix_section_lines]. *)
Definition fix_line (name : string) : string :=
  if String.eqb name "quality"
  then "- Improve overall quality so it would pass all 6 quality checks."
  else
    let mode := modes_by_name !! name in
    let success :=
      match mode with
      | Some mode => success_criteria mode
      | None => "Meet quality bar for this aspect."
      end in
    let how :=
      match FIX_INSTRUCTIONS !! name with
      | Some (String c s) => String c s
      | _ => "Revise so the content satisfies: " +:+ success
      end in
    "- **" +:+ name +:+ "**: Judge expects: " +:+ dq +:+ success +:+ dq
    +:+ " → To fix: " +:+ how.

Section Prompt.

(** [f"{v}"] for a value of the record. *)
Variable format_value : json -> string.

(** [DIYRepairCorrector._create_correction_prompt(failed_qa_pair)]. *)
Definition _create_correction_prompt (failed_qa_pair : gmap string json) : string :=
  let fix_section_lines := map fix_line (failed_modes failed_qa_pair) in
  let fix_section := join (String "010"%char "") fix_section_lines in
  let field (key : string) (default_value : json) : string :=
    format_value (default default_value (failed_qa_pair !! key)) in
  "You are an expert home DIY repair technician. This Q&A pair failed quality checks. Your corrected version will be re-evaluated with the same criteria; you must fix it so it passes.

FAILURES TO FIX (do exactly what is needed so the judge scores 0 / success):
" +:+ fix_section +:+ "

ORIGINAL Q&A PAIR:
Question: " +:+ field "question" (JStr "") +:+ "
Answer: " +:+ field "answer" (JStr "") +:+ "
Equipment Problem: " +:+ field "equipment_problem" (JStr "") +:+ "
Tools Required: " +:+ field "tools_required" (JArr []) +:+ "
Steps: " +:+ field "steps" (JArr []) +:+ "
Safety Info: " +:+ field "safety_info" (JStr "") +:+ "
Tips: " +:+ field "tips" (JStr "") +:+ "

TASK: Produce a CORRECTED Q&A that addresses every failure above. Keep the same topic and equipment problem. Each field must be substantive (no placeholders).

Return ONLY a valid JSON object with this exact structure:
{
  " +:+ dq +:+ "question" +:+ dq +:+ ": " +:+ dq +:+ "A specific question about DIY repair" +:+ dq +:+ ",
  " +:+ dq +:+ "answer" +:+ dq +:+ ": " +:+ dq +:+ "Detailed step-by-step answer with technical details" +:+ dq +:+ ",
  " +:+ dq +:+ "equipment_problem" +:+ dq +:+ ": " +:+ dq +:+ "Specific equipment or problem being addressed" +:+ dq +:+ ",
  " +:+ dq +:+ "tools_required" +:+ dq +:+ ": [" +:+ dq +:+ "list" +:+ dq +:+ ", " +:+ dq +:+ "of" +:+ dq +:+ ", " +:+ dq +:+ "specific" +:+ dq +:+ ", " +:+ dq +:+ "tools" +:+ dq +:+ ", " +:+ dq +:+ "needed" +:+ dq +:+ "],
  " +:+ dq +:+ "steps" +:+ dq +:+ ": [" +:+ dq +:+ "step 1" +:+ dq +:+ ", " +:+ dq +:+ "step 2" +:+ dq +:+ ", " +:+ dq +:+ "step 3" +:+ dq +:+ ", " +:+ dq +:+ "etc" +:+ dq +:+ "],
  " +:+ dq +:+ "safety_info" +:+ dq +:+ ": " +:+ dq +:+ "Important safety warnings and precautions" +:+ dq +:+ ",
  " +:+ dq +:+ "tips" +:+ dq +:+ ": " +:+ dq +:+ "Professional tips and best practices" +:+ dq +:+ "
}".

End Prompt.

Section Run.

Variable W : Type.
Variable create : Request -> M W string.
Variable json_loads : string -> Loads.
Variable str_of_exception : Exception -> string.
Variable now_isoformat : M W string.
Variable format_value : json -> string.
(** The [model] argument. *)
Variable model : string.

(** [run_correction_phase(model, input_file, output_file)] on the list
    read from the input file: the results, which are also what the output
    file receives. *)
Definition run_correction_phase (all_pairs : list (gmap string json))
    : M W (list (gmap string json)) :=
  let failed_qa_pairs :=
    List.filter (fun p => eq_one (get p "overall_failure")) all_pairs in
  match failed_qa_pairs with
  | [] => mret []
  | _ :: _ =>
      correct_batch W create json_loads str_of_exception now_isoformat model
        (_create_correction_prompt format_value) failed_qa_pairs
  end.

End Run.

End CorrectionRun.

(** ** diy_repair/generation_phase.py: [generate_batch] *)

Module GenerationBatch.
Import Py Models Gateway GenerationPhase.

Section Batch.

Variable W : Type.
Variable create : Request -> M W string.
Variable json_loads : string -> Loads.
Variable str_of_exception : Exception -> string.
Variable now_isoformat : M W string.
Variable uuid4 : M W string.
Variable self_model : string.
(** [self.prompt_templates]. *)
Variable self_prompt_templates : list Template.
(** [random.choice(l)]. *)
Variable choice : list Template -> M W Template.

(** The loop of [generate_batch]; the pause after each sample is not
    modelled. *)
Fixpoint generate_loop (n : nat) (results : list GenerationResult)
    : M W (list GenerationResult) :=
  match n with
  | O => mret results
  | S n' =>
      template ← choice self_prompt_templates;
      result ← generate_single_qa W create json_loads str_of_exception now_isoformat
                 uuid4 self_model template;
      generate_loop n' (results ++ [result])
  end.

(** [DIYRepairGenerator.generate_batch(num_samples)]. *)
Definition generate_batch (num_samples : Z) : M W (list GenerationResult) :=
  generate_loop (Z.to_nat num_samples) [].

End Batch.

End GenerationBatch.

(** ** diy_repair/failure_labeling.py: the short codes;
    scripts/human_labeling.py *)

Module HumanLabeling.
Import Py Models Gateway FailureLabeling.

Definition FAILURE_MODE_SHORT_CODES : gmap string string :=
  list_to_map [
    ("incomplete_answer", "ia");
    ("safety_violations", "sv");
    ("unrealistic_tools", "ut");
    ("overcomplicated_solution", "os");
    ("missing_context", "mc");
    ("poor_quality_tips", "pt")
  ].

(** [FAILURE_MODES_CLI]: (name, code, title) for each mode.  Each of the
    six names is a key of [FAILURE_MODE_SHORT_CODES], so the subscript
    does not raise. *)
Definition FAILURE_MODES_CLI : list (string * string * string) :=
  map (fun name =>
         (name, default "" (FAILURE_MODE_SHORT_CODES !! name),
          title (replace_char "_" " " name)))
      FAILURE_MODE_NAMES.

(** [CODE_TO_NAME = {code: name for name, code, _ in FAILURE_MODES_CLI}]. *)
Definition CODE_TO_NAME : gmap string string :=
  fold_left (fun d '(name, code, _) => <[code := name]> d) FAILURE_MODES_CLI ∅.

(** [s.lower()] on the code points below 256. *)
Definition lower_char (c : ascii) : ascii :=
  let n := nat_of_ascii c in
  if (Nat.leb 65 n && Nat.leb n 90)
     || (Nat.leb 192 n && Nat.leb n 222 && negb (Nat.eqb n 215))
  then ascii_of_nat (n + 32) else c.

Fixpoint lower (s : string) : string :=
  match s with
  | EmptyString => EmptyString
  | String c s' => String (lower_char c) (lower s')
  end.

(** [s.split()]: the maximal runs of characters that are not white
    space. *)
Fixpoint split (s : string) : list string :=
  match s with
  | EmptyString => []
  | String c s' =>
      if isspace c then split s'
      else
        match s' with
        | EmptyString => [String c EmptyString]
        | String c' _ =>
            if isspace c' then String c EmptyString :: split s'
            else match split s' with
                 | part :: parts => String c part :: parts
                 | [] => [String c EmptyString]
                 end
        end
  end.

(** [parse_codes(raw)]. *)
Definition parse_codes (raw : string) : list string :=
  if negb (nonempty raw) || negb (nonempty (strip raw)) then []
  else
    fold_left
      (fun names part =>
         let code := lower (strip part) in
         match CODE_TO_NAME !! code with
         | Some name => names ++ [name]
         | None => names
         end)
      (split (replace_char "," " " raw)) [].

Section Prompt.

Variable W : Type.
(** [input()]: the line typed, or [EOFError]. *)
Variable input : M W string.

(** [prompt_for_labels(sample, existing)]; what it prints is not
    modelled. *)
Definition prompt_for_labels (sample : gmap string json) : M W (gmap string json) :=
  let trace_id := default (JStr "") (sample !! "trace_id") in
  line ← input;
  let raw := strip line in
  if String.eqb (lower raw) "q" then raise "KeyboardInterrupt"
  else
    let names := parse_codes raw in
    comment ← match names with
              | [] => mret None
              | _ :: _ =>
                  line ← input;
                  let comment := strip line in
                  mret (if nonempty comment then Some comment else None)
              end;
    let out : gmap string json :=
      <["comment" := match comment with
                     | Some comment => if nonempty comment then JStr comment else JNull
                     | None => JNull
                     end]>
      (fold_left
         (fun d name =>
            <[name := JInt (if existsb (String.eqb name) names then 1 else 0)]> d)
         FAILURE_MODE_NAMES
         (<["trace_id" := trace_id]> ∅)) in
    let overall_failure :=
      if existsb (fun k => truthy (get out k)) FAILURE_MODE_NAMES then 1 else 0 in
    mret (<["overall_failure" := JInt overall_failure]> out).

End Prompt.

End HumanLabeling.

(** ** Scripted collaborators for concrete runs *)

Module Stub.
Import Py Models Gateway.

(** The double quote. *)
Definition dq : string := String "034"%char "".

(** JSON text of a value (no escapes are needed for the texts used here). *)
Fixpoint json_text (v : json) : string :=
  match v with
  | JNull => "null"
  | JBool b => if b then "true" else "false"
  | JInt n => pretty n
  | JStr s => dq +:+ s +:+ dq
  | JArr l => "[" +:+ join ", " (map json_text l) +:+ "]"
  | JObj m =>
      "{" +:+ join ", " (map (fun kv => dq +:+ fst kv +:+ dq +:+ ": " +:+ snd kv)
                             (map_to_list (json_text <$> m))) +:+ "}"
  end.

(** A text for an object whose members are written as [key: value]. *)
Definition object_text (members : list (string * json)) : string :=
  "{" +:+ join ", " (map (fun '(k, v) => dq +:+ k +:+ dq +:+ ": " +:+ json_text v) members)
  +:+ "}".

(** A decoder that knows the listed texts and rejects every other one. *)
Fixpoint loads_table (table : list (string * json)) (s : string) : Loads :=
  match table with
  | [] => JSONDecodeError "Expecting value: line 1 column 1 (char 0)"
  | (t, v) :: rest => if String.eqb s t then Loaded v else loads_table rest s
  end.

(** The decoder for one object given by its members. *)
Definition loads_object (members : list (string * json)) : string -> Loads :=
  loads_table [(object_text members, JObj (list_to_map members))].

(** A rendering of exceptions: the fields in error, or the kind. *)
Definition str_of_exception (e : Exception) : string :=
  match e with
  | TypeError_not_a_mapping _ => "argument after ** must be a mapping"
  | ValidationError errors =>
      join "; " (map (fun d => err_loc d) errors) +:+ ": validation errors for DIYRepairQA"
  end.

(** A gateway that replays a script: each call takes the next entry, a
    reply or an exception. *)
Definition World : Type := list (string + string).

Definition create (r : Request) : M World string :=
  fun w => match w with
           | [] => (inl "Connection error.", [])
           | reply :: w' => (reply, w')
           end.

Definition now_isoformat : M World string := fun w => (inr "2026-01-01T00:00:00", w).
Definition uuid4 : M World string := fun w => (inr "8c5f0b1e-0000-4000-8000-000000000001", w).

(** The record of the repository's validation test. *)
Definition leaky_faucet : list (string * json) :=
  [ ("question", JStr "How can I fix a leaky kitchen faucet?");
    ("answer", JStr "Turn off the water, disassemble the handle, replace the worn parts, and reassemble.");
    ("equipment_problem", JStr "Leaky kitchen faucet");
    ("tools_required", JArr [JStr "adjustable wrench"; JStr "screwdriver"]);
    ("steps", JArr [JStr "Turn off water"; JStr "Disassemble handle"; JStr "Replace parts";
                    JStr "Reassemble and test"]);
    ("safety_info", JStr "Turn off the water supply before starting any work.");
    ("tips", JStr "Take a photo before disassembly so you can reassemble correctly.") ].

Definition leaky_faucet_qa : DIYRepairQA := {|
  question := "How can I fix a leaky kitchen faucet?";
  answer := "Turn off the water, disassemble the handle, replace the worn parts, and reassemble.";
  equipment_problem := "Leaky kitchen faucet";
  tools_required := ["adjustable wrench"; "screwdriver"];
  steps := ["Turn off water"; "Disassemble handle"; "Replace parts"; "Reassemble and test"];
  safety_info := "Turn off the water supply before starting any work.";
  tips := "Take a photo before disassembly so you can reassemble correctly."
|}.

(** The same record with some members replaced. *)
Definition with_members (changes base : list (string * json)) : list (string * json) :=
  map (fun '(k, v) => match list_find (fun c => String.eqb (fst c) k = true) changes with
                      | Some (_, (_, v')) => (k, v')
                      | None => (k, v)
                      end) base.

End Stub.

(** * Properties *)

(** ** Trimming *)

Module PyFacts.
Import Py.

Lemma rstrip_idem s : rstrip (rstrip s) = rstrip s.
Proof.
  induction s as [|c s IH]; [reflexivity|].
  simpl. destruct (rstrip s) as [|d r] eqn:E.
  - destruct (isspace c) eqn:Ec; simpl; [reflexivity|]. now rewrite Ec.
  - simpl in *. rewrite IH. reflexivity.
Qed.

Lemma lstrip_idem s : lstrip (lstrip s) = lstrip s.
Proof.
  induction s as [|c s IH]; [reflexivity|].
  simpl. destruct (isspace c) eqn:Ec; [exact IH|]. simpl. now rewrite Ec.
Qed.

Lemma rstrip_lstrip s : rstrip (lstrip s) = lstrip (rstrip s).
Proof.
  induction s as [|c s IH]; [reflexivity|].
  simpl lstrip at 1. destruct (isspace c) eqn:Ec.
  - rewrite IH. simpl rstrip at 2.
    destruct (rstrip s) as [|d r] eqn:E.
    + rewrite Ec. reflexivity.
    + simpl. rewrite Ec. reflexivity.
  - simpl. destruct (rstrip s) as [|d r] eqn:E;
      rewrite ?Ec; simpl; rewrite ?Ec; reflexivity.
Qed.

Lemma strip_idem s : strip (strip s) = strip s.
Proof.
  unfold strip. rewrite rstrip_lstrip, rstrip_idem, lstrip_idem. reflexivity.
Qed.

Lemma length_lstrip s : (String.length (lstrip s) <= String.length s)%nat.
Proof.
  induction s as [|c s IH]; simpl; [lia|].
  destruct (isspace c); simpl; lia.
Qed.

Lemma length_rstrip s : (String.length (rstrip s) <= String.length s)%nat.
Proof.
  induction s as [|c s IH]; simpl; [lia|].
  destruct (rstrip s); [destruct (isspace c)|]; simpl in *; lia.
Qed.

Lemma len_strip s : len (strip s) <= len s.
Proof.
  unfold len, strip.
  pose proof (length_lstrip (rstrip s)). pose proof (length_rstrip s). lia.
Qed.

Lemma nonempty_len s : nonempty s = true <-> 0 < len s.
Proof. unfold len. destruct s; simpl; split; intros; try lia; congruence. Qed.

End PyFacts.

(** ** The order of binary64 values *)

Module FloatOrder.

(** A place on a line of integer triples for every float that is not
    [nan]: sign class first, then exponent and mantissa (negated for the
    negative floats). *)
Definition rank (x : spec_float) : Z * Z * Z :=
  match x with
  | S754_nan => (0, 0, 0)
  | S754_zero _ => (0, 0, 0)
  | S754_infinity s => (if s then -2 else 2, 0, 0)
  | S754_finite s m e => if s then (-1, - e, - Zpos m) else (1, e, Zpos m)
  end.

Definition lex_lt (a b : Z * Z * Z) : Prop :=
  let '(a1, a2, a3) := a in
  let '(b1, b2, b3) := b in
  a1 < b1 \/ (a1 = b1 /\ (a2 < b2 \/ (a2 = b2 /\ a3 < b3))).

Lemma SFltb_rank x y :
  x <> S754_nan -> y <> S754_nan ->
  (SFltb x y = true <-> lex_lt (rank x) (rank y)).
Proof.
  intros Hx Hy. unfold SFltb, SFcompare, lex_lt, rank.
  destruct x as [sx|sx| |sx mx ex], y as [sy|sy| |sy my ey]; try congruence;
    try destruct sx; try destruct sy; simpl;
    try rewrite Pos.compare_cont_spec; simpl;
    try (destruct (Z.compare_spec ex ey) as [->|H|H];
         [destruct (Pos.compare_spec mx my) as [->|H'|H']| |]; simpl);
    split; intros H0; first [discriminate | lia | reflexivity].
Qed.

Lemma is_nan_false (x : float) : PrimFloat.is_nan x = false -> Prim2SF x <> S754_nan.
Proof.
  unfold PrimFloat.is_nan. rewrite FloatAxioms.eqb_spec. intros H E. rewrite E in H. discriminate H.
Qed.

(** The place of a float. *)
Definition place (x : float) : Z * Z * Z := rank (Prim2SF x).

Lemma ltb_place (x y : float) :
  PrimFloat.is_nan x = false -> PrimFloat.is_nan y = false ->
  (PrimFloat.ltb x y = true <-> lex_lt (place x) (place y)).
Proof.
  intros Hx Hy. rewrite FloatAxioms.ltb_spec.
  apply SFltb_rank; now apply is_nan_false.
Qed.

Lemma lex_lt_asym a b : lex_lt a b -> ~ lex_lt b a.
Proof. destruct a as [[a1 a2] a3], b as [[b1 b2] b3]. unfold lex_lt. lia. Qed.

Lemma lex_lt_cotrans a b c : lex_lt a c -> lex_lt a b \/ lex_lt b c.
Proof.
  destruct a as [[a1 a2] a3], b as [[b1 b2] b3], c as [[c1 c2] c3]. unfold lex_lt. lia.
Qed.

Lemma ltb_asym (x y : float) :
  PrimFloat.is_nan x = false -> PrimFloat.is_nan y = false ->
  PrimFloat.ltb x y = true -> PrimFloat.ltb y x = false.
Proof.
  intros Hx Hy H. apply (ltb_place x y Hx Hy) in H.
  destruct (PrimFloat.ltb y x) eqn:E; [|reflexivity].
  apply (ltb_place y x Hy Hx) in E. now apply lex_lt_asym in H.
Qed.

Lemma ltb_cotrans (x y z : float) :
  PrimFloat.is_nan x = false -> PrimFloat.is_nan y = false -> PrimFloat.is_nan z = false ->
  PrimFloat.ltb x z = true -> PrimFloat.ltb x y = true \/ PrimFloat.ltb y z = true.
Proof.
  intros Hx Hy Hz H. apply (ltb_place x z Hx Hz) in H.
  destruct (lex_lt_cotrans _ (place y) _ H) as [H1|H1];
    [left; now apply ltb_place | right; now apply ltb_place].
Qed.

Lemma SFcompare_antisym x y :
  SFcompare y x = option_map CompOpp (SFcompare x y).
Proof.
  unfold SFcompare.
  destruct x as [sx|sx| |sx mx ex], y as [sy|sy| |sy my ey];
    try destruct sx; try destruct sy; simpl; try reflexivity;
    rewrite !Pos.compare_cont_spec;
    rewrite (Z.compare_antisym ex ey), (Pos.compare_antisym mx my);
    destruct (ex ?= ey); simpl; try reflexivity;
    destruct (mx ?= my)%positive; reflexivity.
Qed.

(** [a <= b] excludes [b < a], for all floats ([nan] included: it
    compares false with everything). *)
Lemma leb_not_ltb (a b : float) :
  PrimFloat.leb a b = true -> PrimFloat.ltb b a = false.
Proof.
  rewrite FloatAxioms.leb_spec, FloatAxioms.ltb_spec. unfold SFleb, SFltb.
  rewrite (SFcompare_antisym (Prim2SF a) (Prim2SF b)).
  destruct (SFcompare (Prim2SF a) (Prim2SF b)) as [[| |]|]; simpl;
    intros H; first [reflexivity | discriminate H].
Qed.

End FloatOrder.

(** ** The record schema and the structural validator *)

Module ModelsFacts.
Import Py PyFacts Models ValidationPhase.

(** A stored text field: trimmed, not empty, and no longer than [max]. *)
Definition text_ok (max : Z) (v : string) : Prop :=
  strip v = v /\ nonempty v = true /\ len v <= max.

(** A stored list field: between [min] and [max] items, each trimmed and
    not empty. *)
Definition items_ok (min max : Z) (l : list string) : Prop :=
  min <= Z.of_nat (length l) <= max
  /\ Forall (fun x => strip x = x /\ nonempty x = true) l.

(** Where a stored text field comes from: the string given under [name],
    whose own length is within [min] and [max], trimmed. *)
Definition text_from (min max : Z) (data : gmap string json) (name : string)
    (v : string) : Prop :=
  exists s, data !! name = Some (JStr s) /\ min <= len s <= max /\ v = strip s.

Lemma str_field_inr name min max data v :
  str_field name min max data = inr v ->
  text_from min max data name v /\ text_ok max v.
Proof.
  unfold str_field, validate_text_fields.
  destruct (data !! name) as [[| | |s| |]|] eqn:E; try discriminate.
  destruct (len s <? min) eqn:Hmin; [discriminate|].
  destruct (max <? len s) eqn:Hmax; [discriminate|].
  destruct (nonempty (strip s)) eqn:Hne; simpl; [|discriminate].
  intros [= <-]. apply Z.ltb_ge in Hmin, Hmax.
  split.
  - exists s. auto.
  - repeat split; [apply strip_idem | exact Hne |].
    pose proof (len_strip s). lia.
Qed.

Lemma str_items_nil name l : forall i items,
  str_items name i l = ([], items) -> length items = length l.
Proof.
  induction l as [|v l IH]; intros i items; simpl.
  - now intros [= <-].
  - destruct (str_items name (S i) l) as [errs its] eqn:E.
    destruct v; try discriminate.
    intros [= -> <-]. simpl. f_equal. eauto.
Qed.

Lemma validator_inr (msg : string) (v items : list string) :
  (if negb (forallb (fun x => nonempty (strip x)) items)
   then inl msg else inr (map strip items)) = inr v ->
  length v = length items /\ Forall (fun x => strip x = x /\ nonempty x = true) v.
Proof.
  destruct (forallb _ items) eqn:Hall; simpl; [|discriminate].
  intros [= <-]. split; [now rewrite length_map|].
  apply List.Forall_forall. intros x Hx. apply in_map_iff in Hx as (y & <- & Hy).
  rewrite forallb_forall in Hall. split; [apply strip_idem | now apply Hall].
Qed.

Lemma list_field_inr name min max validator msg data v :
  (forall items, validator items =
     if negb (forallb (fun x => nonempty (strip x)) items)
     then inl msg else inr (map strip items)) ->
  list_field name min max validator data = inr v ->
  items_ok min max v.
Proof.
  intros Hval. unfold list_field.
  destruct (data !! name) as [[| | | |l|]|] eqn:E; try discriminate.
  destruct (max <? Z.of_nat (length l)) eqn:Hmax; [discriminate|].
  destruct (str_items name 0 l) as [[|e errs] items] eqn:Hitems; [|discriminate].
  destruct (Z.of_nat (length items) <? min) eqn:Hmin; [discriminate|].
  rewrite Hval.
  destruct (if negb _ then _ else _) as [m|v'] eqn:Hv; [discriminate|].
  intros [= <-]. apply validator_inr in Hv as [Hlen Hall].
  apply str_items_nil in Hitems. apply Z.ltb_ge in Hmax, Hmin.
  split; [lia | exact Hall].
Qed.

(** What the model constructor guarantees of a record it returns. *)
Lemma DIYRepairQA_new_inr data qa :
  DIYRepairQA_new data = inr qa ->
  exists d, data = JObj d
  /\ (text_from 10 500 d "question" (question qa) /\ text_ok 500 (question qa))
  /\ (text_from 20 2000 d "answer" (answer qa) /\ text_ok 2000 (answer qa))
  /\ (text_from 5 200 d "equipment_problem" (equipment_problem qa)
      /\ text_ok 200 (equipment_problem qa))
  /\ items_ok 1 15 (tools_required qa)
  /\ items_ok 2 20 (steps qa)
  /\ (text_from 10 500 d "safety_info" (safety_info qa) /\ text_ok 500 (safety_info qa))
  /\ (text_from 10 500 d "tips" (tips qa) /\ text_ok 500 (tips qa)).
Proof.
  unfold DIYRepairQA_new. destruct data as [| | | | |d]; try discriminate.
  destruct (f_question d) as [|q] eqn:Hq; [discriminate|].
  destruct (f_answer d) as [|a] eqn:Ha; [discriminate|].
  destruct (f_equipment_problem d) as [|e] eqn:He; [discriminate|].
  destruct (f_tools_required d) as [|t] eqn:Ht; [discriminate|].
  destruct (f_steps d) as [|s] eqn:Hs; [discriminate|].
  destruct (f_safety_info d) as [|si] eqn:Hsi; [discriminate|].
  destruct (f_tips d) as [|ti] eqn:Hti; [discriminate|].
  intros [= <-]. exists d. simpl.
  split; [reflexivity|].
  repeat split;
    first [ eapply str_field_inr; eassumption
          | eapply (list_field_inr _ _ _ validate_tools); [reflexivity | eassumption]
          | eapply (list_field_inr _ _ _ validate_steps); [reflexivity | eassumption] ].
Qed.

Lemma validate_json_structure_true json_loads str_of_exception raw qa errs :
  validate_json_structure json_loads str_of_exception raw = inr (true, Some qa, errs) ->
  exists data, json_loads raw = Loaded data /\ DIYRepairQA_new data = inr qa.
Proof.
  unfold validate_json_structure.
  destruct (json_loads raw) as [data|e|e]; [|discriminate|discriminate].
  destruct (DIYRepairQA_new data) as [e|qa'] eqn:E; [discriminate|].
  intros [= <- _]. eauto.
Qed.

End ModelsFacts.

Module ModelsClaims.
Import Py PyFacts Models ValidationPhase ModelsFacts.

(** A field that fails reports at least one error. *)
Lemma str_field_inl name min max data errs :
  str_field name min max data = inl errs -> (1 <= length errs)%nat.
Proof.
  unfold str_field.
  destruct (data !! name) as [[| | |s| |]|]; try (intros [= <-]; simpl; lia).
  destruct (len s <? min); [intros [= <-]; simpl; lia|].
  destruct (max <? len s); [intros [= <-]; simpl; lia|].
  destruct (validate_text_fields s); [intros [= <-]; simpl; lia | discriminate].
Qed.

Lemma list_field_inl name min max validator data errs :
  list_field name min max validator data = inl errs -> (1 <= length errs)%nat.
Proof.
  unfold list_field.
  destruct (data !! name) as [[| | | |l|]|]; try (intros [= <-]; simpl; lia).
  destruct (max <? Z.of_nat (length l)); [intros [= <-]; simpl; lia|].
  destruct (str_items name 0 l) as [[|e es] items]; [|intros [= <-]; simpl; lia].
  destruct (Z.of_nat (length items) <? min); [intros [= <-]; simpl; lia|].
  destruct (validator items); [intros [= <-]; simpl; lia | discriminate].
Qed.

Lemma violated_fields_reported d :
  (violated_fields d <= length (field_errors d))%nat.
Proof.
  unfold violated_fields, field_errors. rewrite !length_app.
  pose proof (str_field_inl "question" 10 500 d) as Hq.
  pose proof (str_field_inl "answer" 20 2000 d) as Ha.
  pose proof (str_field_inl "equipment_problem" 5 200 d) as He.
  pose proof (list_field_inl "tools_required" 1 15 validate_tools d) as Ht.
  pose proof (list_field_inl "steps" 2 20 validate_steps d) as Hs.
  pose proof (str_field_inl "safety_info" 10 500 d) as Hsi.
  pose proof (str_field_inl "tips" 10 500 d) as Hti.
  unfold f_question, f_answer, f_equipment_problem, f_tools_required, f_steps,
    f_safety_info, f_tips.
  destruct (str_field "question" 10 500 d) as [e1|]; [specialize (Hq _ eq_refl)|];
  destruct (str_field "answer" 20 2000 d) as [e2|]; [specialize (Ha _ eq_refl)| |specialize (Ha _ eq_refl)|];
  destruct (str_field "equipment_problem" 5 200 d) as [e3|];
  destruct (list_field "tools_required" 1 15 validate_tools d) as [e4|];
  destruct (list_field "steps" 2 20 validate_steps d) as [e5|];
  destruct (str_field "safety_info" 10 500 d) as [e6|];
  destruct (str_field "tips" 10 500 d) as [e7|];
  simpl;
  try specialize (He _ eq_refl); try specialize (Ht _ eq_refl);
  try specialize (Hs _ eq_refl); try specialize (Hsi _ eq_refl);
  try specialize (Hti _ eq_refl); lia.
Qed.

Lemma DIYRepairQA_new_violated d :
  (1 <= violated_fields d)%nat ->
  DIYRepairQA_new (JObj d) = inl (ValidationError (field_errors d)).
Proof.
  unfold violated_fields, DIYRepairQA_new.
  destruct (f_question d); [reflexivity|].
  destruct (f_answer d); [reflexivity|].
  destruct (f_equipment_problem d); [reflexivity|].
  destruct (f_tools_required d); [reflexivity|].
  destruct (f_steps d); [reflexivity|].
  destruct (f_safety_info d); [reflexivity|].
  destruct (f_tips d); [reflexivity|].
  simpl. lia.
Qed.

(** C4, as the code has it.  For every raw text that parses as a JSON
    object and violates the constraints of one or more fields,
    [validate_json_structure] returns is_valid = false, no record, and a
    list of exactly one error string: "Validation error: " followed by
    the text of the model's validation error.  That one error covers every
    violated field (the model checks all fields), but the returned list
    does not grow with the number of violations. *)
Theorem validate_json_structure_single_error
    (json_loads : string -> Loads) (str_of_exception : Exception -> string)
    (raw : string) (d : gmap string json) :
  json_loads raw = Loaded (JObj d) ->
  (1 <= violated_fields d)%nat ->
  validate_json_structure json_loads str_of_exception raw
    = inr (false, None,
           ["Validation error: " +:+ str_of_exception (ValidationError (field_errors d))])
  /\ (violated_fields d <= length (field_errors d))%nat
  /\ length (error_messages (validate_json_structure json_loads str_of_exception raw))
     = 1%nat.
Proof.
  intros Hload Hbad.
  pose proof (DIYRepairQA_new_violated d Hbad) as Hnew.
  unfold validate_json_structure. rewrite Hload, Hnew. simpl.
  split; [reflexivity|]. split; [apply violated_fields_reported | reflexivity].
Qed.

(** The faucet record with a question that is too short and tips that are
    blank: two fields violate their constraints. *)
Definition two_violations : list (string * json) :=
  Stub.with_members [("question", JStr "Why?"); ("tips", JStr "             ")]
    Stub.leaky_faucet.

Lemma validate_json_structure_single_error_witness :
  validate_json_structure (Stub.loads_object two_violations) Stub.str_of_exception
      (Stub.object_text two_violations)
    = inr (false, None,
           ["Validation error: " +:+
            Stub.str_of_exception
              (ValidationError (field_errors (list_to_map two_violations)))])
  /\ (violated_fields (list_to_map two_violations)
      <= length (field_errors (list_to_map two_violations)))%nat
  /\ length (error_messages (validate_json_structure (Stub.loads_object two_violations)
                Stub.str_of_exception (Stub.object_text two_violations))) = 1%nat.
Proof.
  apply (validate_json_structure_single_error
           (Stub.loads_object two_violations) Stub.str_of_exception
           (Stub.object_text two_violations) (list_to_map two_violations)).
  - vm_compute. reflexivity.
  - vm_compute. lia.
Defined.

(** C4 as stated fails: a text that parses and violates the constraints
    of two fields gets an error list of length 1, not 2. *)
Lemma two_violations_one_error_string :
  Stub.loads_object two_violations (Stub.object_text two_violations)
    = Loaded (JObj (list_to_map two_violations))
  /\ violated_fields (list_to_map two_violations) = 2%nat
  /\ validate_json_structure (Stub.loads_object two_violations) Stub.str_of_exception
       (Stub.object_text two_violations)
     = inr (false, None,
            ["Validation error: question; tips: validation errors for DIYRepairQA"])
  /\ ~ (2 <= length (error_messages
                       (validate_json_structure (Stub.loads_object two_violations)
                          Stub.str_of_exception (Stub.object_text two_violations))))%nat.
Proof.
  split; [vm_compute; reflexivity|].
  split; [vm_compute; reflexivity|].
  split; [vm_compute; reflexivity|].
  assert (E : length (error_messages
                        (validate_json_structure (Stub.loads_object two_violations)
                           Stub.str_of_exception (Stub.object_text two_violations)))
              = 1%nat)
    by (vm_compute; reflexivity).
  rewrite E. lia.
Qed.

(** What does hold of every record the structural validator accepts:
    each text field is stored trimmed, not empty and no longer than its
    documented maximum; tools_required has 1 to 15 items and steps has 2
    to 20, each item trimmed and not empty.  The documented minimum
    length is checked on the text as given, before it is trimmed. *)
Lemma accepted_record_invariant
    (json_loads : string -> Loads) (str_of_exception : Exception -> string)
    (raw : string) (qa : DIYRepairQA) (errs : list string) :
  validate_json_structure json_loads str_of_exception raw = inr (true, Some qa, errs) ->
  (text_ok 500 (question qa) /\ text_ok 2000 (answer qa)
   /\ text_ok 200 (equipment_problem qa) /\ text_ok 500 (safety_info qa)
   /\ text_ok 500 (tips qa))
  /\ items_ok 1 15 (tools_required qa)
  /\ items_ok 2 20 (steps qa)
  /\ exists d, json_loads raw = Loaded (JObj d)
     /\ text_from 10 500 d "question" (question qa)
     /\ text_from 20 2000 d "answer" (answer qa)
     /\ text_from 5 200 d "equipment_problem" (equipment_problem qa)
     /\ text_from 10 500 d "safety_info" (safety_info qa)
     /\ text_from 10 500 d "tips" (tips qa).
Proof.
  intros H. apply validate_json_structure_true in H as (data & Hload & Hnew).
  apply DIYRepairQA_new_inr in Hnew
    as (d & -> & [Fq Oq] & [Fa Oa] & [Fe Oe] & Ot & Os & [Fsi Osi] & [Fti Oti]).
  split; [tauto|]. split; [exact Ot|]. split; [exact Os|].
  exists d. tauto.
Qed.

Lemma accepted_record_invariant_witness :
  (text_ok 500 (question Stub.leaky_faucet_qa) /\ text_ok 2000 (answer Stub.leaky_faucet_qa)
   /\ text_ok 200 (equipment_problem Stub.leaky_faucet_qa)
   /\ text_ok 500 (safety_info Stub.leaky_faucet_qa)
   /\ text_ok 500 (tips Stub.leaky_faucet_qa))
  /\ items_ok 1 15 (tools_required Stub.leaky_faucet_qa)
  /\ items_ok 2 20 (steps Stub.leaky_faucet_qa)
  /\ exists d, Stub.loads_object Stub.leaky_faucet (Stub.object_text Stub.leaky_faucet)
               = Loaded (JObj d)
     /\ text_from 10 500 d "question" (question Stub.leaky_faucet_qa)
     /\ text_from 20 2000 d "answer" (answer Stub.leaky_faucet_qa)
     /\ text_from 5 200 d "equipment_problem" (equipment_problem Stub.leaky_faucet_qa)
     /\ text_from 10 500 d "safety_info" (safety_info Stub.leaky_faucet_qa)
     /\ text_from 10 500 d "tips" (tips Stub.leaky_faucet_qa).
Proof.
  apply (accepted_record_invariant (Stub.loads_object Stub.leaky_faucet)
           Stub.str_of_exception (Stub.object_text Stub.leaky_faucet)
           Stub.leaky_faucet_qa []).
  vm_compute. reflexivity.
Defined.

(** The faucet record with its question padded by blanks to ten
    characters. *)
Definition padded_question : list (string * json) :=
  Stub.with_members [("question", JStr "a         ")] Stub.leaky_faucet.

(** The same record with the bare question of one letter. *)
Definition bare_question : list (string * json) :=
  Stub.with_members [("question", JStr "a")] Stub.leaky_faucet.

(** C5, the code at a padded question.  The question of one letter is
    rejected for its length, but the same letter followed by nine blanks
    is accepted, since the length bound is checked before the validator
    trims; the record is stored with the question of one letter, shorter
    than the minimum of 10 that the field declares, and the model rejects
    its own stored record when it is built again from its dump. *)
Theorem padded_question_stored_short :
  (exists e,
     validate_json_structure (Stub.loads_object bare_question) Stub.str_of_exception
       (Stub.object_text bare_question) = inr (false, None, [e]))
  /\ exists qa,
       validate_json_structure (Stub.loads_object padded_question) Stub.str_of_exception
         (Stub.object_text padded_question) = inr (true, Some qa, [])
       /\ question qa = "a"
       /\ strip (question qa) = question qa
       /\ ~ (10 <= len (strip (question qa)))
       /\ exists errors,
            DIYRepairQA_new (JObj (model_dump qa)) = inl (ValidationError errors).
Proof.
  split; [eexists; vm_compute; reflexivity|].
  eexists. split; [vm_compute; reflexivity|].
  split; [reflexivity|]. split; [reflexivity|].
  split; [vm_compute; intros H; apply H; reflexivity|].
  eexists. vm_compute. reflexivity.
Qed.

(** The result that [validate_batch] leaves for one that failed. *)
Definition downgraded (result : GenerationResult) : GenerationResult :=
  {| trace_id := trace_id result; qa_pair := qa_pair result;
     raw_response := raw_response result; is_valid := false;
     validation_errors :=
       validation_errors result ++ snd (validate_structure result);
     generation_timestamp := generation_timestamp result |}.

Lemma validate_loop_spec results : forall valid_results all_errors seen,
  exists all_errors',
    validate_loop results valid_results all_errors seen
    = (valid_results ++ List.filter (fun r => fst (validate_structure r)) results,
       all_errors',
       seen ++ map (fun r => if fst (validate_structure r) then r else downgraded r) results).
Proof.
  induction results as [|r rs IH]; intros valid_results all_errors seen; simpl.
  - exists all_errors. now rewrite !app_nil_r.
  - unfold downgraded at 1.
    destruct (validate_structure r) as [ok errs] eqn:E. simpl.
    destruct ok.
    + destruct (IH (valid_results ++ [r]) all_errors (seen ++ [r])) as [e' ->].
      exists e'. now rewrite <- !app_assoc.
    + match goal with |- context [validate_loop rs valid_results ?e ?s] =>
        destruct (IH valid_results e s) as [e' ->] end.
      exists e'. now rewrite <- !app_assoc.
Qed.

Lemma lookup_map_keep {A : Type} (f : A -> A) (l : list A) : forall (i : nat) (x : A),
  l !! i = Some x -> f x = x -> map f l !! i = Some x.
Proof.
  induction l as [|y l IH]; intros [|i] x; simpl; try discriminate.
  - intros [= ->] ->. reflexivity.
  - apply IH.
Qed.

(** What the re-checks see on a record the model built. *)
Lemma validate_structure_model_built data qa result :
  DIYRepairQA_new data = inr qa ->
  is_valid result = true -> qa_pair result = Some qa ->
  validate_structure result = (true, []).
Proof.
  intros Hnew Hv Hq.
  apply DIYRepairQA_new_inr in Hnew
    as (d & -> & [_ (Tq & Nq & _)] & [_ (Ta & Na & _)] & [_ (Te & Ne & _)]
        & [Lt At] & [Ls As] & [_ (Tsi & Nsi & _)] & [_ (Tti & Nti & _)]).
  unfold validate_structure. rewrite Hv, Hq. simpl.
  rewrite Tq, Nq, Ta, Na, Te, Ne, Tsi, Nsi, Tti, Nti. simpl.
  assert (Hex : forall l, Forall (fun x => strip x = x /\ nonempty x = true) l ->
                existsb (fun x => negb (nonempty (strip x))) l = false).
  { induction 1 as [|x l [Hx1 Hx2] _ IH]; simpl; [reflexivity|].
    now rewrite Hx1, Hx2. }
  rewrite (Hex _ At), (Hex _ As).
  destruct (tools_required qa); [simpl in Lt; lia|].
  destruct (steps qa); [simpl in Ls; lia|].
  reflexivity.
Qed.

(** C10.  A result with is_valid = true whose record the model built
    (through [validate_json_structure]) passes [validate_structure] with
    no error, and [validate_batch] keeps it among the valid results and
    leaves it as it was, wherever it stands in the batch. *)
Theorem validate_structure_redundant
    (json_loads : string -> Loads) (str_of_exception : Exception -> string)
    (raw : string) (qa : DIYRepairQA) (errs : list string)
    (result : GenerationResult) :
  validate_json_structure json_loads str_of_exception raw = inr (true, Some qa, errs) ->
  is_valid result = true ->
  qa_pair result = Some qa ->
  validate_structure result = (true, [])
  /\ forall (results : list GenerationResult) (i : nat),
       results !! i = Some result ->
       In result (fst (fst (validate_batch results)))
       /\ snd (validate_batch results) !! i = Some result.
Proof.
  intros Hjson Hv Hq.
  apply validate_json_structure_true in Hjson as (data & _ & Hnew).
  pose proof (validate_structure_model_built data qa result Hnew Hv Hq) as Hok.
  split; [exact Hok|].
  intros results i Hi. unfold validate_batch.
  destruct (validate_loop_spec results [] [] []) as [e' ->]. simpl.
  split.
  - apply filter_In. split; [|now rewrite Hok].
    apply list_elem_of_In. eapply list_elem_of_lookup_2. exact Hi.
  - apply lookup_map_keep; [exact Hi | now rewrite Hok].
Qed.

Definition faucet_result : GenerationResult :=
  {| trace_id := "valid-1"; qa_pair := Some Stub.leaky_faucet_qa;
     raw_response := Stub.object_text Stub.leaky_faucet; is_valid := true;
     validation_errors := []; generation_timestamp := "2026-01-01T00:00:00" |}.

Lemma validate_structure_redundant_witness :
  validate_structure faucet_result = (true, [])
  /\ forall (results : list GenerationResult) (i : nat),
       results !! i = Some faucet_result ->
       In faucet_result (fst (fst (validate_batch results)))
       /\ snd (validate_batch results) !! i = Some faucet_result.
Proof.
  apply (validate_structure_redundant (Stub.loads_object Stub.leaky_faucet)
           Stub.str_of_exception (Stub.object_text Stub.leaky_faucet)
           Stub.leaky_faucet_qa [] faucet_result).
  - vm_compute. reflexivity.
  - reflexivity.
  - reflexivity.
Defined.

(** The repository's test of the validation phase: of a valid and an
    invalid result, the valid one is kept. *)
Example test_run_validation_phase_filters_invalid_samples :
  let invalid_result :=
    {| trace_id := "invalid-1"; qa_pair := None; raw_response := "{}"; is_valid := false;
       validation_errors := ["some error"]; generation_timestamp := "2026-01-01T00:00:00" |} in
  let '(valid_results, summary, _) := validate_batch [faucet_result; invalid_result] in
  map trace_id valid_results = ["valid-1"]
  /\ total_generated summary = 2 /\ valid_samples summary = 1
  /\ invalid_samples summary = 1
  /\ validation_rate summary = 50%float.
Proof. vm_compute. repeat split. Qed.

End ModelsClaims.

(** ** The failure-mode judge *)

Module JudgeClaims.
Import Py Models Gateway FailureLabeling.

Section Judge.

Variable W : Type.
Variable create : Request -> M W string.
Variable format : string -> DIYRepairQA -> string + string.
Variable int : string -> option Z.
Variable self_model : string.

#[local] Abbreviation evaluate_single :=
  (evaluate_single_failure_mode W create format int self_model).
#[local] Abbreviation evaluate_all :=
  (evaluate_modes W create format int self_model).

(** The request that the judge sends for a prompt. *)
Definition judge_request (prompt : string) : Request := {|
  model := self_model;
  system_content := "You are an expert DIY repair evaluator. Respond with only 0 or 1.";
  user_content := prompt;
  temperature := 0.1;
  max_tokens := 10 |}.

(** The score read off a trimmed reply. *)
Definition score_of (raw_response : string) : Z :=
  match int raw_response with
  | Some v => if negb ((v =? 0) || (v =? 1)) then 1 else v
  | None => 1
  end.

Lemma score_of_binary raw : score_of raw = 0 \/ score_of raw = 1.
Proof.
  unfold score_of. destruct (int raw) as [v|]; [|now right].
  destruct (v =? 0) eqn:E0; simpl.
  - left. now apply Z.eqb_eq.
  - destruct (v =? 1) eqn:E1; simpl; right; [now apply Z.eqb_eq | reflexivity].
Qed.

(** The three ways a call can go. *)
Lemma evaluate_single_cases qa mode w :
  (exists e, format (evaluation_prompt mode) qa = inl e
     /\ evaluate_single qa mode w = (inr (1, "Error: " +:+ e), w))
  \/ (exists prompt e w', format (evaluation_prompt mode) qa = inr prompt
     /\ create (judge_request prompt) w = (inl e, w')
     /\ evaluate_single qa mode w = (inr (1, "Error: " +:+ e), w'))
  \/ (exists prompt content w', format (evaluation_prompt mode) qa = inr prompt
     /\ create (judge_request prompt) w = (inr content, w')
     /\ evaluate_single qa mode w = (inr (score_of (strip content), strip content), w')).
Proof.
  unfold evaluate_single_failure_mode, try_except, mbind, M_bind, bind, lift, mret,
    M_ret, ret, score_of, judge_request.
  destruct (format (evaluation_prompt mode) qa) as [e|prompt] eqn:Ef.
  - left. eauto.
  - right. destruct (create _ w) as [[e|content] w'] eqn:Ec.
    + left. exists prompt, e, w'. auto.
    + right. exists prompt, content, w'. auto.
Qed.

Lemma evaluate_single_total qa mode w :
  exists score raw w',
    evaluate_single qa mode w = (inr (score, raw), w') /\ (score = 0 \/ score = 1).
Proof.
  destruct (evaluate_single_cases qa mode w)
    as [(e & _ & ->) | [(p & e & w' & _ & _ & ->) | (p & c & w' & _ & _ & ->)]];
    do 3 eexists; (split; [reflexivity|]); auto using score_of_binary.
Qed.

(** C2.  Whatever the gateway does, [evaluate_single_failure_mode]
    returns (it raises nothing) a score that is 0 or 1.  When the gateway
    replies, the raw response is the trimmed reply; the score is 1 when
    that text does not parse as an integer or parses to a value other
    than 0 and 1, and is the parsed value when that is 0 or 1.  When the
    call raises (in the gateway, or while the prompt is built), the score
    is 1 and the raw response is "Error: " followed by the error text. *)
Theorem evaluate_single_failure_mode_binary
    (qa_pair : DIYRepairQA) (failure_mode : FailureMode) (w : W) :
  exists (score : Z) (raw_response : string) (w' : W),
    evaluate_single qa_pair failure_mode w = (inr (score, raw_response), w')
    /\ (score = 0 \/ score = 1)
    /\ (forall prompt content w1,
          format (evaluation_prompt failure_mode) qa_pair = inr prompt ->
          create (judge_request prompt) w = (inr content, w1) ->
          raw_response = strip content /\ w' = w1
          /\ (int raw_response = None -> score = 1)
          /\ (forall v, int raw_response = Some v -> v <> 0 -> v <> 1 -> score = 1)
          /\ (forall v, int raw_response = Some v -> v = 0 \/ v = 1 -> score = v))
    /\ (forall prompt e w1,
          format (evaluation_prompt failure_mode) qa_pair = inr prompt ->
          create (judge_request prompt) w = (inl e, w1) ->
          score = 1 /\ raw_response = "Error: " +:+ e /\ w' = w1)
    /\ (forall e,
          format (evaluation_prompt failure_mode) qa_pair = inl e ->
          score = 1 /\ raw_response = "Error: " +:+ e /\ w' = w).
Proof.
  destruct (evaluate_single_cases qa_pair failure_mode w)
    as [(e & Hf & ->) | [(p & e & w' & Hf & Hc & ->) | (p & c & w' & Hf & Hc & ->)]].
  - exists 1, ("Error: " +:+ e), w. split; [reflexivity|]. split; [now right|].
    repeat split; intros; congruence.
  - exists 1, ("Error: " +:+ e), w'. split; [reflexivity|]. split; [now right|].
    split; [intros; congruence|]. split; [|intros; congruence].
    intros p' e' w1 Hf' Hc'. rewrite Hf in Hf'. injection Hf' as <-.
    rewrite Hc in Hc'. injection Hc' as <- <-. auto.
  - exists (score_of (strip c)), (strip c), w'.
    split; [reflexivity|]. split; [apply score_of_binary|].
    split; [|split; intros; congruence].
    intros p' c' w1 Hf' Hc'. rewrite Hf in Hf'. injection Hf' as <-.
    rewrite Hc in Hc'. injection Hc' as <- <-.
    split; [reflexivity|]. split; [reflexivity|]. unfold score_of.
    split; [intros ->; reflexivity|]. split.
    + intros v -> H0 H1.
      apply Z.eqb_neq in H0, H1. now rewrite H0, H1.
    + intros v -> [-> | ->]; reflexivity.
Qed.

(** What one pass over a mode writes into the results. *)
Definition record_score (results : gmap string json)
    (entry : FailureMode * (Z * string)) : gmap string json :=
  let '(failure_mode, (failure_score, raw_response)) := entry in
  <[name failure_mode +:+ "_response" := JStr raw_response]>
    (<[name failure_mode := JInt failure_score]> results).

Definition total (outs : list (Z * string)) : Z := fold_right Z.add 0 (map fst outs).

Lemma evaluate_modes_spec qa modes : forall results failure_count w,
  exists (outs : list (Z * string)) (w' : W),
    evaluate_all qa modes results failure_count w
    = (inr (fold_left record_score (combine modes outs) results,
            failure_count + total outs), w')
    /\ length outs = length modes
    /\ Forall (fun o => fst o = 0 \/ fst o = 1) outs.
Proof.
  induction modes as [|m modes IH]; intros results failure_count w.
  - exists [], w. simpl. unfold mret, M_ret, ret, total. simpl.
    rewrite Z.add_0_r. auto.
  - destruct (evaluate_single_total qa m w) as (s & raw & w1 & Hs & Hbin).
    destruct (IH (record_score results (m, (s, raw))) (failure_count + s) w1)
      as (outs & w' & Hrest & Hlen & Hall).
    exists ((s, raw) :: outs), w'. simpl.
    unfold mbind, M_bind, bind. rewrite Hs. simpl in Hrest. rewrite Hrest.
    split; [|split; [simpl; congruence | constructor; auto]].
    unfold total. simpl. do 2 f_equal. f_equal. lia.
Qed.

(** C3.  [evaluate_qa_pair] always returns a record.  In it each of the
    six modes has a score that is 0 or 1, failure_count is the sum of the
    six scores, and overall_failure is 1 exactly when failure_count is
    positive and 0 exactly when all six scores are 0. *)
Theorem evaluate_qa_pair_counts (qa_pair : DIYRepairQA) (trace_id : string) (w : W) :
  exists (r : gmap string json) (w' : W) (s1 s2 s3 s4 s5 s6 overall : Z),
    evaluate_qa_pair W create format int self_model qa_pair trace_id w = (inr r, w')
    /\ r !! "incomplete_answer" = Some (JInt s1)
    /\ r !! "safety_violations" = Some (JInt s2)
    /\ r !! "unrealistic_tools" = Some (JInt s3)
    /\ r !! "overcomplicated_solution" = Some (JInt s4)
    /\ r !! "missing_context" = Some (JInt s5)
    /\ r !! "poor_quality_tips" = Some (JInt s6)
    /\ Forall (fun s => s = 0 \/ s = 1) [s1; s2; s3; s4; s5; s6]
    /\ r !! "failure_count" = Some (JInt (s1 + s2 + s3 + s4 + s5 + s6))
    /\ r !! "overall_failure" = Some (JInt overall)
    /\ (overall = 1 <-> 0 < s1 + s2 + s3 + s4 + s5 + s6)
    /\ (overall = 0 <-> s1 = 0 /\ s2 = 0 /\ s3 = 0 /\ s4 = 0 /\ s5 = 0 /\ s6 = 0)
    /\ r !! "trace_id" = Some (JStr trace_id).
Proof.
  unfold evaluate_qa_pair, self_failure_modes, get_failure_modes.
  match goal with |- context [evaluate_modes _ _ _ _ _ _ ?ms ?res ?c] =>
    destruct (evaluate_modes_spec qa_pair ms res c w) as (outs & w' & Hrun & Hlen & Hall)
  end.
  destruct outs as [|[s1 r1] [|[s2 r2] [|[s3 r3] [|[s4 r4] [|[s5 r5] [|[s6 r6] [|? ?]]]]]]];
    try discriminate Hlen.
  unfold mbind, M_bind, bind. rewrite Hrun. clear Hrun.
  unfold total. simpl fold_right. simpl combine. simpl fold_left.
  unfold mret, M_ret, ret.
  eexists _, w'.
  exists s1, s2, s3, s4, s5, s6.
  exists (if 0 <? 0 + (s1 + (s2 + (s3 + (s4 + (s5 + (s6 + 0)))))) then 1 else 0).
  split; [reflexivity|].
  replace (0 + (s1 + (s2 + (s3 + (s4 + (s5 + (s6 + 0)))))))
    with (s1 + s2 + s3 + s4 + s5 + s6) by lia.
  inversion Hall as [|? ? H1 Hall1]; subst. inversion Hall1 as [|? ? H2 Hall2]; subst.
  inversion Hall2 as [|? ? H3 Hall3]; subst. inversion Hall3 as [|? ? H4 Hall4]; subst.
  inversion Hall4 as [|? ? H5 Hall5]; subst. inversion Hall5 as [|? ? H6 _]; subst.
  simpl in H1, H2, H3, H4, H5, H6.
  assert (Hsum : (0 < s1 + s2 + s3 + s4 + s5 + s6
                  /\ ~ (s1 = 0 /\ s2 = 0 /\ s3 = 0 /\ s4 = 0 /\ s5 = 0 /\ s6 = 0))
                 \/ (~ 0 < s1 + s2 + s3 + s4 + s5 + s6
                     /\ s1 = 0 /\ s2 = 0 /\ s3 = 0 /\ s4 = 0 /\ s5 = 0 /\ s6 = 0)) by lia.
  generalize dependent (s1 + s2 + s3 + s4 + s5 + s6). intros n Hsum.
  do 6 (split; [vm_compute; reflexivity|]).
  split; [repeat (constructor; [assumption|]); constructor|].
  split; [vm_compute; reflexivity|].
  split; [generalize (if 0 <? n then 1 else 0); intros; vm_compute; reflexivity|].
  split; [|split; [|vm_compute; reflexivity]].
  - destruct (0 <? n) eqn:E; [apply Z.ltb_lt in E | apply Z.ltb_ge in E]; lia.
  - destruct (0 <? n) eqn:E; [apply Z.ltb_lt in E | apply Z.ltb_ge in E];
      split; intros; try discriminate; try lia; tauto.
Qed.

End Judge.

(** A reply that is neither 0 nor 1, a failing gateway and plain replies:
    six calls, six scores. *)
Example evaluate_qa_pair_scripted :
  let script : Stub.World :=
    [inr " 0 "; inl "Rate limit reached"; inr "2"; inr "yes"; inr "0"; inr "1"] in
  match fst (evaluate_qa_pair Stub.World Stub.create (fun t _ => inr t) int_of_str
               "gpt-3.5-turbo" Stub.leaky_faucet_qa "t1" script) with
  | inr r =>
      map (fun k => r !! k)
        ["incomplete_answer"; "safety_violations"; "unrealistic_tools";
         "overcomplicated_solution"; "missing_context"; "poor_quality_tips";
         "failure_count"; "overall_failure"; "safety_violations_response"]
      = [Some (JInt 0); Some (JInt 1); Some (JInt 1); Some (JInt 1); Some (JInt 0);
         Some (JInt 1); Some (JInt 4); Some (JInt 1);
         Some (JStr "Error: Rate limit reached")]
  | inl _ => False
  end.
Proof. vm_compute. reflexivity. Qed.

End JudgeClaims.

(** ** The corrector *)

Module CorrectorClaims.
Import Py Models Gateway CorrectionPhase GenerationPhase.

Section Corrector.

Variable W : Type.
Variable create : Request -> M W string.
Variable json_loads : string -> Loads.
Variable str_of_exception : Exception -> string.
Variable now_isoformat : M W string.
Variable self_model : string.
Variable _create_correction_prompt : gmap string json -> string.

#[local] Abbreviation correct_one :=
  (correct_single_qa W create json_loads str_of_exception now_isoformat self_model
     _create_correction_prompt).
#[local] Abbreviation correct_rest :=
  (correct_loop W create json_loads str_of_exception now_isoformat self_model
     _create_correction_prompt).

(** The request that the corrector sends for a failed record. *)
Definition correction_request (failed_qa_pair : gmap string json) : Request := {|
  model := self_model;
  system_content :=
    "You correct failed DIY repair Q&A so they pass quality checks. "
    +:+ "Your output will be re-evaluated on the same 6 criteria; fix each reported failure so it would score success (0). "
    +:+ "Return only valid JSON with the required fields.";
  user_content := _create_correction_prompt failed_qa_pair;
  temperature := 0.5;
  max_tokens := 1500 |}.

(** [correct_single_qa] has no handler: what the gateway raises, it raises. *)
Lemma correct_single_qa_raises failed_qa_pair w e w' :
  create (correction_request failed_qa_pair) w = (inl e, w') ->
  correct_one failed_qa_pair w = (inl e, w').
Proof.
  intros H. unfold correct_single_qa, mbind, M_bind, bind.
  unfold correction_request in H. rewrite H. reflexivity.
Qed.

(** Nor has the loop of [correct_batch]: once a record's call raises,
    the batch raises, and the results gathered so far are lost. *)
Lemma correct_loop_raises before : forall failed_qa_pair after results w e,
  (forall p w0, In p before -> exists r w1, correct_one p w0 = (inr r, w1)) ->
  (forall w0, exists w1, create (correction_request failed_qa_pair) w0 = (inl e, w1)) ->
  exists w1, correct_rest (before ++ failed_qa_pair :: after) results w = (inl e, w1).
Proof.
  induction before as [|p before IH]; intros failed after results w e Hok Hfail; simpl.
  - destruct (Hfail w) as [w1 H1]. exists w1.
    unfold mbind, M_bind, bind. now rewrite (correct_single_qa_raises _ _ _ _ H1).
  - destruct (Hok p w (or_introl eq_refl)) as (r & w1 & H1).
    unfold mbind, M_bind, bind. rewrite H1.
    apply (IH failed after (results ++ [r]) w1 e); [|exact Hfail].
    intros q w0 Hq. apply Hok. now right.
Qed.

End Corrector.

(** Two failed records for the corrector. *)
Definition failed_t1 : gmap string json :=
  <["safety_violations" := JInt 1]> (<["overall_failure" := JInt 1]>
    (<["trace_id" := JStr "t1"]> (list_to_map Stub.leaky_faucet))).
Definition failed_t2 : gmap string json :=
  <["poor_quality_tips" := JInt 1]> (<["overall_failure" := JInt 1]>
    (<["trace_id" := JStr "t2"]> (list_to_map Stub.leaky_faucet))).

(** A script where the gateway fails on the first call and would answer
    the second. *)
Definition first_call_fails : Stub.World :=
  [inl "Connection error."; inr (Stub.object_text Stub.leaky_faucet)].

(** C6, the code at a failing gateway.  The batch of two failed records
    returns no result list at all: the exception of the first call leaves
    [correct_batch], and the second record is never sent. *)
Theorem correct_batch_aborts_on_gateway_error :
  correct_batch Stub.World Stub.create (Stub.loads_object Stub.leaky_faucet)
    Stub.str_of_exception Stub.now_isoformat "gpt-3.5-turbo" (fun _ => "prompt")
    [failed_t1; failed_t2] first_call_fails
  = (inl "Connection error.", [inr (Stub.object_text Stub.leaky_faucet)]).
Proof. vm_compute. reflexivity. Qed.

(** With a gateway that answers, the same batch gives one result per
    record. *)
Example correct_batch_when_gateway_answers :
  match fst (correct_batch Stub.World Stub.create (Stub.loads_object Stub.leaky_faucet)
               Stub.str_of_exception Stub.now_isoformat "gpt-3.5-turbo" (fun _ => "prompt")
               [failed_t1; failed_t2]
               [inr (Stub.object_text Stub.leaky_faucet); inr "not json"]) with
  | inr results =>
      map (fun r => (r !! "trace_id", r !! "is_valid")) results
      = [(Some (JStr "t1"), Some (JBool true)); (Some (JStr "t2"), Some (JBool false))]
  | inl _ => False
  end.
Proof. vm_compute. reflexivity. Qed.

(** The generator, on the same failure, does what the corrector does
    not: it catches the exception and returns a result marked invalid. *)
Example generate_single_qa_contains_gateway_error :
  fst (generate_single_qa Stub.World Stub.create (Stub.loads_object Stub.leaky_faucet)
         Stub.str_of_exception Stub.now_isoformat Stub.uuid4 "gpt-3.5-turbo"
         {| t_name := "plumbing_repair"; t_system := "system"; t_user := "user" |}
         first_call_fails)
  = inr {| trace_id := "8c5f0b1e-0000-4000-8000-000000000001"; qa_pair := None;
           raw_response := ""; is_valid := false;
           validation_errors := ["Generation error: Connection error."];
           generation_timestamp := "2026-01-01T00:00:00" |}.
Proof. vm_compute. reflexivity. Qed.

End CorrectorClaims.

(** ** The merge-back step *)

Module MergeClaims.
Import Py MergeCorrectedQA.

(** The judge row [r] marks the key [k] as failed: its overall_failure
    equals 1 and its trace_id hashes to [k]. *)
Definition marks_failed (r : json) (k : key) : Prop :=
  exists d tid, r = JObj d /\ eq_one (get d "overall_failure") = true
    /\ d !! "trace_id" = Some tid /\ hash_key tid = inr k.

(** The correction [r] can be used for the key [k], and gives the record
    [c]: its trace_id is truthy (not empty) and hashes to [k], its
    is_valid is truthy, its qa_pair is an object that is not empty, and
    [c] is that object with the trace_id set. *)
Definition usable (r : json) (k : key) (c : gmap string json) : Prop :=
  exists d qa, r = JObj d
    /\ truthy (get d "trace_id") = true /\ hash_key (get d "trace_id") = inr k
    /\ truthy (get d "is_valid") = true
    /\ d !! "qa_pair" = Some (JObj qa) /\ qa <> ∅
    /\ c = <["trace_id" := get d "trace_id"]> qa.

Definition marked_failed (failure_labeled : list json) (k : key) : Prop :=
  exists r, In r failure_labeled /\ marks_failed r k.

Definition has_correction (corrected_list : list json) (k : key) : Prop :=
  exists r c, In r corrected_list /\ usable r k c.

(** [c] comes from the last correction of the list that can be used for [k]. *)
Definition last_usable (corrected_list : list json) (k : key) (c : gmap string json) : Prop :=
  exists j r, corrected_list !! j = Some r /\ usable r k c
    /\ forall j' r' c', (j < j')%nat -> corrected_list !! j' = Some r' -> ~ usable r' k c'.

(** The inputs on which the merge raises nothing: every element is an
    object; a failed judge row has a hashable trace_id; a correction that
    passes the three truth tests has an object as qa_pair and a hashable
    trace_id; a valid record has a hashable trace_id (or none). *)
Definition judge_row_ok (r : json) : Prop :=
  exists d, r = JObj d
    /\ (eq_one (get d "overall_failure") = true ->
        exists tid k, d !! "trace_id" = Some tid /\ hash_key tid = inr k).

Definition correction_ok (r : json) : Prop :=
  exists d, r = JObj d
    /\ (truthy (get d "trace_id") && truthy (get d "is_valid") && truthy (get d "qa_pair") = true ->
        (exists qa, d !! "qa_pair" = Some (JObj qa))
        /\ exists k, hash_key (get d "trace_id") = inr k).

Definition valid_record_ok (rec : json) : Prop :=
  exists d k, rec = JObj d /\ hash_key (get d "trace_id") = inr k.

(** The correction that [r] gives, as the loop computes it. *)
Definition correction_of (r : json) : option (key * gmap string json) :=
  match r with
  | JObj d =>
      let tid := get d "trace_id" in
      if truthy tid && truthy (get d "is_valid") && truthy (get d "qa_pair")
      then match d !! "qa_pair", hash_key tid with
           | Some (JObj qa), inr k => Some (k, <["trace_id" := tid]> qa)
           | _, _ => None
           end
      else None
  | _ => None
  end.

Fixpoint last_correction (corrected_list : list json) (k : key)
    : option (gmap string json) :=
  match corrected_list with
  | [] => None
  | r :: rest =>
      match last_correction rest k with
      | Some c => Some c
      | None =>
          match correction_of r with
          | Some (k', c) => if decide (k' = k) then Some c else None
          | None => None
          end
      end
  end.

(** Two strings with the same key are the same string. *)
Lemma hash_key_str (v : json) (s : string) :
  hash_key v = inr (Some (inr s)) -> v = JStr s.
Proof.
  destruct v as [|b|n|t|l|m]; simpl; try discriminate.
  now intros [= ->].
Qed.

Lemma correction_of_usable r k c : correction_of r = Some (k, c) <-> usable r k c.
Proof.
  unfold correction_of, usable. split.
  - destruct r as [| | | | |d]; try discriminate.
    destruct (truthy (get d "trace_id")) eqn:T1; simpl; [|discriminate].
    destruct (truthy (get d "is_valid")) eqn:T2; simpl; [|discriminate].
    destruct (truthy (get d "qa_pair")) eqn:T3; simpl; [|discriminate].
    destruct (d !! "qa_pair") as [[| | | | |qa]|] eqn:Q; try discriminate.
    destruct (hash_key (get d "trace_id")) as [e|k'] eqn:H; [discriminate|].
    intros [= <- <-]. exists d, qa. repeat split; auto.
    unfold get in T3. rewrite Q in T3. simpl in T3.
    intros ->. rewrite bool_decide_eq_true_2 in T3; [discriminate | reflexivity].
  - intros (d & qa & -> & T1 & H & T2 & Q & Hne & ->).
    assert (T3 : truthy (get d "qa_pair") = true).
    { unfold get. rewrite Q. simpl. now rewrite bool_decide_eq_false_2. }
    rewrite T1, T2, T3, Q, H. reflexivity.
Qed.

Lemma last_correction_None C k :
  last_correction C k = None <-> forall r c, In r C -> ~ usable r k c.
Proof.
  induction C as [|r C IH]; simpl.
  - split; [intros _ r c []| reflexivity].
  - destruct (last_correction C k) as [c0|] eqn:E.
    + split; [discriminate|]. intros H. exfalso.
      assert (Hn : Some c0 = None); [|discriminate].
      apply IH. intros r' c' Hin. apply H. now right.
    + destruct IH as [IH _]. specialize (IH eq_refl).
      destruct (correction_of r) as [[k' c']|] eqn:Er.
      * destruct (decide (k' = k)) as [->|Hne].
        -- split; [discriminate|]. intros H. exfalso.
           apply (H r c'); [now left | now apply correction_of_usable].
        -- split; [|reflexivity]. intros _ r0 c0 [<-|Hin] Hu; [|eapply IH; eauto].
           apply correction_of_usable in Hu. congruence.
      * split; [|reflexivity]. intros _ r0 c0 [<-|Hin] Hu; [|eapply IH; eauto].
        apply correction_of_usable in Hu. congruence.
Qed.

Lemma last_correction_Some C k c :
  last_correction C k = Some c -> last_usable C k c.
Proof.
  induction C as [|r C IH]; simpl; [discriminate|].
  destruct (last_correction C k) as [c0|] eqn:E.
  - intros [= <-]. destruct (IH eq_refl) as (j & r0 & Hj & Hu & Hlast).
    exists (S j), r0. split; [exact Hj|]. split; [exact Hu|].
    intros [|j'] r' c' Hlt; [lia|]. simpl. apply Hlast. lia.
  - destruct (correction_of r) as [[k' c']|] eqn:Er; [|discriminate].
    destruct (decide (k' = k)) as [->|]; [|discriminate].
    intros [= <-]. exists 0%nat, r. split; [reflexivity|].
    split; [now apply correction_of_usable|].
    intros [|j'] r' c0 Hlt; [lia|]. simpl. intros Hj'.
    apply (proj1 (last_correction_None C k) E).
    apply list_elem_of_In. eapply list_elem_of_lookup_2. exact Hj'.
Qed.

Lemma failed_ids_spec J : forall S,
  failed_ids J = inr S -> forall k, k ∈ S <-> marked_failed J k.
Proof.
  induction J as [|r J IH]; simpl; intros S.
  - intros [= <-] k. split; [set_solver|]. intros (r & [] & _).
  - destruct r as [| | | | |d]; try discriminate.
    destruct (eq_one (get d "overall_failure")) eqn:E1.
    + destruct (d !! "trace_id") as [tid|] eqn:Et; [|discriminate].
      destruct (hash_key tid) as [e|k0] eqn:Eh; [discriminate|].
      destruct (failed_ids J) as [e|S0]; [discriminate|].
      intros [= <-] k. rewrite elem_of_union, elem_of_singleton, (IH S0 eq_refl k).
      split.
      * intros [->|(r & Hin & Hm)].
        -- exists (JObj d). split; [now left|]. exists d, tid. auto.
        -- exists r. split; [now right | exact Hm].
      * intros (r & [<-|Hin] & Hm).
        -- destruct Hm as (d' & tid' & [= <-] & _ & Ht' & Hh').
           left. congruence.
        -- right. exists r. auto.
    + intros HS k. rewrite (IH S HS k). split.
      * intros (r & Hin & Hm). exists r. split; [now right | exact Hm].
      * intros (r & [<-|Hin] & Hm); [|exists r; auto].
        destruct Hm as (d' & tid' & [= <-] & E1' & _). congruence.
Qed.

Lemma corrected_by_id_spec C : forall acc m,
  corrected_by_id C acc = inr m ->
  forall k, m !! k = match last_correction C k with
                     | Some c => Some c
                     | None => acc !! k
                     end.
Proof.
  induction C as [|r C IH]; simpl; intros acc m.
  - now intros [= <-] k.
  - destruct r as [| | | | |d]; try discriminate. simpl.
    destruct (truthy (get d "trace_id") && truthy (get d "is_valid")
              && truthy (get d "qa_pair")) eqn:T.
    + destruct (d !! "qa_pair") as [[| | | | |qa]|]; try discriminate.
      destruct (hash_key (get d "trace_id")) as [e|k0]; [discriminate|].
      intros Hm k. rewrite (IH _ _ Hm k).
      destruct (last_correction C k); [reflexivity|].
      destruct (decide (k0 = k)) as [->|Hne].
      * now rewrite lookup_insert_eq.
      * now rewrite lookup_insert_ne.
    + intros Hm k. rewrite (IH _ _ Hm k). now destruct (last_correction C k).
Qed.

Lemma merged_spec V S m : forall M,
  merged V S m = inr M ->
  length M = length V
  /\ forall i rec, V !! i = Some rec ->
       exists d k, rec = JObj d /\ hash_key (get d "trace_id") = inr k
         /\ M !! i = Some (if bool_decide (k ∈ S)
                           then match m !! k with Some c => JObj c | None => rec end
                           else rec).
Proof.
  induction V as [|rec V IH]; simpl; intros M.
  - intros [= <-]. split; [reflexivity|]. intros i rec. now rewrite lookup_nil.
  - destruct rec as [| | | | |d]; try discriminate.
    destruct (hash_key (get d "trace_id")) as [e|k] eqn:Eh; [discriminate|].
    destruct (merged V S m) as [e|M0]; [discriminate|].
    intros [= <-]. destruct (IH M0 eq_refl) as [Hlen Hrec].
    split; [simpl; congruence|].
    intros [|i] rec; simpl.
    + intros [= <-]. exists d, k. auto.
    + apply Hrec.
Qed.

Lemma failed_ids_total J : Forall judge_row_ok J -> exists S, failed_ids J = inr S.
Proof.
  induction 1 as [|r J (d & -> & Hr) _ [S IH]]; simpl; [eauto|].
  destruct (eq_one (get d "overall_failure")); [|eauto].
  destruct (Hr eq_refl) as (tid & k & -> & ->). rewrite IH. eauto.
Qed.

Lemma corrected_by_id_total C : Forall correction_ok C ->
  forall acc, exists m, corrected_by_id C acc = inr m.
Proof.
  induction 1 as [|r C (d & -> & Hr) _ IH]; simpl; intros acc; [eauto|].
  destruct (truthy (get d "trace_id") && truthy (get d "is_valid")
            && truthy (get d "qa_pair")); [|apply IH].
  destruct (Hr eq_refl) as ((qa & ->) & k & ->). apply IH.
Qed.

Lemma merged_total V S m : Forall valid_record_ok V -> exists M, merged V S m = inr M.
Proof.
  induction 1 as [|rec V (d & k & -> & Hk) _ [M IH]]; simpl; [eauto|].
  rewrite Hk, IH. eauto.
Qed.

(** The merge by the truth tests of its loop.  On inputs on which the
    merge raises nothing, the merged list has one record per valid
    record, in the same order.  The record at a position is the corrected
    content, re-keyed with the trace_id, exactly when that trace_id is
    marked overall_failure = 1 by some judge row and some correction with
    that trace_id passes the truth tests of the loop; the last such
    correction of the list is the one used.  Otherwise the original
    record is carried through unchanged. *)
Lemma merge_corrected_qa_records_guarded
    (valid_qa failure_labeled corrected_list : list json) :
  Forall valid_record_ok valid_qa ->
  Forall judge_row_ok failure_labeled ->
  Forall correction_ok corrected_list ->
  exists merged_list,
    merge_corrected_qa_records valid_qa failure_labeled corrected_list = inr merged_list
    /\ length merged_list = length valid_qa
    /\ forall i rec, valid_qa !! i = Some rec ->
         exists d k, rec = JObj d /\ hash_key (get d "trace_id") = inr k
           /\ (marked_failed failure_labeled k /\ has_correction corrected_list k ->
               exists c, last_usable corrected_list k c
                 /\ merged_list !! i = Some (JObj c)
                 /\ hash_key (get c "trace_id") = inr k)
           /\ (~ (marked_failed failure_labeled k /\ has_correction corrected_list k) ->
               merged_list !! i = Some rec).
Proof.
  intros HV HJ HC. unfold merge_corrected_qa_records.
  destruct (failed_ids_total _ HJ) as [S HS].
  destruct (corrected_by_id_total _ HC ∅) as [m Hm].
  destruct (merged_total valid_qa S m HV) as [M HM].
  rewrite HS, Hm, HM. exists M. split; [reflexivity|].
  destruct (merged_spec _ _ _ _ HM) as [Hlen Hrec]. split; [exact Hlen|].
  intros i rec Hi. destruct (Hrec i rec Hi) as (d & k & -> & Hk & Hout).
  exists d, k. split; [reflexivity|]. split; [exact Hk|].
  pose proof (corrected_by_id_spec _ _ _ Hm k) as Hlook. rewrite lookup_empty in Hlook.
  pose proof (failed_ids_spec _ _ HS k) as Hfail.
  split.
  - intros [Hmark (r & c & Hin & Hu)].
    destruct (last_correction corrected_list k) as [c0|] eqn:E.
    + exists c0. pose proof (last_correction_Some _ _ _ E) as Hlast.
      split; [exact Hlast|]. split.
      * rewrite Hout, bool_decide_eq_true_2 by now apply Hfail.
        now rewrite Hlook.
      * destruct Hlast as (j & r0 & _ & (d0 & qa & _ & _ & Hh & _ & _ & _ & ->) & _).
        unfold get at 1. now rewrite lookup_insert_eq.
    + exfalso. eapply (proj1 (last_correction_None _ _) E); eauto.
  - intros Hnot. rewrite Hout. destruct (bool_decide (k ∈ S)) eqn:Ek; [|reflexivity].
    apply bool_decide_eq_true_1 in Ek. apply Hfail in Ek.
    destruct (last_correction corrected_list k) as [c0|] eqn:E.
    + exfalso. apply Hnot. split; [exact Ek|].
      destruct (last_correction_Some _ _ _ E) as (j & r0 & Hj & Hu & _).
      exists r0, c0. split; [|exact Hu].
      apply list_elem_of_In. eapply list_elem_of_lookup_2. exact Hj.
    + now rewrite Hlook.
Qed.

(** A correction as the corrector writes it: the trace_id is the
    identifier of the record, a string that is not empty; is_valid is a
    boolean; qa_pair is null or the dump of a record, an object that is
    not empty. *)
Definition typed_correction (r : json) : Prop :=
  exists d tid, r = JObj d
    /\ d !! "trace_id" = Some (JStr tid) /\ tid <> ""
    /\ (exists b, d !! "is_valid" = Some (JBool b))
    /\ (d !! "qa_pair" = Some JNull
        \/ exists qa, d !! "qa_pair" = Some (JObj qa) /\ qa <> ∅).

(** What the specification asks of a correction for the key [k]: that trace_id,
    is_valid true, and a qa_pair that is not null. *)
Definition claimed_correction (corrected_list : list json) (k : key) : Prop :=
  exists d tid qa, In (JObj d) corrected_list
    /\ d !! "trace_id" = Some tid /\ hash_key tid = inr k
    /\ d !! "is_valid" = Some (JBool true)
    /\ d !! "qa_pair" = Some qa /\ qa <> JNull.

Lemma typed_correction_ok r : typed_correction r -> correction_ok r.
Proof.
  intros (d & tid & -> & Ht & _ & _ & Hq). exists d. split; [reflexivity|].
  unfold get. rewrite Ht. simpl. intros T. split; [|eexists; reflexivity].
  destruct Hq as [Hq|(qa & Hq & _)]; [|eauto].
  rewrite Hq in T. simpl in T. rewrite andb_false_r in T. discriminate.
Qed.

(** On typed corrections the condition of the specification is that of
    the loop. *)
Lemma claimed_correction_usable corrected_list k :
  Forall typed_correction corrected_list ->
  claimed_correction corrected_list k <-> has_correction corrected_list k.
Proof.
  intros Htyped. rewrite List.Forall_forall in Htyped. split.
  - intros (d & tid & qa & Hin & Ht & Hk & Hv & Hq & Hnn).
    destruct (Htyped _ Hin) as (d' & tid' & [= <-] & Ht' & Hne & _ & Hq').
    rewrite Ht in Ht'. injection Ht' as ->.
    destruct Hq' as [Hq'|(qa' & Hq' & Hne')]; [congruence|].
    exists (JObj d), (<["trace_id" := JStr tid']> qa'). split; [exact Hin|].
    exists d, qa'. unfold get. rewrite Ht, Hv. simpl.
    split; [reflexivity|]. split; [destruct tid'; [congruence | reflexivity]|].
    split; [exact Hk|]. split; [reflexivity|]. split; [exact Hq'|].
    split; [exact Hne' | reflexivity].
  - intros (r & c & Hin & d & qa & -> & T1 & Hk & T2 & Hq & Hne & _).
    destruct (Htyped _ Hin) as (d' & tid & [= <-] & Ht & _ & [b Hb] & _).
    exists d, (JStr tid), (JObj qa). split; [exact Hin|]. split; [exact Ht|].
    unfold get in Hk, T2. rewrite Ht in Hk. rewrite Hb in T2. simpl in Hk, T2. subst b.
    split; [exact Hk|]. split; [exact Hb|]. split; [exact Hq | discriminate].
Qed.

(** C1.  For valid records and judge rows that are objects with trace_ids
    that can be dictionary keys, and corrections typed as the corrector
    writes them, the merged list has one record per valid record, in the
    same order and with the same trace_id at each position.  The record
    at a position is the corrected content, re-keyed with the trace_id,
    exactly when that trace_id is marked overall_failure = 1 by some
    judge row and some correction with that trace_id has is_valid true
    and a qa_pair that is not null (the last such correction of the list
    gives the content); otherwise the original record is carried through
    unchanged. *)
Theorem merge_corrected_qa_records_correct
    (valid_qa failure_labeled corrected_list : list json) :
  Forall valid_record_ok valid_qa ->
  Forall judge_row_ok failure_labeled ->
  Forall typed_correction corrected_list ->
  exists merged_list,
    merge_corrected_qa_records valid_qa failure_labeled corrected_list = inr merged_list
    /\ length merged_list = length valid_qa
    /\ forall i rec, valid_qa !! i = Some rec ->
         exists d k, rec = JObj d /\ hash_key (get d "trace_id") = inr k
           /\ (marked_failed failure_labeled k /\ claimed_correction corrected_list k ->
               exists c, last_usable corrected_list k c
                 /\ merged_list !! i = Some (JObj c)
                 /\ hash_key (get c "trace_id") = inr k)
           /\ (~ (marked_failed failure_labeled k
                  /\ claimed_correction corrected_list k) ->
               merged_list !! i = Some rec).
Proof.
  intros HV HJ HT.
  assert (HC : Forall correction_ok corrected_list).
  { eapply Forall_impl; [exact HT|]. intros r. apply typed_correction_ok. }
  destruct (merge_corrected_qa_records_guarded valid_qa failure_labeled corrected_list
              HV HJ HC) as (merged_list & Hrun & Hlen & Hrec).
  exists merged_list. split; [exact Hrun|]. split; [exact Hlen|].
  intros i rec Hi. destruct (Hrec i rec Hi) as (d & k & Hd & Hk & Hyes & Hno).
  exists d, k. split; [exact Hd|]. split; [exact Hk|].
  pose proof (claimed_correction_usable corrected_list k HT) as Hiff.
  split.
  - intros [Hm Hc]. apply Hyes. split; [exact Hm | now apply Hiff].
  - intros Hnot. apply Hno. intros [Hm Hc]. apply Hnot.
    split; [exact Hm | now apply Hiff].
Qed.

(** The lists of the repository's merge test. *)
Definition test_valid_qa : list json :=
  [ JObj (<["question" := JStr "Q1"]> {["trace_id" := JStr "t1"]});
    JObj (<["question" := JStr "Q2"]> {["trace_id" := JStr "t2"]}) ].
Definition test_failure_labeled : list json :=
  [ JObj (<["overall_failure" := JInt 0]> {["trace_id" := JStr "t1"]});
    JObj (<["overall_failure" := JInt 1]> {["trace_id" := JStr "t2"]}) ].
Definition test_corrected_list : list json :=
  [ JObj (<["is_valid" := JBool true]>
          (<["qa_pair" := JObj {["question" := JStr "Q2-corrected"]}]>
           {["trace_id" := JStr "t2"]})) ].

Lemma merge_corrected_qa_records_correct_witness :
  exists merged_list,
    merge_corrected_qa_records test_valid_qa test_failure_labeled test_corrected_list
      = inr merged_list
    /\ length merged_list = length test_valid_qa
    /\ forall i rec, test_valid_qa !! i = Some rec ->
         exists d k, rec = JObj d /\ hash_key (get d "trace_id") = inr k
           /\ (marked_failed test_failure_labeled k
               /\ claimed_correction test_corrected_list k ->
               exists c, last_usable test_corrected_list k c
                 /\ merged_list !! i = Some (JObj c)
                 /\ hash_key (get c "trace_id") = inr k)
           /\ (~ (marked_failed test_failure_labeled k
                  /\ claimed_correction test_corrected_list k) ->
               merged_list !! i = Some rec).
Proof.
  apply (merge_corrected_qa_records_correct test_valid_qa test_failure_labeled
           test_corrected_list).
  - repeat constructor; eexists _, _; (split; [reflexivity | vm_compute; reflexivity]).
  - repeat constructor; eexists; (split; [reflexivity|]); vm_compute; intros H;
      first [discriminate H | eexists _, _; split; reflexivity].
  - apply List.Forall_cons; [|apply List.Forall_nil].
    eexists _, "t2". split; [reflexivity|]. split; [vm_compute; reflexivity|].
    split; [discriminate|]. split; [exists true; vm_compute; reflexivity|].
    right. eexists. split; [vm_compute; reflexivity|].
    intros H. apply (f_equal (fun m : gmap string json => m !! "question")) in H.
    vm_compute in H. discriminate H.
Defined.

(** The repository's merge test: t1 is carried through, t2 is replaced by
    the corrected content and keeps its trace_id. *)
Example test_merge_corrected_qa_records_replaces_failed_with_corrected :
  merge_corrected_qa_records test_valid_qa test_failure_labeled test_corrected_list
  = inr [ JObj (<["question" := JStr "Q1"]> {["trace_id" := JStr "t1"]});
          JObj (<["question" := JStr "Q2-corrected"]> {["trace_id" := JStr "t2"]}) ].
Proof. vm_compute. reflexivity. Qed.

(** The spec's own example: t2 is marked failed but its only correction
    is invalid, so the original record is carried through. *)
Example merge_keeps_record_without_valid_correction :
  merge_corrected_qa_records test_valid_qa test_failure_labeled
    [ JObj (<["is_valid" := JBool false]>
            (<["qa_pair" := JNull]> {["trace_id" := JStr "t2"]})) ]
  = inr test_valid_qa.
Proof. vm_compute. reflexivity. Qed.

End MergeClaims.

(** ** The failure analyzer *)

Module AnalysisClaims.
Import Py Config FailureAnalysis FloatOrder.

Section SortedDesc.

Context {A : Type} (lt : A -> A -> bool).

Lemma insert_desc_length x l : length (insert_desc lt x l) = S (length l).
Proof.
  induction l as [|y l IH]; simpl; [reflexivity|].
  destruct (lt x y); simpl; congruence.
Qed.

Lemma sorted_desc_length l : length (sorted_desc lt l) = length l.
Proof.
  induction l as [|x l IH]; simpl; [reflexivity|].
  rewrite insert_desc_length. congruence.
Qed.

(** The head of the sorted list is the first greatest element of the
    input: everything before it is smaller, nothing after it is greater.
    The test only has to be an order on the elements of the list. *)
Lemma sorted_desc_head l : forall x rest,
  (forall a b, In a l -> In b l -> lt a b = true -> lt b a = false) ->
  (forall a b c, In a l -> In b l -> In c l ->
     lt a c = true -> lt a b = true \/ lt b c = true) ->
  sorted_desc lt l = x :: rest ->
  exists before after,
    l = before ++ x :: after
    /\ (forall y, In y before -> lt y x = true)
    /\ (forall y, In y after -> lt x y = false).
Proof.
  induction l as [|a l IH]; intros x rest Hasym Hco; simpl; [discriminate|].
  destruct (sorted_desc lt l) as [|y r] eqn:E.
  - assert (l = []) as ->.
    { apply (f_equal (@length A)) in E. rewrite sorted_desc_length in E.
      now destruct l. }
    simpl. intros [= <- <-]. exists [], []. split; [reflexivity|]. split; intros ? [].
  - destruct (IH y r) as (before & after & Hl & Hb & Ha); [| |reflexivity|].
    { intros ? ? ? ?. apply Hasym; now right. }
    { intros ? ? ? ? ? ?. apply Hco; now right. }
    assert (Hy : In y l) by (rewrite Hl; apply in_or_app; right; now left).
    simpl. destruct (lt a y) eqn:Eay.
    + intros [= <- <-]. exists (a :: before), after.
      split; [simpl; now rewrite Hl|]. split; [|exact Ha].
      intros z [<-|Hz]; [exact Eay | now apply Hb].
    + intros [= <- <-]. exists [], l. split; [reflexivity|]. split; [intros ? []|].
      intros z Hz. destruct (lt a z) eqn:Eaz; [|reflexivity]. exfalso.
      destruct (Hco a y z) as [H|H]; [now left | now right | now right | exact Eaz | |].
      * congruence.
      * rewrite Hl in Hz. apply in_app_or in Hz as [Hz|[<-|Hz]].
        -- assert (lt y z = false); [|congruence].
           apply Hasym; [right; rewrite Hl; apply in_or_app; now left | now right |].
           now apply Hb.
        -- assert (lt y y = false); [|congruence]. apply Hasym; try now right. exact H.
        -- specialize (Ha z Hz). congruence.
Qed.

End SortedDesc.

(** The dict filled by one assignment per key of the list. *)
Lemma fold_insert_lookup {V : Type} (f : string -> V) (l : list string) :
  forall (init : gmap string V) (k : string),
    In k l -> fold_left (fun d m => <[m := f m]> d) l init !! k = Some (f k).
Proof.
  assert (Hkeep : forall l (init : gmap string V) k,
            ~ In k l -> fold_left (fun d m => <[m := f m]> d) l init !! k = init !! k).
  { clear l. induction l as [|a l IH]; intros init k Hk; simpl; [reflexivity|].
    rewrite IH by (intros H; apply Hk; now right).
    apply lookup_insert_ne. intros ->. apply Hk. now left. }
  induction l as [|a l IH]; intros init k; simpl; [intros []|].
  intros [->|Hk].
  - destruct (in_dec string_dec k l) as [Hin|Hnin]; [now apply IH|].
    rewrite Hkeep by exact Hnin. apply lookup_insert_eq.
  - now apply IH.
Qed.

(** The per-mode rate that the summary stores. *)
Lemma summary_rate (self : FailureAnalyzer) (m : string) :
  In m (failure_modes self) ->
  rate_of (failure_mode_rates (generate_failure_summary self)) m
  = mean (column (df self) m).
Proof.
  intros Hm. unfold rate_of, generate_failure_summary. simpl.
  now rewrite (fold_insert_lookup (fun mode => mean (column (df self) mode))).
Qed.

(** C7.  The summary's target_met is true exactly when the overall
    failure rate, the mean of the overall_failure column, is strictly
    less than the target rate, which is TARGET_FAILURE_RATE = 0.0632; a
    rate that equals or exceeds the target gives target_met = false, and
    so does the rate of an empty set (nan). *)
Theorem target_met_strict (data : DataFrame) :
  let summary := generate_failure_summary (init data) in
  overall_failure_rate summary = mean (map overall_failure data)
  /\ target_failure_rate summary = TARGET_FAILURE_RATE
  /\ (target_met summary = true
      <-> PrimFloat.ltb (overall_failure_rate summary) (target_failure_rate summary) = true)
  /\ (PrimFloat.leb (target_failure_rate summary) (overall_failure_rate summary) = true
      -> target_met summary = false)
  /\ (PrimFloat.is_nan (overall_failure_rate summary) = true -> target_met summary = false).
Proof.
  intros summary. subst summary. simpl.
  split; [reflexivity|]. split; [reflexivity|]. split; [tauto|].
  split; [apply leb_not_ltb|].
  unfold PrimFloat.is_nan. rewrite FloatAxioms.eqb_spec, FloatAxioms.ltb_spec.
  unfold SFeqb, SFltb. set (x := Prim2SF (mean (map overall_failure data))).
  destruct x as [s|s| |s m e]; simpl; try reflexivity;
    try (destruct s; discriminate).
  destruct s; rewrite Z.compare_refl, Pos.compare_cont_refl; discriminate.
Qed.

(** A labelled set with [k] failed records among [n]. *)
Definition row_of (failed : bool) : Row :=
  let b := if failed then 1 else 0 in
  {| overall_failure := b; incomplete_answer := b; safety_violations := 0;
     unrealistic_tools := 0; overcomplicated_solution := 0; missing_context := 0;
     poor_quality_tips := 0 |}.

Definition labelled (k n : nat) : DataFrame :=
  repeat (row_of true) k ++ repeat (row_of false) (n - k).

(** The boundary cases: 19 of 300 (6.33%) and 79 of 1250 (exactly 6.32%)
    miss the target, 18 of 300 (6%) meets it, and an empty set misses it. *)
Example target_met_boundary :
  target_met (generate_failure_summary (init (labelled 19 300))) = false
  /\ target_met (generate_failure_summary (init (labelled 79 1250))) = false
  /\ target_met (generate_failure_summary (init (labelled 18 300))) = true
  /\ target_met (generate_failure_summary (init [])) = false.
Proof. repeat split; vm_compute; reflexivity. Qed.

(** On sets of up to 100 records the float comparison is the comparison
    of the exact fractions: target_met holds exactly when
    failures / n < 632 / 10000. *)
Definition agrees (k n : nat) : bool :=
  Bool.eqb
    (PrimFloat.ltb (PrimFloat.div (float_of_Z (Z.of_nat k)) (float_of_Z (Z.of_nat n)))
                   TARGET_FAILURE_RATE)
    (10000 * Z.of_nat k <? 632 * Z.of_nat n).

Definition agreement_table (N : nat) : bool :=
  forallb (fun n => forallb (fun k => agrees k n) (seq 0 (S n))) (seq 1 N).

Lemma agreement_table_100 : agreement_table 100 = true.
Proof. vm_compute. reflexivity. Qed.

Lemma sum_flags (l : list Z) :
  Forall (fun x => x = 0 \/ x = 1) l ->
  exists k : nat, sum l = Z.of_nat k /\ (k <= length l)%nat.
Proof.
  induction 1 as [|x l Hx _ (k & Hk & Hle)]; simpl.
  - exists 0%nat. split; [reflexivity | lia].
  - destruct Hx as [-> | ->].
    + exists k. split; [exact Hk | lia].
    + exists (S k). split; [lia | lia].
Qed.

Lemma target_met_exact_small (data : DataFrame) :
  (0 < length data <= 100)%nat ->
  Forall (fun x => x = 0 \/ x = 1) (map overall_failure data) ->
  target_met (generate_failure_summary (init data))
  = (10000 * sum (map overall_failure data) <? 632 * Z.of_nat (length data)).
Proof.
  intros Hn Hflags. destruct (sum_flags _ Hflags) as (k & Hk & Hle).
  rewrite length_map in Hle.
  simpl. unfold mean. rewrite Hk, length_map.
  pose proof agreement_table_100 as T. unfold agreement_table in T.
  rewrite forallb_forall in T.
  specialize (T (length data)). rewrite forallb_forall in T.
  assert (Hin : In (length data) (seq 1 100)) by (apply in_seq; lia).
  specialize (T Hin k). unfold agrees in T.
  apply Bool.eqb_prop. apply T. apply in_seq. lia.
Qed.

(** No rate is computed for an empty set. *)
Lemma mean_nil_nan : PrimFloat.is_nan (mean []) = true.
Proof. vm_compute. reflexivity. Qed.

Section Recommendations.

Variable format_percent : nat -> float -> string.

(** The first recommendation, for the mode it cites and that mode's rate. *)
Definition focus_on (mode : string) (rate : float) : string :=
  "Focus on improving '" +:+ replace_char "_" " " mode
  +:+ "' - it's the most common failure mode ("
  +:+ format_percent 1 rate +:+ " failure rate)".

Lemma _generate_recommendations_first summary patterns top others :
  most_common_failures summary = top :: others ->
  total_samples summary <> 0 ->
  exists rest,
    _generate_recommendations format_percent summary patterns
    = Some (focus_on top (rate_of (failure_mode_rates summary) top) :: rest).
Proof.
  intros Hm Hn. unfold _generate_recommendations, focus_on. rewrite Hm.
  apply Z.eqb_neq in Hn. rewrite Hn.
  destruct (patterns_get "No Failures" patterns) as [[|i l]|];
    destruct (PrimFloat.ltb 0.5 (overall_failure_rate summary));
    destruct (target_met summary); simpl; eexists; reflexivity.
Qed.

(** C8.  When the per-mode rates are numbers (none is nan, as for every
    set that is not empty), the first recommendation of the report cites
    a mode [top] of the taxonomy such that no mode has a strictly higher
    rate and every mode declared before [top] has a strictly lower one:
    the highest rate, and among equals the mode declared first. *)
Theorem first_recommendation_cites_top_mode (data : DataFrame) :
  (forall m, In m FailureLabeling.FAILURE_MODE_NAMES ->
     PrimFloat.is_nan (mean (column data m)) = false) ->
  exists top before after rest,
    FailureLabeling.FAILURE_MODE_NAMES = before ++ top :: after
    /\ (forall m, In m before ->
         PrimFloat.ltb (mean (column data m)) (mean (column data top)) = true)
    /\ (forall m, In m after ->
         PrimFloat.ltb (mean (column data top)) (mean (column data m)) = false)
    /\ report_recommendations format_percent (init data)
       = Some (focus_on top (mean (column data top)) :: rest).
Proof.
  intros Hnum.
  set (self := init data).
  set (summary := generate_failure_summary self).
  set (lt := fun a b : string =>
         PrimFloat.ltb (rate_of (failure_mode_rates summary) a)
                       (rate_of (failure_mode_rates summary) b)).
  assert (Hrate : forall m, In m FailureLabeling.FAILURE_MODE_NAMES ->
            rate_of (failure_mode_rates summary) m = mean (column data m)).
  { intros m Hm. apply (summary_rate self m). exact Hm. }
  destruct (sorted_desc lt FailureLabeling.FAILURE_MODE_NAMES) as [|top sorted_rest] eqn:E.
  { apply (f_equal (@length string)) in E. rewrite sorted_desc_length in E.
    discriminate E. }
  destruct (sorted_desc_head lt FailureLabeling.FAILURE_MODE_NAMES top sorted_rest)
    as (before & after & Hsplit & Hbefore & Hafter).
  - intros a b Ha Hb. unfold lt. rewrite (Hrate a Ha), (Hrate b Hb).
    apply ltb_asym; now apply Hnum.
  - intros a b c Ha Hb Hc. unfold lt. rewrite (Hrate a Ha), (Hrate b Hb), (Hrate c Hc).
    apply ltb_cotrans; now apply Hnum.
  - exact E.
  - assert (Htop : In top FailureLabeling.FAILURE_MODE_NAMES)
      by (rewrite Hsplit; apply in_or_app; right; now left).
    assert (Hdata : data <> []).
    { intros ->. specialize (Hnum _ Htop). simpl in Hnum.
      rewrite mean_nil_nan in Hnum. discriminate Hnum. }
    destruct (_generate_recommendations_first summary (identify_failure_patterns self)
                top (firstn 2 sorted_rest)) as [rest Hrec].
    { change (most_common_failures summary)
        with (firstn 3 (sorted_desc lt FailureLabeling.FAILURE_MODE_NAMES)).
      rewrite E. reflexivity. }
    { change (total_samples summary) with (Z.of_nat (length data)).
      destruct data; [congruence | simpl; lia]. }
    exists top, before, after, rest.
    split; [exact Hsplit|]. split; [|split].
    + intros m Hm.
      assert (Hin : In m FailureLabeling.FAILURE_MODE_NAMES)
        by (rewrite Hsplit; apply in_or_app; now left).
      rewrite <- (Hrate m Hin), <- (Hrate top Htop). now apply Hbefore.
    + intros m Hm.
      assert (Hin : In m FailureLabeling.FAILURE_MODE_NAMES)
        by (rewrite Hsplit; apply in_or_app; right; now right).
      rewrite <- (Hrate m Hin), <- (Hrate top Htop). now apply Hafter.
    + unfold report_recommendations. fold self. fold summary.
      rewrite Hrec, (Hrate top Htop). reflexivity.
Qed.

End Recommendations.

(** Five labelled records: safety_violations and missing_context share
    the highest rate (2 of 5); safety_violations is declared first. *)
Definition five_records : DataFrame :=
  let row o a b c d e f :=
    {| overall_failure := o; incomplete_answer := a; safety_violations := b;
       unrealistic_tools := c; overcomplicated_solution := d; missing_context := e;
       poor_quality_tips := f |} in
  [ row 1 0 1 0 0 1 0; row 0 0 0 0 0 0 0; row 1 0 1 0 0 1 0;
    row 1 1 0 0 0 0 1; row 0 0 0 0 0 0 0 ].

Lemma first_recommendation_cites_top_mode_witness :
  exists top before after rest,
    FailureLabeling.FAILURE_MODE_NAMES = before ++ top :: after
    /\ (forall m, In m before ->
         PrimFloat.ltb (mean (column five_records m)) (mean (column five_records top)) = true)
    /\ (forall m, In m after ->
         PrimFloat.ltb (mean (column five_records top)) (mean (column five_records m)) = false)
    /\ report_recommendations (fun _ _ => "40.0%") (init five_records)
       = Some (focus_on (fun _ _ => "40.0%") top (mean (column five_records top)) :: rest).
Proof.
  apply (first_recommendation_cites_top_mode (fun _ _ => "40.0%") five_records).
  intros m Hm. simpl in Hm.
  destruct Hm as [<-|[<-|[<-|[<-|[<-|[<-|[]]]]]]]; vm_compute; reflexivity.
Defined.

(** On those records the tie goes to safety_violations. *)
Example five_records_recommendations :
  report_recommendations (fun _ _ => "<rate>") (init five_records)
  = Some
      [ "Focus on improving 'safety violations' - it's the most common failure mode (<rate> failure rate)";
        "Good news: <rate> of samples have no failures - analyze these for best practices";
        "High overall failure rate suggests need for better prompt engineering or model fine-tuning";
        "Final failure rate must be < <rate> to meet project success criterion. Run correction phase and re-label, or improve prompts." ].
Proof. vm_compute. reflexivity. Qed.

(** On an empty set every rate is nan, nothing compares, and the modes
    stay in declaration order: the first one is cited. *)
Example empty_set_recommendations :
  report_recommendations (fun _ _ => "nan%") (init [])
  = Some
      [ "Focus on improving 'incomplete answer' - it's the most common failure mode (nan% failure rate)";
        "Final failure rate must be < nan% to meet project success criterion. Run correction phase and re-label, or improve prompts." ].
Proof. vm_compute. reflexivity. Qed.

End AnalysisClaims.

(** ** The analyzer object *)

Module AnalyzerObjectClaims.
Import Py Config Gateway FailureAnalysis.
Import AnalyzerObject.
#[local] Open Scope nat_scope.

(** Running a step that returns. *)
Lemma bind_run {A B : Type} (m : M Store A) (k : A -> M Store B) (h h' : Store) (a : A) :
  m h = (inr a, h') -> (m ≫= k) h = k a h'.
Proof. intros H. unfold mbind, M_bind, bind. now rewrite H. Qed.

Section Store.

(** The store [h] as the session finds it; what the calls add comes
    after it. *)
Variable h : Store.

Lemma lookup_old (ls : Store) (l : loc) (o : object) :
  h !! l = Some o -> (h ++ ls) !! l = Some o.
Proof. apply lookup_app_l_Some. Qed.

Lemma lookup_new (ls : Store) (i : nat) : (h ++ ls) !! (length h + i) = ls !! i.
Proof. rewrite lookup_app_r by lia. f_equal. lia. Qed.

Lemma new_local (ls : Store) (o : object) :
  new o (h ++ ls) = (inr (VRef (length h + length ls)), h ++ (ls ++ [o])).
Proof. unfold new. now rewrite length_app, <- app_assoc. Qed.

Lemma load_old (ls : Store) (l : loc) (o : object) :
  h !! l = Some o -> load (VRef l) (h ++ ls) = (inr o, h ++ ls).
Proof. intros H. unfold load. now rewrite (lookup_old ls l o H). Qed.

Lemma load_new (ls : Store) (i : nat) (o : object) :
  ls !! i = Some o -> load (VRef (length h + i)) (h ++ ls) = (inr o, h ++ ls).
Proof. intros H. unfold load. now rewrite lookup_new, H. Qed.

Lemma store_new (ls : Store) (i : nat) (o : object) :
  store (VRef (length h + i)) o (h ++ ls) = (inr tt, h ++ <[i := o]> ls).
Proof. unfold store. now rewrite insert_app_r. Qed.

Lemma getattr_old (ls : Store) (l : loc) attrs name v :
  h !! l = Some (OInstance attrs) -> assoc name attrs = Some v ->
  getattr (VRef l) name (h ++ ls) = (inr v, h ++ ls).
Proof.
  intros H Ha. unfold getattr. rewrite (bind_run _ _ _ _ _ (load_old ls l _ H)).
  now rewrite Ha.
Qed.

Lemma frame_old (ls : Store) (l : loc) rows :
  h !! l = Some (OFrame rows) -> frame (VRef l) (h ++ ls) = (inr rows, h ++ ls).
Proof.
  intros H. unfold frame. now rewrite (bind_run _ _ _ _ _ (load_old ls l _ H)).
Qed.

Lemma list_items_old (ls : Store) (l : loc) items :
  h !! l = Some (OList items) -> list_items (VRef l) (h ++ ls) = (inr items, h ++ ls).
Proof.
  intros H. unfold list_items. now rewrite (bind_run _ _ _ _ _ (load_old ls l _ H)).
Qed.

Lemma list_items_new (ls : Store) (i : nat) items :
  ls !! i = Some (OList items) ->
  list_items (VRef (length h + i)) (h ++ ls) = (inr items, h ++ ls).
Proof.
  intros H. unfold list_items. now rewrite (bind_run _ _ _ _ _ (load_new ls i _ H)).
Qed.

Lemma list_append_new (ls : Store) (i : nat) items x :
  ls !! i = Some (OList items) ->
  list_append (VRef (length h + i)) x (h ++ ls)
  = (inr tt, h ++ <[i := OList (items ++ [x])]> ls).
Proof.
  intros H. unfold list_append.
  rewrite (bind_run _ _ _ _ _ (list_items_new ls i _ H)). apply store_new.
Qed.

Lemma dict_items_new (ls : Store) (i : nat) items :
  ls !! i = Some (ODict items) ->
  dict_items (VRef (length h + i)) (h ++ ls) = (inr items, h ++ ls).
Proof.
  intros H. unfold dict_items. now rewrite (bind_run _ _ _ _ _ (load_new ls i _ H)).
Qed.

Lemma dict_getitem_new (ls : Store) (i : nat) items k v :
  ls !! i = Some (ODict items) -> assoc k items = Some v ->
  dict_getitem (VRef (length h + i)) k (h ++ ls) = (inr v, h ++ ls).
Proof.
  intros H Ha. unfold dict_getitem.
  rewrite (bind_run _ _ _ _ _ (dict_items_new ls i _ H)). now rewrite Ha.
Qed.

Lemma dict_setitem_new (ls : Store) (i : nat) items k v :
  ls !! i = Some (ODict items) ->
  dict_setitem (VRef (length h + i)) k v (h ++ ls)
  = (inr tt, h ++ <[i := ODict (assoc_set k v items)]> ls).
Proof.
  intros H. unfold dict_setitem.
  rewrite (bind_run _ _ _ _ _ (dict_items_new ls i _ H)). apply store_new.
Qed.

Lemma dict_contains_new (ls : Store) (i : nat) items k :
  ls !! i = Some (ODict items) ->
  dict_contains (VRef (length h + i)) k (h ++ ls)
  = (inr (match assoc k items with Some _ => true | None => false end), h ++ ls).
Proof.
  intros H. unfold dict_contains.
  now rewrite (bind_run _ _ _ _ _ (dict_items_new ls i _ H)).
Qed.

Lemma map_each_as_str (names : list string) (s : Store) :
  map_each (map VStr names) as_str s = (inr names, s).
Proof.
  induction names as [|n names IH]; simpl; [reflexivity|].
  unfold mbind, M_bind, bind. simpl. now rewrite IH.
Qed.

(** An analyzer in the store, as [__init__] leaves it: the instance at
    [self], its frame with the rows [rows], and the module's list of
    the six mode names. *)
Definition analyzer_at (self : loc) (rows : DataFrame) : Prop :=
  exists dfl ml,
    h !! self = Some (OInstance [("df", VRef dfl); ("failure_modes", VRef ml)])
    /\ h !! dfl = Some (OFrame rows)
    /\ h !! ml = Some (OList (map VStr FailureLabeling.FAILURE_MODE_NAMES)).

Variable self : loc.
Variable rows : DataFrame.
Hypothesis Hself : analyzer_at self rows.

Lemma self_df (ls : Store) :
  (df ← getattr (VRef self) "df"; frame df) (h ++ ls) = (inr rows, h ++ ls).
Proof.
  destruct Hself as (dfl & ml & Hi & Hf & _).
  rewrite (bind_run _ _ _ _ _ (getattr_old ls self _ "df" _ Hi eq_refl)).
  now apply frame_old.
Qed.

Lemma self_modes (ls : Store) :
  self_failure_modes (VRef self) (h ++ ls)
  = (inr FailureLabeling.FAILURE_MODE_NAMES, h ++ ls).
Proof.
  destruct Hself as (dfl & ml & Hi & _ & Hm). unfold self_failure_modes.
  rewrite (bind_run _ _ _ _ _ (getattr_old ls self _ "failure_modes" _ Hi eq_refl)).
  rewrite (bind_run _ _ _ _ _ (list_items_old ls ml _ Hm)).
  apply map_each_as_str.
Qed.

Lemma bind_assoc_run {A B C : Type} (m : M Store A) (f : A -> M Store B)
    (g : B -> M Store C) (s : Store) :
  ((m ≫= f) ≫= g) s = (m ≫= (fun x => f x ≫= g)) s.
Proof.
  unfold mbind, M_bind, bind. destruct (m s) as [[e|a] s']; reflexivity.
Qed.

Ltac run_step :=
  repeat rewrite bind_assoc_run; cbv beta;
  erewrite bind_run
    by first [ eapply getattr_old; [eassumption | reflexivity]
             | eapply frame_old; eassumption
             | eapply new_local
             | eapply self_modes
             | eapply dict_getitem_new; [reflexivity | reflexivity]
             | eapply dict_setitem_new; reflexivity
             | eapply list_items_new; reflexivity
             | reflexivity ];
  cbv beta;
  cbn [app length insert list_insert assoc_set String.eqb Ascii.eqb Bool.eqb].

Lemma names_six :
  FailureLabeling.FAILURE_MODE_NAMES
  = ["incomplete_answer"; "safety_violations"; "unrealistic_tools";
     "overcomplicated_solution"; "missing_context"; "poor_quality_tips"].
Proof. reflexivity. Qed.

Lemma read_dict_new {A : Type} (read : value -> option A) (ls : Store) (i : nat) items :
  ls !! i = Some (ODict items) ->
  read_dict read (h ++ ls) (VRef (length h + i))
  = mapM (fun kv => match read (snd kv) with
                    | Some a => Some (fst kv, a)
                    | None => None
                    end) items.
Proof. intros H. unfold read_dict. now rewrite lookup_new, H. Qed.

Lemma read_list_new {A : Type} (read : value -> option A) (ls : Store) (i : nat) items :
  ls !! i = Some (OList items) ->
  read_list read (h ++ ls) (VRef (length h + i)) = mapM read items.
Proof. intros H. unfold read_list. now rewrite lookup_new, H. Qed.

Lemma read_strs (l : list string) : mapM read_str (map VStr l) = Some l.
Proof. induction l as [|x l IH]; simpl; [reflexivity|]. now rewrite IH. Qed.

Lemma read_ints (l : list Z) : mapM read_int (map VInt l) = Some l.
Proof. induction l as [|x l IH]; simpl; [reflexivity|]. now rewrite IH. Qed.

(** Sorting by computed keys is sorting by the key function. *)
Lemma insert_desc_keyed {A K : Type} (lt : K -> K -> bool) (key : A -> K)
    (x : A) (l : list A) :
  insert_desc (fun a b => lt (snd a) (snd b)) (x, key x) (map (fun y => (y, key y)) l)
  = map (fun y => (y, key y)) (insert_desc (fun a b => lt (key a) (key b)) x l).
Proof.
  induction l as [|y l IH]; simpl; [reflexivity|].
  destruct (lt (key x) (key y)); simpl; [now rewrite IH | reflexivity].
Qed.

Lemma sorted_desc_keyed {A K : Type} (lt : K -> K -> bool) (key : A -> K) (l : list A) :
  sorted_desc (fun a b => lt (snd a) (snd b)) (map (fun y => (y, key y)) l)
  = map (fun y => (y, key y)) (sorted_desc (fun a b => lt (key a) (key b)) l).
Proof.
  induction l as [|x l IH]; simpl; [reflexivity|].
  now rewrite IH, insert_desc_keyed.
Qed.

Lemma last3_map {A B : Type} (f : A -> B) (l : list A) : last3 (map f l) = map f (last3 l).
Proof. unfold last3. now rewrite length_map, skipn_map. Qed.

Lemma generate_failure_summary_run :
  exists v new,
    generate_failure_summary (VRef self) h = (inr v, h ++ new)
    /\ forall ext,
         read_summary (h ++ new ++ ext) v
         = Some (FailureAnalysis.generate_failure_summary (init rows)).
Proof.
  assert (E : exists v new,
            generate_failure_summary (VRef self) (h ++ []) = (inr v, h ++ new)
            /\ forall ext,
                 read_summary (h ++ new ++ ext) v
                 = Some (FailureAnalysis.generate_failure_summary (init rows))).
  2: { now rewrite app_nil_r in E. }
  pose proof Hself as (dfl & ml & Hi & Hf & Hm).
  eexists _, _. split.
  - unfold generate_failure_summary.
    repeat (run_step; rewrite ?names_six; cbn [for_each map_each]).
    reflexivity.
  - intros ext. unfold read_summary. rewrite lookup_new.
    cbn [app lookup list_lookup].
    cbn [mbind option_bind assoc String.eqb Ascii.eqb Bool.eqb
         read_int read_float read_bool].
    erewrite !read_dict_new by reflexivity.
    erewrite !read_list_new by reflexivity.
    cbn [mapM mbind option_bind mret option_ret snd fst read_int read_float].
    set (rates := FailureAnalysis.failure_mode_rates
                    (FailureAnalysis.generate_failure_summary (init rows))).
    assert (Hkeys :
      combine
        ["incomplete_answer"; "safety_violations"; "unrealistic_tools";
         "overcomplicated_solution"; "missing_context"; "poor_quality_tips"]
        [mean (column rows "incomplete_answer"); mean (column rows "safety_violations");
         mean (column rows "unrealistic_tools");
         mean (column rows "overcomplicated_solution");
         mean (column rows "missing_context"); mean (column rows "poor_quality_tips")]
      = map (fun y => (y, rate_of rates y)) FailureLabeling.FAILURE_MODE_NAMES).
    { subst rates. rewrite names_six. cbn [map combine]. reflexivity. }
    rewrite Hkeys, sorted_desc_keyed.
    rewrite !map_map. cbn [fst].
    change (fun x : string => VStr x) with VStr.
    rewrite firstn_map, last3_map, !read_strs.
    cbn [mbind option_bind]. subst rates. reflexivity.
Qed.

(** *** The pattern groups in the store *)

(** While [identify_failure_patterns] runs, the objects it has made are
    the dict [patterns] and, after it, one list per group, in the order
    in which the groups were created. *)
Fixpoint indexed {A : Type} (j : nat) (l : list A) : list (nat * A) :=
  match l with
  | [] => []
  | x :: l' => (j, x) :: indexed (S j) l'
  end.

Definition entry (x : nat * (string * list Z)) : string * value :=
  (fst (snd x), VRef (length h + S (fst x))).

Definition entries (j : nat) (groups : list (string * list Z)) : list (string * value) :=
  map entry (indexed j groups).

Definition lists (groups : list (string * list Z)) : list object :=
  map (fun kv => OList (map VInt (snd kv))) groups.

Definition rep (groups : list (string * list Z)) : Store :=
  ODict (entries 0 groups) :: lists groups.

Fixpoint index_of (name : string) (groups : list (string * list Z)) : option nat :=
  match groups with
  | [] => None
  | (k, _) :: rest => if String.eqb k name then Some 0 else S <$> index_of name rest
  end.

Lemma assoc_entries name groups : forall j0,
  assoc name (entries j0 groups)
  = (fun j => VRef (length h + S (j0 + j))) <$> index_of name groups.
Proof.
  induction groups as [|[k l] groups IH]; intros j0; simpl; [reflexivity|].
  destruct (String.eqb k name).
  - simpl. now rewrite Nat.add_0_r.
  - fold (entries (S j0) groups). rewrite IH.
    destruct (index_of name groups) as [j|]; simpl; [|reflexivity].
    do 3 f_equal. lia.
Qed.

Lemma patterns_append_absent name idx groups :
  index_of name groups = None -> patterns_append name idx groups = groups ++ [(name, [idx])].
Proof.
  induction groups as [|[k l] groups IH]; simpl; [reflexivity|].
  destruct (String.eqb k name); [discriminate|].
  destruct (index_of name groups); [discriminate|]. intros _. now rewrite IH.
Qed.

Lemma patterns_append_present name idx groups : forall j,
  index_of name groups = Some j ->
  exists k idxs, groups !! j = Some (k, idxs)
    /\ patterns_append name idx groups = <[j := (k, idxs ++ [idx])]> groups.
Proof.
  induction groups as [|[k l] groups IH]; simpl; intros j; [discriminate|].
  destruct (String.eqb k name).
  - intros [= <-]. exists k, l. split; reflexivity.
  - destruct (index_of name groups) as [j'|]; [|discriminate].
    intros [= <-]. destruct (IH j' eq_refl) as (k' & idxs & Hj & ->).
    exists k', idxs. split; [exact Hj | reflexivity].
Qed.

Lemma index_of_snoc name l groups :
  index_of name groups = None -> index_of name (groups ++ [(name, l)]) = Some (length groups).
Proof.
  induction groups as [|[k l'] groups IH]; simpl.
  - now rewrite String.eqb_refl.
  - destruct (String.eqb k name); [discriminate|].
    destruct (index_of name groups); [discriminate|]. intros _. now rewrite IH.
Qed.

Lemma entries_snoc name l groups : forall j0,
  entries j0 (groups ++ [(name, l)])
  = entries j0 groups ++ [(name, VRef (length h + S (j0 + length groups)))].
Proof.
  unfold entries.
  induction groups as [|[k l'] groups IH]; intros j0; simpl.
  - unfold entry. simpl. now rewrite Nat.add_0_r.
  - rewrite IH. do 5 f_equal. lia.
Qed.

Lemma entries_insert groups : forall j0 j k l l',
  groups !! j = Some (k, l) -> entries j0 (<[j := (k, l')]> groups) = entries j0 groups.
Proof.
  unfold entries.
  induction groups as [|[k0 l0] groups IH]; intros j0 j k l l'; [reflexivity|].
  destruct j as [|j]; simpl.
  - now intros [= -> _].
  - intros Hj. now rewrite (IH (S j0) j k l l' Hj).
Qed.

Lemma lists_insert groups : forall j k l',
  lists (<[j := (k, l')]> groups) = <[j := OList (map VInt l')]> (lists groups).
Proof.
  unfold lists.
  induction groups as [|kv groups IH]; intros j k l'; [reflexivity|].
  destruct j as [|j]; simpl; [reflexivity|]. now rewrite IH.
Qed.

Lemma lists_lookup groups : forall j k l,
  groups !! j = Some (k, l) -> lists groups !! j = Some (OList (map VInt l)).
Proof.
  induction groups as [|kv groups IH]; intros j k l; [discriminate|].
  destruct j as [|j]; simpl; [now intros [= ->] | apply IH].
Qed.

Lemma assoc_set_absent name v items :
  assoc name items = None -> assoc_set name v items = items ++ [(name, v)].
Proof.
  induction items as [|[k v'] items IH]; simpl; [reflexivity|].
  destruct (String.eqb k name); [discriminate|]. intros H. now rewrite IH.
Qed.

Lemma insert_snoc {A : Type} (l : list A) (x y : A) : <[length l := y]> (l ++ [x]) = l ++ [y].
Proof. induction l as [|a l IH]; simpl; [reflexivity | now rewrite IH]. Qed.

Lemma lists_snoc groups kv :
  lists (groups ++ [kv]) = lists groups ++ [OList (map VInt (snd kv))].
Proof. unfold lists. now rewrite map_app. Qed.

Lemma length_lists groups : length (lists groups) = length groups.
Proof. apply length_map. Qed.

Lemma pattern_name_run (ls : Store) (pattern : list Z) :
  _pattern_to_name (VRef self) pattern (h ++ ls)
  = (inr (FailureAnalysis._pattern_to_name (init rows) pattern), h ++ ls).
Proof.
  unfold _pattern_to_name, FailureAnalysis._pattern_to_name.
  destruct (forallb (fun x => (x =? 0)%Z) pattern); [reflexivity|].
  rewrite (bind_run _ _ _ _ _ (self_modes ls)). reflexivity.
Qed.

(** The name of a row's pattern. *)
Definition name_of (row : Row) : string :=
  FailureAnalysis._pattern_to_name (init rows)
    (map (fun mode => getitem row mode) FailureLabeling.FAILURE_MODE_NAMES).

(** Appending to the group that is there, in the store. *)
Lemma append_run name idx groups j :
  index_of name groups = Some j ->
  (l ← dict_getitem (VRef (length h + 0)) name; list_append l (VInt idx)) (h ++ rep groups)
  = (inr tt, h ++ rep (patterns_append name idx groups)).
Proof.
  intros Hj.
  destruct (patterns_append_present name idx groups j Hj) as (k & idxs & Hg & ->).
  erewrite bind_run.
  2: { eapply dict_getitem_new; [reflexivity|]. rewrite assoc_entries, Hj. reflexivity. }
  cbn [Nat.add].
  erewrite (list_append_new (rep groups) (S j)).
  2: { simpl. apply (lists_lookup _ _ _ _ Hg). }
  unfold rep. cbn [insert list_insert].
  rewrite (entries_insert groups 0 j k idxs _ Hg), lists_insert, map_app.
  reflexivity.
Qed.

Lemma for_each_groups (body : Z * Row -> M Store unit) :
  (forall idx row groups,
      body (idx, row) (h ++ rep groups)
      = (inr tt, h ++ rep (patterns_append (name_of row) idx groups))) ->
  forall events groups,
    for_each events body (h ++ rep groups)
    = (inr tt,
       h ++ rep (fold_left (fun patterns '(idx, row) =>
                              patterns_append (name_of row) idx patterns)
                   events groups)).
Proof.
  intros Hbody. induction events as [|[idx row] events IH]; intros groups; [reflexivity|].
  cbn [for_each fold_left].
  rewrite (bind_run _ _ _ _ _ (Hbody idx row groups)). apply IH.
Qed.

Lemma indexed_lookup {A : Type} (l : list A) : forall j0 x,
  In x (indexed j0 l) -> exists j, fst x = j0 + j /\ l !! j = Some (snd x).
Proof.
  induction l as [|a l IH]; intros j0 x; simpl; [tauto|].
  intros [<-|Hin].
  - exists 0. simpl. split; [lia | reflexivity].
  - destruct (IH (S j0) x Hin) as (j & Hj & Hl). exists (S j). split; [lia | exact Hl].
Qed.

Lemma indexed_snd {A : Type} (l : list A) : forall j0, map snd (indexed j0 l) = l.
Proof. induction l as [|a l IH]; intros j0; simpl; [reflexivity | now rewrite IH]. Qed.

Lemma insert_desc_In {A : Type} (lt : A -> A -> bool) (x y : A) (l : list A) :
  In y (insert_desc lt x l) -> y = x \/ In y l.
Proof.
  induction l as [|a l IH]; simpl; [intuition congruence|].
  destruct (lt x a); simpl; [|intuition congruence].
  intros [->|H]; [tauto|]. apply IH in H. tauto.
Qed.

Lemma sorted_desc_In {A : Type} (lt : A -> A -> bool) (y : A) (l : list A) :
  In y (sorted_desc lt l) -> In y l.
Proof.
  induction l as [|a l IH]; simpl; [tauto|].
  intros H. apply insert_desc_In in H as [->|H]; [now left | right; auto].
Qed.

Lemma insert_desc_pair {A B K : Type} (lt : K -> K -> bool) (f : A -> B) (key : A -> K)
    (x : A) (l : list A) :
  insert_desc (fun a b => lt (snd a) (snd b)) (f x, key x) (map (fun y => (f y, key y)) l)
  = map (fun y => (f y, key y)) (insert_desc (fun a b => lt (key a) (key b)) x l).
Proof.
  induction l as [|y l IH]; simpl; [reflexivity|].
  destruct (lt (key x) (key y)); simpl; [now rewrite IH | reflexivity].
Qed.

Lemma sorted_desc_pair {A B K : Type} (lt : K -> K -> bool) (f : A -> B) (key : A -> K)
    (l : list A) :
  sorted_desc (fun a b => lt (snd a) (snd b)) (map (fun y => (f y, key y)) l)
  = map (fun y => (f y, key y)) (sorted_desc (fun a b => lt (key a) (key b)) l).
Proof.
  induction l as [|x l IH]; simpl; [reflexivity|].
  now rewrite IH, insert_desc_pair.
Qed.

Lemma insert_desc_image {A B : Type} (lt : B -> B -> bool) (p : A -> B) (x : A) (l : list A) :
  map p (insert_desc (fun a b => lt (p a) (p b)) x l) = insert_desc lt (p x) (map p l).
Proof.
  induction l as [|y l IH]; simpl; [reflexivity|].
  destruct (lt (p x) (p y)); simpl; [now rewrite IH | reflexivity].
Qed.

Lemma sorted_desc_image {A B : Type} (lt : B -> B -> bool) (p : A -> B) (l : list A) :
  map p (sorted_desc (fun a b => lt (p a) (p b)) l) = sorted_desc lt (map p l).
Proof.
  induction l as [|x l IH]; simpl; [reflexivity|].
  now rewrite insert_desc_image, IH.
Qed.

(** The keys of the closing sort: the length of each group's list, read
    from the store. *)
Lemma keyed_run (groups part : list (string * list Z)) : forall j0,
  (forall j kv, part !! j = Some kv -> groups !! (j0 + j) = Some kv) ->
  map_each (entries j0 part)
    (fun x => l ← list_items (snd x); mret (x, length l)) (h ++ rep groups)
  = (inr (map (fun x => (entry x, length (snd (snd x)))) (indexed j0 part)),
     h ++ rep groups).
Proof.
  induction part as [|[k l] part IH]; intros j0 Hpart; [reflexivity|].
  cbn [entries indexed map map_each]. fold (entries (S j0) part).
  rewrite bind_assoc_run.
  erewrite bind_run.
  2: { eapply (list_items_new (rep groups) (S j0)). simpl.
       apply (lists_lookup groups j0 k l). rewrite <- (Nat.add_0_r j0).
       apply Hpart. reflexivity. }
  erewrite bind_run by reflexivity.
  assert (Hrest : forall j kv, part !! j = Some kv -> groups !! (S j0 + j) = Some kv).
  { intros j kv Hj. rewrite Nat.add_succ_l, <- Nat.add_succ_r. now apply Hpart. }
  rewrite (bind_run _ _ _ _ _ (IH (S j0) Hrest)).
  cbn [snd fst]. now rewrite length_map.
Qed.

Lemma read_groups (groups : list (string * list Z)) (ls : Store) (sorted : list (nat * (string * list Z))) :
  (forall x, In x sorted -> groups !! fst x = Some (snd x)) ->
  mapM (fun kv => match read_list read_int (h ++ rep groups ++ ls) (snd kv) with
                  | Some a => Some (fst kv, a)
                  | None => None
                  end) (map entry sorted)
  = Some (map snd sorted).
Proof.
  induction sorted as [|[j [k l]] sorted IH]; intros Hin; [reflexivity|].
  cbn [map mapM entry fst snd].
  erewrite read_list_new.
  2: { simpl. rewrite lookup_app_l_Some with (x := OList (map VInt l)); [reflexivity|].
       apply (lists_lookup groups j k l). apply (Hin (j, (k, l))). now left. }
  rewrite read_ints. cbn [mbind option_bind].
  rewrite IH by (intros x Hx; apply Hin; now right).
  reflexivity.
Qed.

Lemma identify_failure_patterns_run :
  exists v new,
    identify_failure_patterns (VRef self) h = (inr v, h ++ new)
    /\ forall ext,
         read_patterns (h ++ new ++ ext) v
         = Some (FailureAnalysis.identify_failure_patterns (init rows)).
Proof.
  assert (E : exists v new,
            identify_failure_patterns (VRef self) (h ++ []) = (inr v, h ++ new)
            /\ forall ext,
                 read_patterns (h ++ new ++ ext) v
                 = Some (FailureAnalysis.identify_failure_patterns (init rows))).
  2: { now rewrite app_nil_r in E. }
  pose proof Hself as (dfl & ml & Hi & Hf & Hm).
  set (groups := fold_left (fun patterns '(idx, row) =>
                              patterns_append (name_of row) idx patterns)
                   (imap (fun i row => (Z.of_nat i, row)) rows) []).
  set (key := fun x : nat * (string * list Z) => length (snd (snd x))).
  set (sorted := sorted_desc (fun a b => key a <? key b) (indexed 0 groups)).
  exists (VRef (length h + length (rep groups))), (rep groups ++ [ODict (map entry sorted)]).
  split.
  - unfold identify_failure_patterns.
    do 3 run_step.
    change [ODict []] with (rep []).
    match goal with |- context [for_each _ ?b] => set (body := b) end.
    assert (Hbody : forall idx row gs,
              body (idx, row) (h ++ rep gs)
              = (inr tt, h ++ rep (patterns_append (name_of row) idx gs))).
    { intros idx row gs. subst body. cbv beta iota.
      rewrite (bind_run _ _ _ _ _ (self_modes (rep gs))).
      rewrite (bind_run _ _ _ _ _ (pattern_name_run (rep gs) _)).
      fold (name_of row).
      erewrite bind_run by (eapply dict_contains_new; reflexivity).
      rewrite assoc_entries.
      destruct (index_of (name_of row) gs) as [j|] eqn:Ej; cbn [fmap option_fmap option_map].
      - erewrite bind_run by reflexivity.
        now apply (append_run _ _ _ j).
      - rewrite bind_assoc_run.
        rewrite (bind_run _ _ _ _ _ (new_local (rep gs) _)).
        erewrite bind_run by (eapply dict_setitem_new; reflexivity).
        cbn [app rep insert list_insert].
        rewrite assoc_set_absent by (rewrite assoc_entries, Ej; reflexivity).
        change (length (rep gs)) with (S (length (lists gs))). rewrite length_lists.
        replace (ODict (entries 0 gs ++ [(name_of row, VRef (length h + S (length gs)))])
                 :: lists gs ++ [OList []])
          with (rep (gs ++ [(name_of row, [])]))
          by (unfold rep; rewrite (entries_snoc (name_of row) [] gs 0), lists_snoc;
              reflexivity).
        rewrite (append_run _ idx _ (length gs) (index_of_snoc _ [] _ Ej)).
        f_equal. f_equal. f_equal.
        destruct (patterns_append_present (name_of row) idx (gs ++ [(name_of row, [])])
                    (length gs) (index_of_snoc _ [] _ Ej)) as (k & idxs & Hg & ->).
        rewrite patterns_append_absent by exact Ej.
        rewrite list_lookup_middle in Hg by reflexivity. injection Hg as <- <-.
        apply insert_snoc. }
    rewrite (bind_run _ _ _ _ _ (for_each_groups body Hbody _ [])).
    fold groups.
    erewrite bind_run by (eapply dict_items_new; reflexivity).
    rewrite (bind_run _ _ _ _ _ (keyed_run groups groups 0 (fun j kv H => H))).
    rewrite new_local. do 3 f_equal.
    change (fun x : nat * (string * list Z) => (entry x, length (snd (snd x))))
      with (fun x : nat * (string * list Z) => (entry x, key x)).
    rewrite (sorted_desc_pair Nat.ltb entry key), map_map. reflexivity.
  - intros ext. unfold read_patterns.
    erewrite read_dict_new.
    2: { rewrite <- app_assoc. apply list_lookup_middle. reflexivity. }
    rewrite <- app_assoc.
    rewrite read_groups.
    + f_equal. subst sorted.
      transitivity (sorted_desc (fun a b : string * list Z => length (snd a) <? length (snd b))
                      (map snd (indexed 0 groups))).
      * apply (sorted_desc_image
                 (fun a b : string * list Z => length (snd a) <? length (snd b)) snd).
      * rewrite indexed_snd. reflexivity.
    + intros x Hx. subst sorted. apply sorted_desc_In in Hx.
      destruct (indexed_lookup groups 0 x Hx) as (j & -> & Hj). exact Hj.
Qed.

End Store.

Lemma analyzer_at_grows (h new : Store) (self : loc) (rows : DataFrame) :
  analyzer_at h self rows -> analyzer_at (h ++ new) self rows.
Proof.
  intros (dfl & ml & Hi & Hf & Hm). exists dfl, ml.
  repeat split; now apply lookup_app_l_Some.
Qed.

(** [FailureAnalyzer(df)] makes such an analyzer of a frame and the
    module's list of names. *)
Lemma __init___analyzer (h : Store) (dfl ml : loc) (rows : DataFrame) :
  h !! dfl = Some (OFrame rows) ->
  h !! ml = Some (OList (map VStr FailureLabeling.FAILURE_MODE_NAMES)) ->
  exists new,
    __init__ (VRef dfl) (VRef ml) h = (inr (VRef (length h)), h ++ new)
    /\ analyzer_at (h ++ new) (length h) rows.
Proof.
  intros Hf Hm. eexists. split; [reflexivity|]. exists dfl, ml.
  split; [apply list_lookup_middle; reflexivity|].
  split; now apply lookup_app_l_Some.
Qed.

(** What a call returned, read from the store, and what the pure
    methods give for the rows. *)
Inductive Output : Type :=
  | out_summary (s : Summary)
  | out_patterns (p : list (string * list Z)).

Definition read_output (h : Store) (c : Call) (v : value) : option Output :=
  match c with
  | call_summary => out_summary <$> read_summary h v
  | call_patterns => out_patterns <$> read_patterns h v
  end.

Definition expected (c : Call) (rows : DataFrame) : Output :=
  match c with
  | call_summary => out_summary (FailureAnalysis.generate_failure_summary (init rows))
  | call_patterns => out_patterns (FailureAnalysis.identify_failure_patterns (init rows))
  end.

Lemma call_run (h : Store) (self : loc) (rows : DataFrame) (c : Call) :
  analyzer_at h self rows ->
  exists v new,
    call c (VRef self) h = (inr v, h ++ new)
    /\ forall ext, read_output (h ++ new ++ ext) c v = Some (expected c rows).
Proof.
  intros Hself. destruct c; simpl.
  - destruct (generate_failure_summary_run h self rows Hself) as (v & new & Hrun & Hread).
    exists v, new. split; [exact Hrun|]. intros ext. now rewrite Hread.
  - destruct (identify_failure_patterns_run h self rows Hself) as (v & new & Hrun & Hread).
    exists v, new. split; [exact Hrun|]. intros ext. now rewrite Hread.
Qed.

(** C9.  The two methods, run statement by statement on a store of
    objects in any order and any number of times: every call returns, and
    the object it returns holds exactly the summary, or the pattern
    groups, that the rows of the frame determine, whatever was called
    before.  The calls only add objects to the store: the frame, the
    module's list of mode names, the instance and every other object
    that was there are as they were, and what an earlier call returned
    is not changed by a later one.  So two runs on the same set give
    identical outputs. *)
Theorem analyzer_runs_repeatable
    (calls : list Call) (h : Store) (self : loc) (rows : DataFrame) :
  analyzer_at h self rows ->
  exists outs new,
    run calls (VRef self) h = (inr outs, h ++ new)
    /\ Forall2 (fun c v => read_output (h ++ new) c v = Some (expected c rows)) calls outs
    /\ forall i j c vi vj,
         calls !! i = Some c -> calls !! j = Some c ->
         outs !! i = Some vi -> outs !! j = Some vj ->
         read_output (h ++ new) c vi = read_output (h ++ new) c vj.
Proof.
  intros Hself.
  assert (Hrun : exists outs new,
            run calls (VRef self) h = (inr outs, h ++ new)
            /\ Forall2 (fun c v => forall ext,
                          read_output (h ++ new ++ ext) c v = Some (expected c rows))
                 calls outs).
  { revert h Hself. induction calls as [|c calls IH]; intros h Hself.
    - exists [], []. rewrite app_nil_r. split; [reflexivity | constructor].
    - destruct (call_run h self rows c Hself) as (v & new1 & Hc & Hv).
      destruct (IH (h ++ new1) (analyzer_at_grows h new1 self rows Hself))
        as (outs & new2 & Hrest & Houts).
      exists (v :: outs), (new1 ++ new2). cbn [run].
      rewrite (bind_run _ _ _ _ _ Hc), (bind_run _ _ _ _ _ Hrest).
      rewrite <- app_assoc. split; [reflexivity|].
      constructor.
      + intros ext. rewrite <- app_assoc. apply Hv.
      + eapply Forall2_impl; [exact Houts|]. intros c' v' H ext.
        rewrite <- (H ext). now rewrite <- !app_assoc. }
  destruct Hrun as (outs & new & Hrun & Houts).
  assert (Hfinal : Forall2 (fun c v => read_output (h ++ new) c v = Some (expected c rows))
                     calls outs).
  { eapply Forall2_impl; [exact Houts|]. intros c v H.
    specialize (H []). now rewrite app_nil_r in H. }
  exists outs, new. split; [exact Hrun|]. split; [exact Hfinal|].
  intros i j c vi vj Hi Hj Hvi Hvj.
  rewrite (Forall2_lookup_lr _ _ _ _ _ _ Hfinal Hi Hvi).
  now rewrite (Forall2_lookup_lr _ _ _ _ _ _ Hfinal Hj Hvj).
Qed.

(** A store with the module's list of names, the frame of five records
    and an analyzer of it. *)
Definition five_records_store : Store :=
  [ OList (map VStr FailureLabeling.FAILURE_MODE_NAMES);
    OFrame AnalysisClaims.five_records;
    OInstance [("df", VRef 1); ("failure_modes", VRef 0)] ].

Lemma analyzer_runs_repeatable_witness :
  exists outs new,
    run [call_summary; call_patterns; call_patterns; call_summary] (VRef 2)
      five_records_store = (inr outs, five_records_store ++ new)
    /\ Forall2 (fun c v => read_output (five_records_store ++ new) c v
                           = Some (expected c AnalysisClaims.five_records))
         [call_summary; call_patterns; call_patterns; call_summary] outs
    /\ forall i j c vi vj,
         [call_summary; call_patterns; call_patterns; call_summary] !! i = Some c ->
         [call_summary; call_patterns; call_patterns; call_summary] !! j = Some c ->
         outs !! i = Some vi -> outs !! j = Some vj ->
         read_output (five_records_store ++ new) c vi
         = read_output (five_records_store ++ new) c vj.
Proof.
  apply (analyzer_runs_repeatable
           [call_summary; call_patterns; call_patterns; call_summary]
           five_records_store 2 AnalysisClaims.five_records).
  exists 1, 0. repeat split; reflexivity.
Defined.

(** The same session, computed: twelve objects are added, and the two
    summaries are two objects with the same content. *)
Example five_records_session :
  match run [call_summary; call_patterns; call_summary] (VRef 2) five_records_store with
  | (inr [s1; p; s2], h') =>
      firstn 3 h' = five_records_store
      /\ s1 <> s2
      /\ read_summary h' s1 = read_summary h' s2
      /\ read_patterns h' p
         = Some [("Safety Violations + Missing Context", [0; 2]%Z);
                 ("No Failures", [1; 4]%Z);
                 ("Incomplete Answer + Poor Quality Tips", [3]%Z)]
  | _ => False
  end.
Proof.
  vm_compute. repeat split; try reflexivity. discriminate.
Qed.

End AnalyzerObjectClaims.

(** * More properties *)

From Stdlib Require Import Sorted.

(** ** Sorting and counting *)

Module SortFacts.
Import Py.

Section Sorted.

Context {A : Type} (lt : A -> A -> bool) (key : A -> Z).
Hypothesis lt_key : forall a b, lt a b = true <-> key a < key b.

Lemma insert_desc_perm (x : A) (l : list A) : Permutation (insert_desc lt x l) (x :: l).
Proof.
  induction l as [|y l IH]; simpl; [reflexivity|].
  destruct (lt x y); [|reflexivity].
  rewrite IH. apply perm_swap.
Qed.

Lemma sorted_desc_perm (l : list A) : Permutation (sorted_desc lt l) l.
Proof.
  induction l as [|x l IH]; simpl; [reflexivity|].
  rewrite insert_desc_perm. now constructor.
Qed.

Lemma insert_desc_sorted (x : A) (l : list A) :
  StronglySorted (fun a b => key b <= key a) l ->
  StronglySorted (fun a b => key b <= key a) (insert_desc lt x l).
Proof.
  induction 1 as [|y l Hs IH Hall]; simpl.
  - repeat constructor.
  - destruct (lt x y) eqn:E.
    + apply lt_key in E. constructor; [exact IH|].
      rewrite insert_desc_perm. constructor; [lia | exact Hall].
    + assert (key y <= key x).
      { destruct (Z.lt_ge_cases (key x) (key y)) as [H|H]; [|exact H].
        apply lt_key in H. congruence. }
      constructor; [now constructor|].
      constructor; [exact H|].
      eapply Forall_impl; [exact Hall|]. simpl. intros; lia.
Qed.

Lemma sorted_desc_sorted (l : list A) :
  StronglySorted (fun a b => key b <= key a) (sorted_desc lt l).
Proof.
  induction l as [|x l IH]; simpl; [constructor | now apply insert_desc_sorted].
Qed.

End Sorted.

(** The number of times [x] is counted in [c]. *)
Fixpoint counted (c : list (string * Z)) (x : string) : Z :=
  match c with
  | [] => 0
  | (y, n) :: c' => if String.eqb x y then n else counted c' x
  end.

Fixpoint occurrences (l : list string) (x : string) : Z :=
  match l with
  | [] => 0
  | y :: l' => (if String.eqb x y then 1 else 0) + occurrences l' x
  end.

Lemma occurrences_app l1 l2 x :
  occurrences (l1 ++ l2) x = occurrences l1 x + occurrences l2 x.
Proof. induction l1 as [|y l1 IH]; simpl; [reflexivity | rewrite IH; lia]. Qed.

Lemma occurrences_pos l x : In x l <-> 0 < occurrences l x.
Proof.
  induction l as [|y l IH]; simpl; [split; [intros [] | lia]|].
  assert (0 <= occurrences l x) by (clear; induction l as [|z l IH]; simpl;
    [lia | destruct (String.eqb x z); lia]).
  destruct (String.eqb_spec x y) as [->|Hne].
  - split; [lia | now left].
  - rewrite <- IH. split; [intros [H'|H']; [congruence | exact H'] | now right].
Qed.

Ltac string_cases :=
  repeat match goal with
         | |- context [String.eqb ?a ?b] => destruct (String.eqb_spec a b); subst
         end;
  try congruence; try lia.

Lemma counter_add_counted x c y :
  counted (ValidationPhase.counter_add x c) y
  = counted c y + (if String.eqb y x then 1 else 0).
Proof.
  induction c as [|[z n] c IH]; simpl; [string_cases|].
  destruct (String.eqb_spec x z); subst; simpl; [string_cases|].
  rewrite IH. string_cases.
Qed.

Lemma counter_add_keys x c :
  List.NoDup (map fst c) ->
  List.NoDup (map fst (ValidationPhase.counter_add x c))
  /\ (forall y, In y (map fst (ValidationPhase.counter_add x c)) <-> y = x \/ In y (map fst c)).
Proof.
  induction c as [|[z n] c IH]; simpl; intros Hnd.
  - split; [constructor; [simpl; tauto | constructor] | intros y; intuition congruence].
  - inversion Hnd as [|? ? Hz Hnd']; subst.
    destruct (String.eqb_spec x z) as [->|Hxz]; simpl.
    + split; [exact Hnd | intros y; intuition congruence].
    + destruct (IH Hnd') as [IH1 IH2]. split.
      * constructor; [|exact IH1]. rewrite IH2. intros [->|H]; [congruence | contradiction].
      * intros y. rewrite IH2. intuition congruence.
Qed.

(** [Counter(l)] has each distinct item once, with the number of its
    occurrences. *)
Lemma Counter_spec (l : list string) :
  List.NoDup (map fst (ValidationPhase.Counter l))
  /\ (forall x, counted (ValidationPhase.Counter l) x = occurrences l x)
  /\ (forall x, In x (map fst (ValidationPhase.Counter l)) <-> In x l).
Proof.
  unfold ValidationPhase.Counter.
  assert (H : forall l c,
    List.NoDup (map fst c) ->
    List.NoDup (map fst (fold_left (fun c x => ValidationPhase.counter_add x c) l c))
    /\ (forall x, counted (fold_left (fun c x => ValidationPhase.counter_add x c) l c) x
                  = counted c x + occurrences l x)
    /\ (forall x, In x (map fst (fold_left (fun c x => ValidationPhase.counter_add x c) l c))
                  <-> In x (map fst c) \/ In x l)).
  { clear l. induction l as [|y l IH]; intros c Hnd; simpl.
    - split; [exact Hnd|]. split; [intros; lia | intros; tauto].
    - destruct (counter_add_keys y c Hnd) as [Hnd' Hkeys].
      destruct (IH _ Hnd') as (I1 & I2 & I3). split; [exact I1|]. split.
      + intros x. rewrite I2, counter_add_counted. lia.
      + intros x. rewrite I3, Hkeys. intuition congruence. }
  destruct (H l [] (List.NoDup_nil _)) as (H1 & H2 & H3).
  split; [exact H1|]. split; [intros x; rewrite H2; simpl; lia|].
  intros x. rewrite H3. simpl. tauto.
Qed.

Lemma counted_in (c : list (string * Z)) (x : string) (n : Z) :
  List.NoDup (map fst c) -> In (x, n) c -> counted c x = n.
Proof.
  induction c as [|[y m] c IH]; simpl; [intros _ []|].
  intros Hnd [[= -> ->]|Hin]; [now rewrite String.eqb_refl|].
  inversion Hnd as [|? ? Hy Hnd']; subst.
  destruct (String.eqb_spec x y) as [->|Hne]; [|now apply IH].
  exfalso. apply Hy. apply in_map_iff. now exists (y, n).
Qed.

End SortFacts.

(** ** The validation phase and what it writes *)

Module ValidationFacts.
Import Py PyFacts Models ValidationPhase ValidationOutput ModelsFacts ModelsClaims SortFacts.

(** The errors that [validate_batch] adds to [all_errors] for one
    result. *)
Definition reported (result : GenerationResult) : list string :=
  if fst (validate_structure result) then []
  else if negb (is_valid result)
       then validation_errors result ++ snd (validate_structure result)
       else snd (validate_structure result).

Lemma validate_loop_full results : forall valid_results all_errors seen,
  validate_loop results valid_results all_errors seen
  = (valid_results ++ List.filter (fun r => fst (validate_structure r)) results,
     all_errors ++ concat (map reported results),
     seen ++ map (fun r => if fst (validate_structure r) then r else downgraded r) results).
Proof.
  induction results as [|r rs IH]; intros valid_results all_errors seen; simpl.
  - now rewrite !app_nil_r.
  - unfold downgraded at 1. unfold reported at 1.
    destruct (validate_structure r) as [ok errs] eqn:E. simpl.
    destruct ok; rewrite IH; now rewrite <- !app_assoc.
Qed.

Lemma validate_batch_parts results :
  fst (fst (validate_batch results))
    = List.filter (fun r => fst (validate_structure r)) results
  /\ snd (validate_batch results)
    = map (fun r => if fst (validate_structure r) then r else downgraded r) results
  /\ common_errors (snd (fst (validate_batch results)))
    = map fst (most_common 5 (Counter (concat (map reported results)))).
Proof.
  unfold validate_batch. rewrite validate_loop_full. simpl. auto.
Qed.

(** A result passes only if it arrives valid. *)
Lemma validate_structure_true_valid r :
  fst (validate_structure r) = true -> is_valid r = true /\ qa_pair r <> None.
Proof.
  unfold validate_structure. destruct (is_valid r); simpl; [|discriminate].
  destruct (qa_pair r); simpl; [|discriminate]. intros _. split; congruence.
Qed.

(** A result that arrives valid and fails has at least one new error. *)
Lemma validate_structure_false_errors r :
  is_valid r = true -> fst (validate_structure r) = false ->
  snd (validate_structure r) <> [].
Proof.
  unfold validate_structure. intros ->. simpl.
  destruct (qa_pair r); simpl; [|discriminate].
  match goal with |- context [Nat.eqb (length ?e) 0] => destruct e end;
    simpl; [discriminate | intros _; discriminate].
Qed.

(** X1.  The batch accounts for every result: the valid results are exactly
    the inputs that pass [validate_structure], in input order; the list
    is left with as many results as it had; and the summary counts add
    up. *)
Theorem validate_batch_accounts (results : list GenerationResult) :
  let valid_results := fst (fst (validate_batch results)) in
  let summary := snd (fst (validate_batch results)) in
  valid_results = List.filter (fun r => fst (validate_structure r)) results
  /\ length (snd (validate_batch results)) = length results
  /\ total_generated summary = Z.of_nat (length results)
  /\ valid_samples summary = Z.of_nat (length valid_results)
  /\ valid_samples summary + invalid_samples summary = total_generated summary
  /\ 0 <= invalid_samples summary <= total_generated summary.
Proof.
  intros valid_results summary.
  destruct (validate_batch_parts results) as (Hv & Hr & _).
  split; [exact Hv|]. split; [rewrite Hr; apply length_map|].
  assert (Hlen : (length valid_results <= length results)%nat).
  { subst valid_results. rewrite Hv. clear.
    induction results as [|r rs IH]; simpl; [lia|].
    destruct (fst (validate_structure r)); simpl; lia. }
  subst valid_results summary. unfold validate_batch in *.
  rewrite validate_loop_full in *. simpl in *. lia.
Qed.

(** X2.  Validity is never upgraded, and identity is kept: each result leaves
    the batch with the trace_id, record, raw response and timestamp it
    came with; it is valid afterwards exactly when it passes
    [validate_structure], and then it is untouched and was valid
    before. *)
Theorem validate_batch_never_upgrades (results : list GenerationResult) :
  Forall2
    (fun r r' =>
       trace_id r' = trace_id r /\ qa_pair r' = qa_pair r
       /\ raw_response r' = raw_response r
       /\ generation_timestamp r' = generation_timestamp r
       /\ (is_valid r' = true <-> fst (validate_structure r) = true)
       /\ (is_valid r' = true -> r' = r /\ is_valid r = true))
    results (snd (validate_batch results)).
Proof.
  destruct (validate_batch_parts results) as (_ & -> & _).
  induction results as [|r rs IH]; simpl; constructor; [|exact IH].
  destruct (fst (validate_structure r)) eqn:E; simpl.
  - destruct (validate_structure_true_valid r E) as [Hv _].
    repeat split; auto.
  - repeat split; auto; discriminate.
Qed.

(** X3.  The error list of a result that fails grows; for a result that
    arrives already invalid it is doubled, because the list returned by
    [validate_structure] is then the result's own list. *)
Theorem validate_batch_error_lists (results : list GenerationResult) :
  Forall2
    (fun r r' =>
       (is_valid r = false ->
        validation_errors r' = validation_errors r ++ validation_errors r)
       /\ (is_valid r = true -> is_valid r' = false ->
           exists new, new <> []
             /\ validation_errors r' = validation_errors r ++ new)
       /\ (is_valid r' = true -> validation_errors r' = validation_errors r))
    results (snd (validate_batch results)).
Proof.
  destruct (validate_batch_parts results) as (_ & -> & _).
  induction results as [|r rs IH]; simpl; constructor; [|exact IH].
  destruct (fst (validate_structure r)) eqn:E; simpl.
  - destruct (validate_structure_true_valid r E) as [Hv _].
    rewrite Hv. repeat split; intros; try discriminate; reflexivity.
  - split; [|split; [|discriminate]].
    + intros Hv. unfold validate_structure. rewrite Hv. reflexivity.
    + intros Hv _. exists (snd (validate_structure r)).
      split; [now apply validate_structure_false_errors | reflexivity].
Qed.

Lemma StronglySorted_app_inv {A : Type} (R : A -> A -> Prop) (l1 l2 : list A) :
  StronglySorted R (l1 ++ l2) ->
  StronglySorted R l1 /\ (forall a b, In a l1 -> In b l2 -> R a b).
Proof.
  induction l1 as [|x l1 IH]; simpl; intros H.
  - split; [constructor | intros a b []].
  - inversion H as [|? ? Hs Hall]; subst. destruct (IH Hs) as [H1 H2].
    split.
    + constructor; [exact H1|].
      rewrite List.Forall_forall in *. intros y Hy. apply Hall. apply in_or_app. now left.
    + intros a b [<-|Ha] Hb; [|now apply H2].
      rewrite List.Forall_forall in Hall. apply Hall. apply in_or_app. now right.
Qed.

(** X4.  The common errors of the summary are the (up to) five most frequent
    distinct errors gathered from the results that failed: no error is
    listed twice, the list goes from most to least frequent, no error left
    out is more frequent than one listed, and fewer than five are listed
    only when there are no others. *)
Theorem common_errors_most_frequent (results : list GenerationResult) :
  let all_errors := concat (map reported results) in
  let common := common_errors (snd (fst (validate_batch results))) in
  (length common <= 5)%nat
  /\ List.NoDup common
  /\ (forall e, In e common -> In e all_errors)
  /\ StronglySorted (fun a b => occurrences all_errors b <= occurrences all_errors a) common
  /\ (forall e e', In e common -> In e' all_errors -> ~ In e' common ->
        occurrences all_errors e' <= occurrences all_errors e)
  /\ ((length common < 5)%nat -> forall e, In e all_errors -> In e common).
Proof.
  intros all_errors common.
  destruct (validate_batch_parts results) as (_ & _ & Hc).
  subst common. rewrite Hc. fold all_errors. clear Hc. unfold most_common.
  set (lt := fun a b : string * Z => snd a <? snd b).
  set (S := sorted_desc lt (Counter all_errors)).
  destruct (Counter_spec all_errors) as (Hnd & Hcount & Hkeys).
  assert (Hperm : Permutation S (Counter all_errors)) by apply sorted_desc_perm.
  assert (HndS : List.NoDup (map fst S)).
  { eapply Permutation_NoDup; [|exact Hnd]. symmetry. now apply Permutation_map. }
  assert (Hocc : forall x n, In (x, n) S -> n = occurrences all_errors x).
  { intros x n Hin. rewrite <- Hcount. symmetry. apply counted_in; [exact Hnd|].
    eapply Permutation_in; [exact Hperm | exact Hin]. }
  assert (Hsorted : StronglySorted (fun a b => snd b <= snd a) S).
  { apply (sorted_desc_sorted lt snd). intros a b. unfold lt. apply Z.ltb_lt. }
  assert (Hsplit : S = firstn 5 S ++ skipn 5 S) by (symmetry; apply firstn_skipn).
  destruct (StronglySorted_app_inv (fun a b : string * Z => snd b <= snd a)
              (firstn 5 S) (skipn 5 S)) as [Hs1 Hs2];
    [now rewrite <- Hsplit|].
  assert (HinT : forall p, In p (firstn 5 S) -> In p S).
  { intros p Hp. rewrite Hsplit. apply in_or_app. now left. }
  split; [rewrite length_map; apply firstn_le_length|].
  split.
  { rewrite Hsplit, map_app in HndS. eapply NoDup_app_remove_r. exact HndS. }
  split.
  { intros e He. apply Hkeys. apply in_map_iff in He as ([x n] & <- & Hp).
    eapply Permutation_in; [apply Permutation_map; exact Hperm|].
    apply in_map_iff. exists (x, n). split; [reflexivity | now apply HinT]. }
  split.
  { assert (Hgen : forall T, StronglySorted (fun a b : string * Z => snd b <= snd a) T ->
              (forall p, In p T -> In p S) ->
              StronglySorted
                (fun a b => occurrences all_errors b <= occurrences all_errors a)
                (map fst T)).
    { induction 1 as [|[x n] T HT IH Hall]; intros Hin; simpl; [constructor|].
      constructor.
      - apply IH. intros p Hp. apply Hin. now right.
      - rewrite List.Forall_forall in *. intros e He.
        apply in_map_iff in He as ([y m] & <- & Hp). simpl.
        rewrite <- (Hocc x n) by (apply Hin; now left).
        rewrite <- (Hocc y m) by (apply Hin; now right).
        exact (Hall _ Hp). }
    now apply Hgen. }
  split.
  { intros e e' He He' Hne'.
    apply in_map_iff in He as ([x n] & <- & Hp). simpl.
    apply Hkeys in He'.
    assert (He'S : In e' (map fst S)).
    { eapply Permutation_in; [symmetry; apply Permutation_map; exact Hperm | exact He']. }
    apply in_map_iff in He'S as ([y m] & <- & Hq). simpl in *.
    rewrite Hsplit in Hq. apply in_app_or in Hq as [Hq|Hq].
    - exfalso. apply Hne'. apply in_map_iff. now exists (y, m).
    - rewrite <- (Hocc x n) by now apply HinT.
      rewrite <- (Hocc y m) by (rewrite Hsplit; apply in_or_app; now right).
      exact (Hs2 _ _ Hp Hq). }
  intros Hshort e He. rewrite length_map in Hshort.
  assert (Hall5 : firstn 5 S = S).
  { apply firstn_all2. rewrite length_firstn in Hshort. lia. }
  rewrite Hall5. apply Hkeys in He.
  eapply Permutation_in; [symmetry; apply Permutation_map; exact Hperm | exact He].
Qed.

(** X5.  What is written for the valid results of a batch: one record per
    valid result, in order, each the dump of the result's record with the
    result's trace_id added. *)
Theorem save_valid_data_of_batch (results : list GenerationResult) :
  let valid_results := fst (fst (validate_batch results)) in
  Forall2
    (fun r rec =>
       exists qa, qa_pair r = Some qa
         /\ rec = <["trace_id" := JStr (trace_id r)]> (model_dump qa)
         /\ rec !! "trace_id" = Some (JStr (trace_id r))
         /\ delete "trace_id" rec = model_dump qa)
    valid_results (save_valid_data valid_results).
Proof.
  intros valid_results. subst valid_results.
  destruct (validate_batch_parts results) as (-> & _ & _).
  induction results as [|r rs IH]; simpl; [constructor|].
  destruct (fst (validate_structure r)) eqn:E; [|exact IH].
  destruct (validate_structure_true_valid r E) as [_ Hq].
  unfold save_valid_data. simpl.
  destruct (qa_pair r) as [qa|] eqn:Eq; [|congruence].
  constructor; [|exact IH].
  exists qa. split; [exact Eq|]. split; [reflexivity|].
  split; [apply lookup_insert_eq|].
  apply delete_insert_id. reflexivity.
Qed.

End ValidationFacts.

(** ** Dumping a record and building it again *)

Module RoundTripFacts.
Import Py PyFacts Models ModelsFacts ModelsClaims.

(** The stored text fields meet their documented minimum lengths. *)
Definition mins_ok (qa : DIYRepairQA) : Prop :=
  10 <= len (question qa) /\ 20 <= len (answer qa)
  /\ 5 <= len (equipment_problem qa)
  /\ 10 <= len (safety_info qa) /\ 10 <= len (tips qa).

Lemma model_dump_lookup (qa : DIYRepairQA) :
  model_dump qa !! "question" = Some (JStr (question qa))
  /\ model_dump qa !! "answer" = Some (JStr (answer qa))
  /\ model_dump qa !! "equipment_problem" = Some (JStr (equipment_problem qa))
  /\ model_dump qa !! "tools_required" = Some (JArr (map JStr (tools_required qa)))
  /\ model_dump qa !! "steps" = Some (JArr (map JStr (steps qa)))
  /\ model_dump qa !! "safety_info" = Some (JStr (safety_info qa))
  /\ model_dump qa !! "tips" = Some (JStr (tips qa)).
Proof. repeat split; reflexivity. Qed.

Lemma str_field_stored name min max (d : gmap string json) v :
  d !! name = Some (JStr v) -> text_ok max v ->
  (min <= len v -> str_field name min max d = inr v)
  /\ (len v < min -> exists e, str_field name min max d = inl e).
Proof.
  intros Hd (Hs & Hne & Hmax). unfold str_field, validate_text_fields. rewrite Hd.
  split; intros Hmin.
  - destruct (len v <? min) eqn:E1; [apply Z.ltb_lt in E1; lia|].
    destruct (max <? len v) eqn:E2; [apply Z.ltb_lt in E2; lia|].
    now rewrite Hs, Hne.
  - destruct (len v <? min) eqn:E1; [eauto | apply Z.ltb_ge in E1; lia].
Qed.

Lemma str_items_strings name (l : list string) : forall i,
  str_items name i (map JStr l) = ([], l).
Proof.
  induction l as [|x l IH]; intros i; simpl; [reflexivity|]. now rewrite IH.
Qed.

Lemma list_field_stored name min max validator msg (d : gmap string json) l :
  (forall items, validator items =
     if negb (forallb (fun x => nonempty (strip x)) items)
     then inl msg else inr (map strip items)) ->
  d !! name = Some (JArr (map JStr l)) -> items_ok min max l ->
  list_field name min max validator d = inr l.
Proof.
  intros Hval Hd [Hlen Hall]. unfold list_field. rewrite Hd, length_map.
  destruct (max <? Z.of_nat (length l)) eqn:E1; [apply Z.ltb_lt in E1; lia|].
  rewrite str_items_strings.
  destruct (Z.of_nat (length l) <? min) eqn:E2; [apply Z.ltb_lt in E2; lia|].
  rewrite Hval.
  assert (H1 : forallb (fun x => nonempty (strip x)) l = true).
  { apply forallb_forall. intros x Hx. rewrite List.Forall_forall in Hall.
    destruct (Hall x Hx) as [-> ->]. reflexivity. }
  assert (H2 : map strip l = l).
  { clear -Hall. induction Hall as [|x l [Hx _] _ IH]; simpl; congruence. }
  now rewrite H1, H2.
Qed.

(** X6.  A record the model built goes through its dump unchanged when its
    stored text fields meet the minimum lengths; when one of them is
    shorter (it was padded with blanks when it was accepted), building the
    record again from its dump raises a validation error. *)
Theorem model_dump_rebuild (data : json) (qa : DIYRepairQA) :
  DIYRepairQA_new data = inr qa ->
  (mins_ok qa -> DIYRepairQA_new (JObj (model_dump qa)) = inr qa)
  /\ (~ mins_ok qa ->
      exists errors, errors <> []
        /\ DIYRepairQA_new (JObj (model_dump qa)) = inl (ValidationError errors)).
Proof.
  intros Hnew.
  apply DIYRepairQA_new_inr in Hnew
    as (d & _ & [_ Oq] & [_ Oa] & [_ Oe] & Ot & Os & [_ Osi] & [_ Oti]).
  destruct (model_dump_lookup qa) as (Lq & La & Le & Lt & Ls & Lsi & Lti).
  pose proof (str_field_stored "question" 10 500 _ _ Lq Oq) as [Pq Nq].
  pose proof (str_field_stored "answer" 20 2000 _ _ La Oa) as [Pa Na].
  pose proof (str_field_stored "equipment_problem" 5 200 _ _ Le Oe) as [Pe Ne].
  pose proof (str_field_stored "safety_info" 10 500 _ _ Lsi Osi) as [Psi Nsi].
  pose proof (str_field_stored "tips" 10 500 _ _ Lti Oti) as [Pti Nti].
  pose proof (list_field_stored "tools_required" 1 15 validate_tools _ _ _
                (fun _ => eq_refl) Lt Ot) as Pt.
  pose proof (list_field_stored "steps" 2 20 validate_steps _ _ _
                (fun _ => eq_refl) Ls Os) as Ps.
  split.
  - intros (Mq & Ma & Me & Msi & Mti).
    unfold DIYRepairQA_new, f_question, f_answer, f_equipment_problem,
      f_tools_required, f_steps, f_safety_info, f_tips.
    rewrite (Pq Mq), (Pa Ma), (Pe Me), Pt, Ps, (Psi Msi), (Pti Mti).
    now destruct qa.
  - intros Hbad.
    assert (Hv : (1 <= violated_fields (model_dump qa))%nat).
    { unfold violated_fields, f_question, f_answer, f_equipment_problem,
        f_tools_required, f_steps, f_safety_info, f_tips.
      rewrite Pt, Ps.
      destruct (Z_lt_le_dec (len (question qa)) 10) as [H|Hq];
        [destruct (Nq H) as [e ->]; simpl; lia|].
      destruct (Z_lt_le_dec (len (answer qa)) 20) as [H|Ha];
        [destruct (Na H) as [e ->]; simpl; lia|].
      destruct (Z_lt_le_dec (len (equipment_problem qa)) 5) as [H|He];
        [destruct (Ne H) as [e ->]; simpl; lia|].
      destruct (Z_lt_le_dec (len (safety_info qa)) 10) as [H|Hsi];
        [destruct (Nsi H) as [e ->]; simpl; lia|].
      destruct (Z_lt_le_dec (len (tips qa)) 10) as [H|Hti];
        [destruct (Nti H) as [e ->]; simpl; lia|].
      exfalso. apply Hbad. unfold mins_ok. auto. }
    exists (field_errors (model_dump qa)). split.
    + pose proof (violated_fields_reported (model_dump qa)) as Hr.
      intros E. rewrite E in Hr. simpl in Hr. lia.
    + now apply DIYRepairQA_new_violated.
Qed.

Lemma model_dump_rebuild_witness :
  (mins_ok Stub.leaky_faucet_qa ->
   DIYRepairQA_new (JObj (model_dump Stub.leaky_faucet_qa)) = inr Stub.leaky_faucet_qa)
  /\ (~ mins_ok Stub.leaky_faucet_qa ->
      exists errors, errors <> []
        /\ DIYRepairQA_new (JObj (model_dump Stub.leaky_faucet_qa))
           = inl (ValidationError errors)).
Proof.
  apply (model_dump_rebuild (JObj (list_to_map Stub.leaky_faucet)) Stub.leaky_faucet_qa).
  vm_compute. reflexivity.
Defined.

End RoundTripFacts.

(** ** Labelling a batch *)

Module LabelingFacts.
Import Py PyFacts Models Gateway FailureLabeling LabelingBatch JudgeClaims.

Section Labeling.

Variable W : Type.
Variable create : Request -> M W string.
Variable format : string -> DIYRepairQA -> string + string.
Variable int : string -> option Z.
Variable str_of_exception : Exception -> string.
Variable uuid4 : M W string.
Variable model : string.

#[local] Abbreviation evaluate := (evaluate_qa_pair W create format int model).
#[local] Abbreviation evaluate_value := (evaluate_as W create format int model).
#[local] Abbreviation loop := (label_loop W create format int str_of_exception uuid4 model).
#[local] Abbreviation label_all :=
  (create_failure_labeled_dataframe W create format int str_of_exception uuid4 model).
#[local] Abbreviation build := (rebuild str_of_exception).

(** The row that the scores and raw responses [outs] of the six modes
    give. *)
Definition row_of (qa_pair : DIYRepairQA) (trace_id : string) (outs : list (Z * string))
    : gmap string json :=
  let results : gmap string json :=
    <["tips" := JStr (tips qa_pair)]>
    (<["safety_info" := JStr (safety_info qa_pair)]>
    (<["steps" := JArr (map JStr (steps qa_pair))]>
    (<["tools_required" := JArr (map JStr (tools_required qa_pair))]>
    (<["equipment_problem" := JStr (equipment_problem qa_pair)]>
    (<["answer" := JStr (answer qa_pair)]>
    (<["question" := JStr (question qa_pair)]>
    (<["trace_id" := JStr trace_id]> ∅))))))) in
  let results := fold_left record_score (combine get_failure_modes outs) results in
  <["failure_count" := JInt (0 + total outs)]>
    (<["overall_failure" := JInt (if 0 <? 0 + total outs then 1 else 0)]> results).

Lemma evaluate_qa_pair_row qa trace_id w :
  exists outs w',
    evaluate qa trace_id w = (inr (row_of qa trace_id outs), w')
    /\ length outs = 6%nat
    /\ Forall (fun o => fst o = 0 \/ fst o = 1) outs.
Proof.
  unfold evaluate_qa_pair, self_failure_modes.
  match goal with |- context [evaluate_modes _ _ _ _ _ _ ?ms ?res ?c] =>
    destruct (evaluate_modes_spec W create format int model qa ms res c w)
      as (outs & w' & Hrun & Hlen & Hall)
  end.
  exists outs, w'. unfold mbind, M_bind, bind. rewrite Hrun.
  split; [reflexivity|]. split; [exact Hlen | exact Hall].
Qed.

(** What every row holds, whatever the scores. *)
Lemma row_of_fields qa trace_id outs :
  length outs = 6%nat ->
  row_of qa trace_id outs !! "trace_id" = Some (JStr trace_id)
  /\ row_of qa trace_id outs !! "question" = Some (JStr (question qa))
  /\ row_of qa trace_id outs !! "answer" = Some (JStr (answer qa))
  /\ row_of qa trace_id outs !! "equipment_problem" = Some (JStr (equipment_problem qa))
  /\ row_of qa trace_id outs !! "tools_required"
     = Some (JArr (map JStr (tools_required qa)))
  /\ row_of qa trace_id outs !! "steps" = Some (JArr (map JStr (steps qa)))
  /\ row_of qa trace_id outs !! "safety_info" = Some (JStr (safety_info qa))
  /\ row_of qa trace_id outs !! "tips" = Some (JStr (tips qa))
  /\ row_of qa trace_id outs !! "overall_failure"
     = Some (JInt (if 0 <? 0 + total outs then 1 else 0))
  /\ dom (row_of qa trace_id outs)
     = list_to_set
         ([ "trace_id"; "question"; "answer"; "equipment_problem"; "tools_required";
            "steps"; "safety_info"; "tips"; "overall_failure"; "failure_count" ]
          ++ FAILURE_MODE_NAMES
          ++ map (fun n => n +:+ "_response") FAILURE_MODE_NAMES).
Proof.
  intros Hlen.
  destruct outs as [|[s1 r1] [|[s2 r2] [|[s3 r3] [|[s4 r4] [|[s5 r5] [|[s6 r6] [|? ?]]]]]]];
    try discriminate Hlen.
  unfold row_of. generalize (0 + total [(s1, r1); (s2, r2); (s3, r3); (s4, r4); (s5, r5); (s6, r6)]).
  intros n. generalize (if 0 <? n then 1 else 0). intros o.
  repeat split; vm_compute; reflexivity.
Qed.

(** X7.  The row of a record carries the record: [evaluate_qa_pair] always
    returns a row with the trace_id, the seven fields of the record as
    they are, and exactly the 22 columns of the labelled data (ten fixed
    ones, a score and a raw response for each of the six modes). *)
Theorem evaluate_qa_pair_row_shape (qa_pair : DIYRepairQA) (trace_id : string) (w : W) :
  exists (r : gmap string json) (w' : W),
    evaluate qa_pair trace_id w = (inr r, w')
    /\ r !! "trace_id" = Some (JStr trace_id)
    /\ r !! "question" = Some (JStr (question qa_pair))
    /\ r !! "answer" = Some (JStr (answer qa_pair))
    /\ r !! "equipment_problem" = Some (JStr (equipment_problem qa_pair))
    /\ r !! "tools_required" = Some (JArr (map JStr (tools_required qa_pair)))
    /\ r !! "steps" = Some (JArr (map JStr (steps qa_pair)))
    /\ r !! "safety_info" = Some (JStr (safety_info qa_pair))
    /\ r !! "tips" = Some (JStr (tips qa_pair))
    /\ dom r
       = list_to_set
           ([ "trace_id"; "question"; "answer"; "equipment_problem"; "tools_required";
              "steps"; "safety_info"; "tips"; "overall_failure"; "failure_count" ]
            ++ FAILURE_MODE_NAMES
            ++ map (fun n => n +:+ "_response") FAILURE_MODE_NAMES)
    /\ size (dom r) = 22%nat.
Proof.
  destruct (evaluate_qa_pair_row qa_pair trace_id w) as (outs & w' & Hrun & Hlen & _).
  destruct (row_of_fields qa_pair trace_id outs Hlen)
    as (H1 & H2 & H3 & H4 & H5 & H6 & H7 & H8 & _ & Hdom).
  exists (row_of qa_pair trace_id outs), w'.
  repeat (split; [assumption|]).
  rewrite Hdom. vm_compute. reflexivity.
Qed.

(** What a row of the batch has to do with its record. *)
Definition labels (qa_dict row : gmap string json) : Prop :=
  (forall tid, qa_dict !! "trace_id" = Some tid -> row !! "trace_id" = Some tid)
  /\ (qa_dict !! "trace_id" = None -> exists fresh, row !! "trace_id" = Some (JStr fresh))
  /\ (exists o, row !! "overall_failure" = Some (JInt o) /\ (o = 0 \/ o = 1)).

Lemma evaluate_as_row qa (v : json) w :
  exists r w',
    evaluate_value qa v w = (inr r, w')
    /\ r !! "trace_id" = Some v
    /\ exists o, r !! "overall_failure" = Some (JInt o) /\ (o = 0 \/ o = 1).
Proof.
  assert (Hbin : forall n : Z, (if 0 <? n then 1 else 0) = 0 \/ (if 0 <? n then 1 else 0) = 1)
    by (intros n; destruct (0 <? n); auto).
  assert (Hother : forall v', v' = v ->
    exists r w',
      (results ← evaluate qa ""; mret (<["trace_id" := v]> results)) w = (inr r, w')
      /\ r !! "trace_id" = Some v
      /\ exists o, r !! "overall_failure" = Some (JInt o) /\ (o = 0 \/ o = 1)).
  { intros _ _.
    destruct (evaluate_qa_pair_row qa "" w) as (outs & w' & Hrun & Hlen & _).
    destruct (row_of_fields qa "" outs Hlen) as (_ & _ & _ & _ & _ & _ & _ & _ & Ho & _).
    eexists _, w'. unfold mbind, M_bind, bind. rewrite Hrun.
    split; [reflexivity|]. split; [apply lookup_insert_eq|].
    eexists. rewrite lookup_insert_ne by discriminate. split; [exact Ho | apply Hbin]. }
  destruct v as [|b|n|s|l|m]; simpl; try (apply (Hother _ eq_refl)).
  destruct (evaluate_qa_pair_row qa s w) as (outs & w' & Hrun & Hlen & _).
  destruct (row_of_fields qa s outs Hlen) as (Ht & _ & _ & _ & _ & _ & _ & _ & Ho & _).
  eexists _, w'. split; [exact Hrun|]. split; [exact Ht|].
  eexists. split; [exact Ho | apply Hbin].
Qed.

Lemma label_loop_length qa_data : forall labeled_data w rows w',
  loop qa_data labeled_data w = (inr rows, w') ->
  length rows = (length labeled_data + length qa_data)%nat.
Proof.
  induction qa_data as [|d rest IH]; intros labeled w rows w'; simpl.
  - unfold mret, M_ret, ret. intros [= <- _]. lia.
  - unfold mbind, M_bind, bind, lift.
    destruct (build d) as [e|qa]; [discriminate|].
    destruct (uuid4 w) as [[e|u] w1]; [discriminate|].
    destruct (evaluate_value qa _ w1) as [[e|r] w2]; [discriminate|].
    intros H. apply IH in H. rewrite length_app in H. simpl in H. lia.
Qed.

(** X8.  If the labelling returns, it returns one row per record, and at least
    one: on an empty list it raises (the closing report reads a column
    that a frame without rows does not have). *)
Theorem labeling_returns_one_row_per_record
    (qa_data rows : list (gmap string json)) (w w' : W) :
  label_all qa_data w = (inr rows, w') ->
  length rows = length qa_data /\ qa_data <> []
  /\ label_all [] w = (inl "KeyError: 'overall_failure'", w).
Proof.
  unfold create_failure_labeled_dataframe, mbind, M_bind, bind.
  destruct (loop qa_data [] w) as [[e|labeled] w1] eqn:E; [discriminate|].
  destruct labeled as [|row labeled]; [discriminate|].
  unfold mret, M_ret, ret. intros [= <- <-].
  apply label_loop_length in E. simpl in *.
  split; [lia|]. split; [|reflexivity].
  intros ->. simpl in E. lia.
Qed.

Hypothesis uuid4_returns : forall w, exists u w', uuid4 w = (inr u, w').

Lemma label_loop_ok qa_data : forall labeled_data w,
  Forall (fun d => exists qa, build d = inr qa) qa_data ->
  exists rows w',
    loop qa_data labeled_data w = (inr (labeled_data ++ rows), w')
    /\ Forall2 labels qa_data rows.
Proof.
  induction qa_data as [|d rest IH]; intros labeled w Hall; simpl.
  - exists [], w. rewrite app_nil_r. split; [reflexivity | constructor].
  - inversion Hall as [|? ? [qa Hqa] Hrest]; subst.
    destruct (uuid4_returns w) as (u & w1 & Hu).
    destruct (evaluate_as_row qa (default (JStr u) (d !! "trace_id")) w1)
      as (r & w2 & Hr & Htid & Ho).
    destruct (IH (labeled ++ [r]) w2 Hrest) as (rows & w' & Hloop & Hrows).
    exists (r :: rows), w'. unfold mbind, M_bind, bind, lift.
    rewrite Hqa, Hu, Hr, Hloop. rewrite <- app_assoc. split; [reflexivity|].
    constructor; [|exact Hrows].
    split; [|split; [|exact Ho]].
    + intros tid Hd. now rewrite Hd in Htid.
    + intros Hd. rewrite Hd in Htid. eauto.
Qed.

(** X9.  When every record builds again, the labelling never aborts, whatever
    the gateway does: it returns one row per record, in order, each with
    the trace_id of its record (a fresh one when the record has none) and
    an overall_failure that is 0 or 1. *)
Theorem labeling_labels_every_record (qa_data : list (gmap string json)) (w : W) :
  qa_data <> [] ->
  Forall (fun d => exists qa, build d = inr qa) qa_data ->
  exists rows w',
    label_all qa_data w = (inr rows, w') /\ Forall2 labels qa_data rows.
Proof.
  intros Hne Hall.
  destruct (label_loop_ok qa_data [] w Hall) as (rows & w' & Hloop & Hrows).
  exists rows, w'. unfold create_failure_labeled_dataframe, mbind, M_bind, bind.
  rewrite Hloop. simpl. split; [|exact Hrows].
  destruct rows; [|reflexivity].
  inversion Hrows; subst. congruence.
Qed.

(** X10.  One record that does not build again aborts the whole labelling: the
    validation error leaves the function, and the rows of the records
    before it are lost. *)
Theorem labeling_aborts_on_unbuildable_record
    (before after : list (gmap string json)) (bad : gmap string json)
    (e : string) (w : W) :
  Forall (fun d => exists qa, build d = inr qa) before ->
  build bad = inl e ->
  exists w', label_all (before ++ bad :: after) w = (inl e, w').
Proof.
  intros Hbefore Hbad.
  assert (H : forall labeled w0,
            exists w', loop (before ++ bad :: after) labeled w0 = (inl e, w')).
  { induction Hbefore as [|d rest [qa Hqa] _ IH]; intros labeled w0; simpl.
    - exists w0. unfold mbind, M_bind, bind, lift. now rewrite Hbad.
    - destruct (uuid4_returns w0) as (u & w1 & Hu).
      destruct (evaluate_as_row qa (default (JStr u) (d !! "trace_id")) w1)
        as (r & w2 & Hr & _).
      destruct (IH (labeled ++ [r]) w2) as [w' Hw'].
      exists w'. unfold mbind, M_bind, bind, lift. now rewrite Hqa, Hu, Hr. }
  destruct (H [] w) as [w' Hw']. exists w'.
  unfold create_failure_labeled_dataframe, mbind, M_bind, bind. now rewrite Hw'.
Qed.

End Labeling.

(** Two records of the file that the validation writes, and one whose
    question is too short for the model. *)
Definition first_record : gmap string json :=
  <["trace_id" := JStr "t1"]> (list_to_map Stub.leaky_faucet).
Definition second_record : gmap string json := list_to_map Stub.leaky_faucet.
Definition short_record : gmap string json :=
  <["trace_id" := JStr "t3"]>
    (list_to_map (Stub.with_members [("question", JStr "Why?")] Stub.leaky_faucet)).

(** A judge that copies the template, and a gateway script that answers
    the first calls. *)
Definition plain_format (template : string) (qa_pair : DIYRepairQA) : string + string :=
  inr template.
Definition twelve_replies : Stub.World :=
  [inr "0"; inr "1"; inr "0"; inr "0"; inr "maybe"; inr "0";
   inr "0"; inr "0"; inr "0"; inr "0"; inr "0"; inr "0"].

Definition label_run (qa_data : list (gmap string json)) (w : Stub.World)
    : (string + list (gmap string json)) * Stub.World :=
  create_failure_labeled_dataframe Stub.World Stub.create plain_format int_of_str
    Stub.str_of_exception Stub.uuid4 "gpt-3.5-turbo" qa_data w.

Definition rows_of_run (qa_data : list (gmap string json)) (w : Stub.World)
    : list (gmap string json) :=
  match fst (label_run qa_data w) with
  | inr rows => rows
  | inl _ => []
  end.

(** A run that returned is the pair of its rows and its last world. *)
Lemma label_run_returned qa_data w :
  match fst (label_run qa_data w) with inr _ => True | inl _ => False end ->
  label_run qa_data w = (inr (rows_of_run qa_data w), snd (label_run qa_data w)).
Proof.
  unfold rows_of_run. destruct (label_run qa_data w) as [[e|rows] w']; simpl; tauto.
Qed.

Lemma labeling_returns_one_row_per_record_witness :
  length (rows_of_run [first_record; second_record] twelve_replies) = 2%nat
  /\ [first_record; second_record] <> []
  /\ label_run [] twelve_replies = (inl "KeyError: 'overall_failure'", twelve_replies).
Proof.
  apply (labeling_returns_one_row_per_record Stub.World Stub.create plain_format
           int_of_str Stub.str_of_exception Stub.uuid4 "gpt-3.5-turbo"
           [first_record; second_record]
           (rows_of_run [first_record; second_record] twelve_replies)
           twelve_replies
           (snd (label_run [first_record; second_record] twelve_replies))).
  apply label_run_returned. vm_compute. exact I.
Defined.

Lemma stub_uuid4_returns : forall w, exists u w', Stub.uuid4 w = (inr u, w').
Proof. intros w. eexists _, _. reflexivity. Qed.

Lemma first_record_builds :
  exists qa, rebuild Stub.str_of_exception first_record = inr qa.
Proof. eexists. vm_compute. reflexivity. Qed.

Lemma second_record_builds :
  exists qa, rebuild Stub.str_of_exception second_record = inr qa.
Proof. eexists. vm_compute. reflexivity. Qed.

Lemma labeling_labels_every_record_witness :
  exists rows w',
    label_run [first_record; second_record] twelve_replies = (inr rows, w')
    /\ Forall2 labels [first_record; second_record] rows.
Proof.
  apply (labeling_labels_every_record Stub.World Stub.create plain_format
           int_of_str Stub.str_of_exception Stub.uuid4 "gpt-3.5-turbo"
           stub_uuid4_returns [first_record; second_record] twelve_replies).
  - discriminate.
  - constructor; [exact first_record_builds|].
    constructor; [exact second_record_builds | constructor].
Defined.

Definition short_record_error : string :=
  match rebuild Stub.str_of_exception short_record with
  | inl e => e
  | inr _ => ""
  end.

Lemma labeling_aborts_on_unbuildable_record_witness :
  exists w',
    label_run ([first_record] ++ short_record :: [second_record]) twelve_replies
    = (inl short_record_error, w').
Proof.
  apply (labeling_aborts_on_unbuildable_record Stub.World Stub.create plain_format
           int_of_str Stub.str_of_exception Stub.uuid4 "gpt-3.5-turbo"
           stub_uuid4_returns [first_record] [second_record] short_record
           short_record_error twelve_replies).
  - constructor; [exact first_record_builds | constructor].
  - vm_compute. reflexivity.
Defined.

End LabelingFacts.

(** ** Running the corrector *)

Module CorrectorFacts.
Import Py PyFacts Models Gateway FailureLabeling CorrectionPhase CorrectionRun
  ModelsFacts CorrectorClaims.

(** The generic line, and the line of a taxonomy mode with the judge's
    success criterion and the instruction of the table. *)
Definition quality_line : string :=
  "- Improve overall quality so it would pass all 6 quality checks.".

Definition mode_line (m : FailureMode) (how : string) : string :=
  "- **" +:+ name m +:+ "**: Judge expects: " +:+ dq +:+ success_criteria m +:+ dq
  +:+ " → To fix: " +:+ how.

Lemma fix_line_of_mode (n : string) :
  In n FAILURE_MODE_NAMES ->
  exists m how, In m get_failure_modes /\ name m = n
    /\ FIX_INSTRUCTIONS !! n = Some how /\ fix_line n = mode_line m how.
Proof.
  intros Hn. simpl in Hn.
  destruct Hn as [<-|[<-|[<-|[<-|[<-|[<-|[]]]]]]].
  - exists mode_incomplete_answer. eexists. split; [simpl; tauto|].
    split; [reflexivity|]. split; vm_compute; reflexivity.
  - exists mode_safety_violations. eexists. split; [simpl; tauto|].
    split; [reflexivity|]. split; vm_compute; reflexivity.
  - exists mode_unrealistic_tools. eexists. split; [simpl; tauto|].
    split; [reflexivity|]. split; vm_compute; reflexivity.
  - exists mode_overcomplicated_solution. eexists. split; [simpl; tauto|].
    split; [reflexivity|]. split; vm_compute; reflexivity.
  - exists mode_missing_context. eexists. split; [simpl; tauto|].
    split; [reflexivity|]. split; vm_compute; reflexivity.
  - exists mode_poor_quality_tips. eexists. split; [simpl; tauto|].
    split; [reflexivity|]. split; vm_compute; reflexivity.
Qed.

(** X11.  The fix section of every prompt has at least one line.  It is the
    generic quality line alone exactly when the record has no mode flagged
    1; otherwise it has one line per flagged mode, in taxonomy order, each
    citing that mode's success criterion from the judge and its
    instruction from the table: neither fallback text is ever used. *)
Theorem fix_section_lines_cite_flagged_modes (failed_qa_pair : gmap string json) :
  let flagged :=
    List.filter (fun n => eq_one (get failed_qa_pair n)) FAILURE_MODE_NAMES in
  let lines := map fix_line (failed_modes failed_qa_pair) in
  lines <> []
  /\ (flagged = [] -> lines = [quality_line])
  /\ (flagged <> [] ->
      Forall2
        (fun n line =>
           exists m how, In m get_failure_modes /\ name m = n
             /\ eq_one (get failed_qa_pair n) = true
             /\ FIX_INSTRUCTIONS !! n = Some how /\ line = mode_line m how)
        flagged lines).
Proof.
  intros flagged lines. subst lines. unfold failed_modes. fold flagged.
  assert (Hsub : forall n, In n flagged ->
            In n FAILURE_MODE_NAMES /\ eq_one (get failed_qa_pair n) = true).
  { intros n Hn. now apply filter_In in Hn. }
  destruct flagged as [|n0 rest] eqn:E.
  - split; [discriminate|]. split; [reflexivity | congruence].
  - split; [discriminate|]. split; [discriminate|]. intros _.
    revert Hsub. generalize (n0 :: rest). clear.
    induction l as [|n l IH]; intros Hsub; simpl; constructor.
    + destruct (Hsub n (or_introl eq_refl)) as [Hin Hflag].
      destruct (fix_line_of_mode n Hin) as (m & how & Hm & Hn & Hfix & Hline).
      exists m, how. auto.
    + apply IH. intros n' Hn'. apply Hsub. now right.
Qed.

Section Corrector.

Variable W : Type.
Variable create : Request -> M W string.
Variable json_loads : string -> Loads.
Variable str_of_exception : Exception -> string.
Variable now_isoformat : M W string.
Variable self_model : string.
Variable _create_correction_prompt : gmap string json -> string.

#[local] Abbreviation correct_one :=
  (correct_single_qa W create json_loads str_of_exception now_isoformat self_model
     _create_correction_prompt).
#[local] Abbreviation correct_rest :=
  (correct_loop W create json_loads str_of_exception now_isoformat self_model
     _create_correction_prompt).
#[local] Abbreviation correct_all :=
  (correct_batch W create json_loads str_of_exception now_isoformat self_model
     _create_correction_prompt).
#[local] Abbreviation request := (correction_request self_model _create_correction_prompt).

(** What a correction result has to do with the failed record it is for:
    the same trace_id (the empty string when the record has none), and
    either is_valid true with the dump of a record the model built and no
    error, or is_valid false with no record and one error. *)
Definition corrects (failed_qa_pair r : gmap string json) : Prop :=
  r !! "trace_id" = Some (default (JStr "") (failed_qa_pair !! "trace_id"))
  /\ (exists raw, r !! "raw_response" = Some (JStr raw))
  /\ ((r !! "is_valid" = Some (JBool true)
       /\ r !! "validation_errors" = Some (JArr [])
       /\ exists data qa, DIYRepairQA_new data = inr qa
            /\ r !! "qa_pair" = Some (JObj (model_dump qa)))
      \/ (r !! "is_valid" = Some (JBool false)
          /\ r !! "qa_pair" = Some JNull
          /\ exists e, r !! "validation_errors" = Some (JArr [JStr e]))).

Lemma correct_single_qa_returns failed_qa_pair w content w1 timestamp w2 :
  create (request failed_qa_pair) w = (inr content, w1) ->
  (forall e, json_loads (strip content) <> OtherError e) ->
  now_isoformat w1 = (inr timestamp, w2) ->
  exists r, correct_one failed_qa_pair w = (inr r, w2) /\ corrects failed_qa_pair r.
Proof.
  intros Hc Hd Hn. unfold correct_single_qa, mbind, M_bind, bind, lift.
  unfold correction_request in Hc. rewrite Hc.
  unfold validate_json_structure.
  destruct (json_loads (strip content)) as [data|e|e] eqn:El.
  - destruct (DIYRepairQA_new data) as [e|qa] eqn:En.
    + rewrite Hn. unfold mret, M_ret, ret. eexists. split; [reflexivity|]. unfold corrects.
      generalize (default (JStr "") (failed_qa_pair !! "trace_id")). intros v.
      split; [vm_compute; reflexivity|]. split; [eexists; vm_compute; reflexivity|].
      right. split; [vm_compute; reflexivity|]. split; [vm_compute; reflexivity|].
      eexists. simpl. vm_compute. reflexivity.
    + rewrite Hn. unfold mret, M_ret, ret. eexists. split; [reflexivity|]. unfold corrects.
      generalize (default (JStr "") (failed_qa_pair !! "trace_id")). intros v.
      split; [vm_compute; reflexivity|]. split; [eexists; vm_compute; reflexivity|].
      left. split; [vm_compute; reflexivity|]. split; [vm_compute; reflexivity|].
      exists data, qa. split; [exact En|].
      generalize (model_dump qa). intros m. vm_compute. reflexivity.
  - rewrite Hn. unfold mret, M_ret, ret. eexists. split; [reflexivity|]. unfold corrects.
    generalize (default (JStr "") (failed_qa_pair !! "trace_id")). intros v.
    split; [vm_compute; reflexivity|]. split; [eexists; vm_compute; reflexivity|].
    right. split; [vm_compute; reflexivity|]. split; [vm_compute; reflexivity|].
    eexists. simpl. vm_compute. reflexivity.
  - exfalso. exact (Hd e eq_refl).
Qed.

(** What [json.loads] raises beyond [JSONDecodeError] leaves
    [correct_single_qa]: neither [validate_json_structure] nor the
    corrector has a handler for it. *)
Lemma correct_single_qa_raises_on_reply failed_qa_pair w content w1 e :
  create (request failed_qa_pair) w = (inr content, w1) ->
  json_loads (strip content) = OtherError e ->
  correct_one failed_qa_pair w = (inl e, w1).
Proof.
  intros Hc Hl. unfold correct_single_qa, mbind, M_bind, bind, lift.
  unfold correction_request in Hc. rewrite Hc.
  unfold validate_json_structure. rewrite Hl. reflexivity.
Qed.

(** X25.  A reply that [json.loads] cannot take aborts the correction of
    the batch.  When the gateway answers a record with a text on which
    [json.loads] raises something other than [JSONDecodeError] (a
    RecursionError on deep nesting, a ValueError on an integer literal
    beyond the digit limit), the exception leaves [correct_batch]: no
    result list is returned, neither for the records corrected before
    nor for those after. *)
Theorem correct_batch_aborts_on_reply
    (before after : list (gmap string json)) (failed_qa_pair : gmap string json)
    (e : string) (w : W) :
  (forall p w0, In p before -> exists r w1, correct_one p w0 = (inr r, w1)) ->
  (forall w0, exists content w1,
      create (request failed_qa_pair) w0 = (inr content, w1)
      /\ json_loads (strip content) = OtherError e) ->
  exists w', correct_all (before ++ failed_qa_pair :: after) w = (inl e, w').
Proof.
  intros Hok Hfail. unfold correct_batch. generalize (@nil (gmap string json)).
  revert w. induction before as [|p before IH]; intros w results; simpl.
  - destruct (Hfail w) as (content & w1 & Hc & Hl). exists w1.
    unfold mbind, M_bind, bind.
    now rewrite (correct_single_qa_raises_on_reply _ _ _ _ _ Hc Hl).
  - destruct (Hok p w (or_introl eq_refl)) as (r & w1 & H1).
    unfold mbind, M_bind, bind. rewrite H1.
    apply IH. intros q w0 Hq. apply Hok. now right.
Qed.

Hypothesis create_returns :
  forall req w, exists content w',
    create req w = (inr content, w')
    /\ forall e, json_loads (strip content) <> OtherError e.
Hypothesis now_returns : forall w, exists timestamp w', now_isoformat w = (inr timestamp, w').

Lemma correct_single_qa_ok failed_qa_pair w :
  exists r w', correct_one failed_qa_pair w = (inr r, w') /\ corrects failed_qa_pair r.
Proof.
  destruct (create_returns (request failed_qa_pair) w) as (content & w1 & Hc & Hd).
  destruct (now_returns w1) as (timestamp & w2 & Hn).
  destruct (correct_single_qa_returns _ _ _ _ _ _ Hc Hd Hn) as (r & Hr & Hcor).
  exists r, w2. auto.
Qed.

Lemma correct_loop_ok failed_qa_pairs : forall results w,
  exists new w',
    correct_rest failed_qa_pairs results w = (inr (results ++ new), w')
    /\ Forall2 corrects failed_qa_pairs new.
Proof.
  induction failed_qa_pairs as [|p rest IH]; intros results w; simpl.
  - exists [], w. rewrite app_nil_r. split; [reflexivity | constructor].
  - destruct (correct_single_qa_ok p w) as (r & w1 & Hr & Hcor).
    destruct (IH (results ++ [r]) w1) as (new & w' & Hloop & Hnew).
    exists (r :: new), w'. unfold mbind, M_bind, bind. rewrite Hr, Hloop.
    rewrite <- app_assoc. split; [reflexivity|]. now constructor.
Qed.

(** X12.  While the gateway answers with texts on which [json.loads]
    raises nothing but [JSONDecodeError], and the clock returns, the
    corrector gives one result per failed record, in order; each carries
    the trace_id of its record, and is either valid with the dump of a
    record that the model built and no error, or invalid with no record
    and exactly one error.  Among such answers, what the gateway says
    decides only which of the two. *)
Theorem correct_batch_one_result_per_record
    (failed_qa_pairs : list (gmap string json)) (w : W) :
  exists results w',
    correct_all failed_qa_pairs w = (inr results, w')
    /\ Forall2 corrects failed_qa_pairs results.
Proof.
  destruct (correct_loop_ok failed_qa_pairs [] w) as (new & w' & Hloop & Hnew).
  exists new, w'. split; [exact Hloop | exact Hnew].
Qed.

End Corrector.

Section Run.

Variable W : Type.
Variable create : Request -> M W string.
Variable json_loads : string -> Loads.
Variable str_of_exception : Exception -> string.
Variable now_isoformat : M W string.
Variable format_value : json -> string.
Variable model : string.

#[local] Abbreviation run :=
  (run_correction_phase W create json_loads str_of_exception now_isoformat format_value
     model).

(** The records that the correction phase sends: those whose
    overall_failure equals 1. *)
Definition failed_records (all_pairs : list (gmap string json))
    : list (gmap string json) :=
  List.filter (fun p => eq_one (get p "overall_failure")) all_pairs.

Hypothesis create_returns :
  forall req w, exists content w',
    create req w = (inr content, w')
    /\ forall e, json_loads (strip content) <> OtherError e.
Hypothesis now_returns : forall w, exists timestamp w', now_isoformat w = (inr timestamp, w').

(** X13.  The correction phase corrects the failed records and only
    them: while the gateway answers with texts on which [json.loads]
    raises nothing but [JSONDecodeError], and the clock returns, it
    returns one result per record whose overall_failure equals 1, in the
    order of the input, and nothing for the others.  When no record
    failed it returns the empty list without a single call: the world is
    left as it was. *)
Theorem run_correction_phase_corrects_failed_only
    (all_pairs : list (gmap string json)) (w : W) :
  exists results w',
    run all_pairs w = (inr results, w')
    /\ Forall2 corrects (failed_records all_pairs) results
    /\ (failed_records all_pairs = [] -> results = [] /\ w' = w).
Proof.
  unfold run_correction_phase. fold (failed_records all_pairs).
  destruct (failed_records all_pairs) as [|p rest] eqn:E.
  - exists [], w. split; [reflexivity|]. split; [constructor | auto].
  - destruct (correct_loop_ok W create json_loads str_of_exception now_isoformat model
                (_create_correction_prompt format_value) create_returns now_returns
                (p :: rest) [] w) as (results & w' & Hrun & Hall).
    exists results, w'. split; [exact Hrun|]. split; [exact Hall | discriminate].
Qed.

End Run.

(** A gateway that answers every call, with a record on the even calls
    and with prose on the odd ones; the world counts the calls. *)
Definition alternating (r : Request) : M nat string :=
  fun n => (inr (if Nat.even n then Stub.object_text Stub.leaky_faucet else "Sorry, no."),
            S n).
Definition clock : M nat string := fun n => (inr "2026-01-01T00:00:00", n).

(** A record that passed the judge. *)
Definition passed_t0 : gmap string json :=
  <["overall_failure" := JInt 0]>
    (<["trace_id" := JStr "t0"]> (list_to_map Stub.leaky_faucet)).

Lemma alternating_returns :
  forall req w, exists content w',
    alternating req w = (inr content, w')
    /\ forall e, Stub.loads_object Stub.leaky_faucet (strip content) <> OtherError e.
Proof.
  intros req w. eexists _, _. split; [reflexivity|].
  intros e. unfold Stub.loads_object, Stub.loads_table.
  destruct (String.eqb _ _); discriminate.
Qed.

Lemma clock_returns : forall w, exists timestamp w', clock w = (inr timestamp, w').
Proof. intros w. eexists _, _. reflexivity. Qed.

Lemma correct_batch_one_result_per_record_witness :
  exists results w',
    correct_batch nat alternating (Stub.loads_object Stub.leaky_faucet)
      Stub.str_of_exception clock "gpt-3.5-turbo"
      (_create_correction_prompt Stub.json_text) [failed_t1; failed_t2] 0%nat
    = (inr results, w')
    /\ Forall2 corrects [failed_t1; failed_t2] results.
Proof.
  apply (correct_batch_one_result_per_record nat alternating
           (Stub.loads_object Stub.leaky_faucet) Stub.str_of_exception clock
           "gpt-3.5-turbo" (_create_correction_prompt Stub.json_text)
           alternating_returns clock_returns [failed_t1; failed_t2] 0%nat).
Defined.

Lemma run_correction_phase_corrects_failed_only_witness :
  exists results w',
    run_correction_phase nat alternating (Stub.loads_object Stub.leaky_faucet)
      Stub.str_of_exception clock Stub.json_text "gpt-3.5-turbo"
      [failed_t1; passed_t0; failed_t2] 0%nat
    = (inr results, w')
    /\ Forall2 corrects (failed_records [failed_t1; passed_t0; failed_t2]) results
    /\ (failed_records [failed_t1; passed_t0; failed_t2] = [] -> results = [] /\ w' = 0%nat).
Proof.
  apply (run_correction_phase_corrects_failed_only nat alternating
           (Stub.loads_object Stub.leaky_faucet) Stub.str_of_exception clock
           Stub.json_text "gpt-3.5-turbo" alternating_returns clock_returns
           [failed_t1; passed_t0; failed_t2] 0%nat).
Defined.

(** An integer literal of 4301 digits, and a decoder with the digit
    limit of the interpreter: on a literal of more than 4300 digits
    [json.loads] raises a ValueError that is not a JSONDecodeError. *)
Definition long_integer : string := string_of_list_ascii (repeat "1"%char 4301).

Definition is_digit (c : ascii) : bool :=
  let n := nat_of_ascii c in Nat.leb 48 n && Nat.leb n 57.

Definition loads_with_digit_limit (s : string) : Loads :=
  if Nat.ltb 4300 (String.length s) && forallb is_digit (list_ascii_of_string s)
  then OtherError "Exceeds the limit (4300 digits) for integer string conversion"
  else Stub.loads_object Stub.leaky_faucet s.

(** A prompt that is the trace_id of the record, and a gateway that
    answers the record t2 with the long integer and every other one with
    the faucet record. *)
Definition prompt_of_trace_id (failed_qa_pair : gmap string json) : string :=
  match failed_qa_pair !! "trace_id" with
  | Some (JStr tid) => tid
  | _ => ""
  end.

Definition answers_by_record (r : Request) : M unit string :=
  fun w => (inr (if String.eqb (user_content r) "t2" then long_integer
                 else Stub.object_text Stub.leaky_faucet), w).

Definition always : M unit string := fun w => (inr "2026-01-01T00:00:00", w).

Lemma long_integer_raises :
  loads_with_digit_limit (strip long_integer)
  = OtherError "Exceeds the limit (4300 digits) for integer string conversion".
Proof. vm_compute. reflexivity. Qed.

Lemma t1_is_corrected (p : gmap string json) (w0 : unit) :
  In p [failed_t1] ->
  exists r w1,
    correct_single_qa unit answers_by_record loads_with_digit_limit Stub.str_of_exception
      always "gpt-3.5-turbo" prompt_of_trace_id p w0 = (inr r, w1).
Proof.
  intros [<-|[]]. destruct w0.
  set (res := correct_single_qa unit answers_by_record loads_with_digit_limit
                Stub.str_of_exception always "gpt-3.5-turbo" prompt_of_trace_id
                failed_t1 tt).
  assert (H : match fst res with inr _ => True | inl _ => False end)
    by (vm_compute; exact I).
  destruct res as [[e|r] w1]; [destruct H | eauto].
Qed.

Lemma t2_is_answered_with_long_integer (w0 : unit) :
  exists content w1,
    answers_by_record (correction_request "gpt-3.5-turbo" prompt_of_trace_id failed_t2) w0
    = (inr content, w1)
    /\ loads_with_digit_limit (strip content)
       = OtherError "Exceeds the limit (4300 digits) for integer string conversion".
Proof. exists long_integer, w0. split; [reflexivity | exact long_integer_raises]. Qed.

Lemma correct_batch_aborts_on_reply_witness :
  exists w',
    correct_batch unit answers_by_record loads_with_digit_limit Stub.str_of_exception
      always "gpt-3.5-turbo" prompt_of_trace_id ([failed_t1] ++ failed_t2 :: [failed_t1]) tt
    = (inl "Exceeds the limit (4300 digits) for integer string conversion", w').
Proof.
  apply (correct_batch_aborts_on_reply unit answers_by_record loads_with_digit_limit
           Stub.str_of_exception always "gpt-3.5-turbo" prompt_of_trace_id
           [failed_t1] [failed_t1] failed_t2
           "Exceeds the limit (4300 digits) for integer string conversion" tt).
  - intros p w0. apply t1_is_corrected.
  - exact t2_is_answered_with_long_integer.
Defined.

End CorrectorFacts.

(** ** Generating a batch *)

Module GeneratorFacts.
Import Py PyFacts Models Gateway GenerationPhase GenerationBatch ValidationPhase
  ModelsFacts ModelsClaims.

(** What the generator promises of a result: valid with a record that the
    model built and no error, or invalid with no record and exactly one
    error. *)
Definition well_formed (r : GenerationResult) : Prop :=
  (is_valid r = true /\ validation_errors r = []
   /\ exists data qa, qa_pair r = Some qa /\ DIYRepairQA_new data = inr qa)
  \/ (is_valid r = false /\ qa_pair r = None /\ exists e, validation_errors r = [e]).

(** The validation after the generator rejects nothing the generator
    accepted. *)
Lemma well_formed_validate_structure r :
  well_formed r -> fst (validate_structure r) = is_valid r.
Proof.
  intros [(Hv & _ & data & qa & Hq & Hnew)|(Hv & _ & _)].
  - rewrite (validate_structure_model_built data qa r Hnew Hv Hq). now rewrite Hv.
  - unfold validate_structure. now rewrite Hv.
Qed.

(** X14.  The validation phase after the generation phase: of results that the
    generator made, the batch validation keeps exactly those marked
    valid, so the count of valid samples is the count of valid flags. *)
Theorem validate_batch_keeps_generator_verdicts (results : list GenerationResult) :
  Forall well_formed results ->
  fst (fst (validate_batch results)) = List.filter is_valid results
  /\ valid_samples (snd (fst (validate_batch results)))
     = Z.of_nat (length (List.filter is_valid results)).
Proof.
  intros Hall.
  destruct (ValidationFacts.validate_batch_parts results) as (Hv & _ & _).
  assert (Hf : fst (fst (validate_batch results)) = List.filter is_valid results).
  { rewrite Hv. clear Hv. induction Hall as [|r rs Hr _ IH]; simpl; [reflexivity|].
    rewrite (well_formed_validate_structure r Hr), IH. reflexivity. }
  split; [exact Hf|].
  rewrite <- Hf. unfold validate_batch.
  rewrite ValidationFacts.validate_loop_full. reflexivity.
Qed.

Section Generator.

Variable W : Type.
Variable create : Request -> M W string.
Variable json_loads : string -> Loads.
Variable str_of_exception : Exception -> string.
Variable now_isoformat : M W string.
Variable uuid4 : M W string.
Variable self_model : string.
Variable self_prompt_templates : list Template.
Variable choice : list Template -> M W Template.

#[local] Abbreviation generate_one :=
  (generate_single_qa W create json_loads str_of_exception now_isoformat uuid4 self_model).
#[local] Abbreviation generate_rest :=
  (generate_loop W create json_loads str_of_exception now_isoformat uuid4 self_model
     self_prompt_templates choice).
#[local] Abbreviation generate_all :=
  (generate_batch W create json_loads str_of_exception now_isoformat uuid4 self_model
     self_prompt_templates choice).

(** The request that the generator sends for a template. *)
Definition generation_request (template : Template) : Request := {|
  model := self_model;
  system_content := t_system template;
  user_content := t_user template;
  temperature := 0.7;
  max_tokens := 1500 |}.

(** The result for a gateway call that raised. *)
Definition generation_error (trace_id timestamp e : string) : GenerationResult := {|
  trace_id := trace_id; qa_pair := None; raw_response := ""; is_valid := false;
  validation_errors := ["Generation error: " +:+ e];
  generation_timestamp := timestamp |}.

Lemma generate_single_qa_after_ids template w tid w1 timestamp w2 :
  uuid4 w = (inr tid, w1) ->
  now_isoformat w1 = (inr timestamp, w2) ->
  exists r w',
    generate_one template w = (inr r, w')
    /\ trace_id r = tid /\ generation_timestamp r = timestamp
    /\ well_formed r
    /\ (forall e w3, create (generation_request template) w2 = (inl e, w3) ->
        r = generation_error tid timestamp e /\ w' = w3)
    /\ (forall content e w3,
          create (generation_request template) w2 = (inr content, w3) ->
          json_loads (strip content) = OtherError e ->
          r = generation_error tid timestamp e /\ w' = w3).
Proof.
  intros Hu Hn. unfold generate_single_qa, mbind, M_bind, bind, try_except.
  rewrite Hu, Hn. fold (generation_request template).
  destruct (create (generation_request template) w2) as [[e|content] w3] eqn:Ec.
  - eexists _, _. split; [reflexivity|]. simpl.
    split; [reflexivity|]. split; [reflexivity|].
    split; [right; simpl; eauto|].
    split; [|intros ? ? ? [=]].
    intros e' w3' [= <- <-]. split; reflexivity.
  - unfold validate_json_structure, lift.
    destruct (json_loads (strip content)) as [data|e|e] eqn:El.
    + destruct (DIYRepairQA_new data) as [e|qa] eqn:En.
      * eexists _, _. split; [reflexivity|]. simpl.
        split; [reflexivity|]. split; [reflexivity|].
        split; [right; simpl; eauto|].
        split; [intros ? ? [=]|]. intros c' e' w3' [= <- <-]. congruence.
      * eexists _, _. split; [reflexivity|]. simpl.
        split; [reflexivity|]. split; [reflexivity|].
        split; [left; simpl; eauto 6|].
        split; [intros ? ? [=]|]. intros c' e' w3' [= <- <-]. congruence.
    + eexists _, _. split; [reflexivity|]. simpl.
      split; [reflexivity|]. split; [reflexivity|].
      split; [right; simpl; eauto|].
      split; [intros ? ? [=]|]. intros c' e' w3' [= <- <-]. congruence.
    + eexists _, _. split; [reflexivity|]. simpl.
      split; [reflexivity|]. split; [reflexivity|].
      split; [right; simpl; eauto|].
      split; [intros ? ? [=]|]. intros c' e' w3' [= <- <-] He.
      rewrite El in He. injection He as <-. split; reflexivity.
Qed.

(** X15.  The generator contains every failure of its gateway call, of the
    decoding and of the model: once the identifier and the timestamp are
    drawn, [generate_single_qa] returns a result, never an exception.  The
    result has the identifier and the timestamp, and is either valid with
    a record that the model built and no error, or invalid with no record
    and one error; when the gateway raised [e], it is the error result
    with the text Generation error: [e] and an empty raw response. *)
Theorem generate_single_qa_never_raises
    (template : Template) (w w1 w2 : W) (tid timestamp : string) :
  uuid4 w = (inr tid, w1) ->
  now_isoformat w1 = (inr timestamp, w2) ->
  exists r w',
    generate_one template w = (inr r, w')
    /\ trace_id r = tid /\ generation_timestamp r = timestamp
    /\ well_formed r
    /\ (forall e w3, create (generation_request template) w2 = (inl e, w3) ->
        r = generation_error tid timestamp e /\ w' = w3).
Proof.
  intros Hu Hn.
  destruct (generate_single_qa_after_ids template w tid w1 timestamp w2 Hu Hn)
    as (r & w' & Hr & Ht & Hts & Hwf & Herr & _).
  exists r, w'. auto.
Qed.

Hypothesis uuid4_returns : forall w, exists u w', uuid4 w = (inr u, w').
Hypothesis now_returns : forall w, exists timestamp w', now_isoformat w = (inr timestamp, w').
Hypothesis choice_returns :
  forall w, exists template w', choice self_prompt_templates w = (inr template, w').

Lemma generate_loop_ok (n : nat) : forall results w,
  exists new w',
    generate_rest n results w = (inr (results ++ new), w')
    /\ length new = n /\ Forall well_formed new.
Proof.
  induction n as [|n IH]; intros results w; simpl.
  - exists [], w. rewrite app_nil_r. split; [reflexivity|]. split; [reflexivity | constructor].
  - destruct (choice_returns w) as (t & w0 & Hc).
    destruct (uuid4_returns w0) as (u & w1 & Hu).
    destruct (now_returns w1) as (ts & w2 & Hn).
    destruct (generate_single_qa_after_ids t w0 u w1 ts w2 Hu Hn)
      as (r & w3 & Hr & _ & _ & Hwf & _).
    destruct (IH (results ++ [r]) w3) as (new & w' & Hloop & Hlen & Hall).
    exists (r :: new), w'. unfold mbind, M_bind, bind. rewrite Hc, Hr, Hloop.
    rewrite <- app_assoc. split; [reflexivity|].
    split; [simpl; lia | now constructor].
Qed.

(** X16.  A batch always comes back complete, whatever the gateway does: while
    the template choice, the identifier and the clock return,
    [generate_batch] returns exactly [num_samples] results (none for a
    count that is not positive), each valid with a built record or invalid with
    one error; a failed call costs one invalid result, never the batch. *)
Theorem generate_batch_returns_num_samples (num_samples : Z) (w : W) :
  exists results w',
    generate_all num_samples w = (inr results, w')
    /\ Z.of_nat (length results) = Z.max 0 num_samples
    /\ Forall well_formed results.
Proof.
  destruct (generate_loop_ok (Z.to_nat num_samples) [] w) as (new & w' & Hloop & Hlen & Hall).
  exists new, w'. split; [exact Hloop|]. split; [lia | exact Hall].
Qed.

End Generator.

(** A gateway that fails on every second call, with a counter as the
    world. *)
Definition flaky (r : Request) : M nat string :=
  fun n => (if Nat.even n then inr (Stub.object_text Stub.leaky_faucet)
            else inl "Connection error.", S n).
Definition clock : M nat string := fun n => (inr "2026-01-01T00:00:00", n).
Definition numbered : M nat string := fun n => (inr (pretty n), n).
Definition first_template (l : list Template) : M nat Template :=
  fun n => match l with
           | t :: _ => (inr t, n)
           | [] => (inl "IndexError: Cannot choose from an empty sequence", n)
           end.
Definition plumbing : Template :=
  {| t_name := "plumbing_repair"; t_system := "system"; t_user := "user" |}.

Lemma generate_single_qa_never_raises_witness :
  exists r w',
    generate_single_qa nat flaky (Stub.loads_object Stub.leaky_faucet)
      Stub.str_of_exception clock numbered "gpt-3.5-turbo" plumbing 1%nat = (inr r, w')
    /\ trace_id r = "1" /\ generation_timestamp r = "2026-01-01T00:00:00"
    /\ well_formed r
    /\ (forall e w3,
          flaky (generation_request "gpt-3.5-turbo" plumbing) 1%nat = (inl e, w3) ->
          r = generation_error "1" "2026-01-01T00:00:00" e /\ w' = w3).
Proof.
  apply (generate_single_qa_never_raises nat flaky (Stub.loads_object Stub.leaky_faucet)
           Stub.str_of_exception clock numbered "gpt-3.5-turbo" plumbing
           1%nat 1%nat 1%nat "1" "2026-01-01T00:00:00").
  - vm_compute. reflexivity.
  - vm_compute. reflexivity.
Defined.

Lemma generate_batch_returns_num_samples_witness :
  exists results w',
    generate_batch nat flaky (Stub.loads_object Stub.leaky_faucet)
      Stub.str_of_exception clock numbered "gpt-3.5-turbo" [plumbing] first_template
      3 0%nat = (inr results, w')
    /\ Z.of_nat (length results) = Z.max 0 3
    /\ Forall well_formed results.
Proof.
  apply (generate_batch_returns_num_samples nat flaky (Stub.loads_object Stub.leaky_faucet)
           Stub.str_of_exception clock numbered "gpt-3.5-turbo" [plumbing] first_template).
  - intros w. eexists _, _. reflexivity.
  - intros w. eexists _, _. reflexivity.
  - intros w. eexists _, _. reflexivity.
Defined.

(** Two results as the generator makes them. *)
Definition generated_valid : GenerationResult := {|
  trace_id := "0"; qa_pair := Some Stub.leaky_faucet_qa;
  raw_response := Stub.object_text Stub.leaky_faucet; is_valid := true;
  validation_errors := []; generation_timestamp := "2026-01-01T00:00:00" |}.
Definition generated_error : GenerationResult := {|
  trace_id := "1"; qa_pair := None; raw_response := ""; is_valid := false;
  validation_errors := ["Generation error: Connection error."];
  generation_timestamp := "2026-01-01T00:00:00" |}.

Lemma generated_valid_well_formed : well_formed generated_valid.
Proof.
  left. split; [reflexivity|]. split; [reflexivity|].
  exists (JObj (list_to_map Stub.leaky_faucet)), Stub.leaky_faucet_qa.
  split; [reflexivity | vm_compute; reflexivity].
Qed.

Lemma generated_error_well_formed : well_formed generated_error.
Proof. right. split; [reflexivity|]. split; [reflexivity|]. eexists. reflexivity. Qed.

Lemma validate_batch_keeps_generator_verdicts_witness :
  fst (fst (validate_batch [generated_valid; generated_error; generated_valid]))
  = List.filter is_valid [generated_valid; generated_error; generated_valid]
  /\ valid_samples (snd (fst (validate_batch [generated_valid; generated_error; generated_valid])))
     = Z.of_nat (length (List.filter is_valid [generated_valid; generated_error; generated_valid])).
Proof.
  apply (validate_batch_keeps_generator_verdicts
           [generated_valid; generated_error; generated_valid]).
  apply List.Forall_cons; [exact generated_valid_well_formed|].
  apply List.Forall_cons; [exact generated_error_well_formed|].
  apply List.Forall_cons; [exact generated_valid_well_formed|].
  apply List.Forall_nil.
Defined.

End GeneratorFacts.

(** ** From the phases to the merge *)

Module PipelineFacts.
Import Py Models MergeCorrectedQA ValidationOutput MergeClaims.
Import LabelingFacts CorrectorFacts.

(** Every record that [save_valid_data] writes has a string as trace_id. *)
Lemma save_valid_data_trace_id valid_results rec :
  In rec (save_valid_data valid_results) ->
  exists tid, rec !! "trace_id" = Some (JStr tid).
Proof.
  unfold save_valid_data. induction valid_results as [|r rs IH]; simpl; [tauto|].
  destruct (qa_pair r) as [qa|]; simpl; [|exact IH].
  intros [<-|Hin]; [|auto]. eexists. apply lookup_insert_eq.
Qed.

Lemma Forall2_In_r {A B : Type} (P : A -> B -> Prop) l k y :
  Forall2 P l k -> In y k -> exists x, In x l /\ P x y.
Proof.
  induction 1 as [|x y' l k Hxy _ IH]; simpl; [tauto|].
  intros [<-|Hin]; [eauto|]. destruct (IH Hin) as (x' & Hx' & HP). eauto.
Qed.

Lemma Forall_map_JObj (P : json -> Prop) (l : list (gmap string json)) :
  (forall d, In d l -> P (JObj d)) -> Forall P (map JObj l).
Proof.
  intros H. apply List.Forall_forall. intros x Hx.
  apply in_map_iff in Hx as (d & <- & Hd). auto.
Qed.

(** X17.  From the corrector to the merge.  A result that corrects a record
    with a string as trace_id can be used by the merge exactly when it
    is valid and the trace_id is not empty: then it gives a record with
    that trace_id; an invalid result, or one for the empty trace_id, is
    never used, whatever it holds. *)
Theorem valid_correction_is_usable
    (failed_qa_pair r : gmap string json) (tid : string) :
  corrects failed_qa_pair r ->
  failed_qa_pair !! "trace_id" = Some (JStr tid) ->
  (r !! "is_valid" = Some (JBool true) -> tid <> "" ->
   exists c, usable (JObj r) (Some (inr tid)) c
             /\ c !! "trace_id" = Some (JStr tid))
  /\ (r !! "is_valid" = Some (JBool false) \/ tid = "" ->
      forall k c, ~ usable (JObj r) k c).
Proof.
  intros (Ht & _ & Hcases) Hp. rewrite Hp in Ht. simpl in Ht. split.
  - intros Hv Hne.
    destruct Hcases as [(_ & _ & data & qa & Hqa & Hq)|(Hf & _)]; [|congruence].
    exists (<["trace_id" := JStr tid]> (model_dump qa)).
    split; [|apply lookup_insert_eq].
    exists r, (model_dump qa). unfold get. rewrite Ht, Hv. simpl.
    split; [reflexivity|]. split.
    { destruct tid; [congruence | reflexivity]. }
    split; [reflexivity|]. split; [reflexivity|]. split; [exact Hq|].
    split; [|reflexivity].
    intros He. assert (H : model_dump qa !! "question" = None) by (rewrite He; apply lookup_empty).
    revert H. unfold model_dump. generalize (question qa). intros q.
    generalize (answer qa) (equipment_problem qa) (tools_required qa) (steps qa)
      (safety_info qa) (tips qa). intros. vm_compute in H. discriminate.
  - intros Hbad k c (d & qa & [= <-] & T1 & _ & T2 & _).
    unfold get in T1, T2. rewrite Ht in T1. simpl in T1.
    destruct Hbad as [Hf| ->]; [|discriminate].
    rewrite Hf in T2. discriminate.
Qed.

(** X18.  The three files that the phases write always merge.  For the records
    [valid_qa] that the validation saves, rows [labeled] that label them
    and results [corrected] that correct the failed rows, the merge raises
    nothing and returns one record per valid record, in order, each with
    the trace_id of the record at its place. *)
Theorem merge_accepts_pipeline_outputs
    (valid_results : list GenerationResult)
    (labeled corrected_list : list (gmap string json)) :
  let valid_qa := save_valid_data valid_results in
  Forall2 labels valid_qa labeled ->
  Forall2 corrects (failed_records labeled) corrected_list ->
  exists merged_records,
    merge_corrected_qa_records (map JObj valid_qa) (map JObj labeled)
      (map JObj corrected_list) = inr merged_records
    /\ length merged_records = length valid_qa
    /\ Forall2
         (fun rec out =>
            exists tid d, rec !! "trace_id" = Some (JStr tid)
              /\ out = JObj d /\ d !! "trace_id" = Some (JStr tid))
         valid_qa merged_records.
Proof.
  intros valid_qa Hlab Hcor.
  assert (Hvalid : forall d, In d valid_qa -> exists tid, d !! "trace_id" = Some (JStr tid)).
  { intros d. apply save_valid_data_trace_id. }
  assert (Hrows : forall r, In r labeled -> exists tid, r !! "trace_id" = Some (JStr tid)).
  { intros r Hr. destruct (Forall2_In_r _ _ _ _ Hlab Hr) as (d & Hd & Hl & _).
    destruct (Hvalid d Hd) as [tid Ht]. exists tid. auto. }
  assert (HJ : Forall judge_row_ok (map JObj labeled)).
  { apply Forall_map_JObj. intros r Hr. exists r. split; [reflexivity|].
    intros _. destruct (Hrows r Hr) as [tid Ht]. exists (JStr tid). eexists.
    split; [exact Ht | reflexivity]. }
  assert (HC : Forall correction_ok (map JObj corrected_list)).
  { apply Forall_map_JObj. intros r Hr. exists r. split; [reflexivity|].
    destruct (Forall2_In_r _ _ _ _ Hcor Hr) as (p & Hp & Ht & _ & Hcases).
    assert (Hp' : In p labeled) by (unfold failed_records in Hp; now apply filter_In in Hp).
    destruct (Hrows p Hp') as [tid Htid]. rewrite Htid in Ht. simpl in Ht.
    unfold get. rewrite Ht. simpl. intros T. split; [|eexists; reflexivity].
    destruct Hcases as [(_ & _ & data & qa & _ & Hq)|(_ & Hq & _)]; [eauto|].
    rewrite Hq in T. simpl in T. rewrite andb_false_r in T. discriminate. }
  assert (HV : Forall valid_record_ok (map JObj valid_qa)).
  { apply Forall_map_JObj. intros d Hd. destruct (Hvalid d Hd) as [tid Ht].
    exists d. eexists. split; [reflexivity|]. unfold get. rewrite Ht. reflexivity. }
  unfold merge_corrected_qa_records.
  destruct (failed_ids_total _ HJ) as [S HS]. rewrite HS.
  destruct (corrected_by_id_total _ HC ∅) as [m Hm]. rewrite Hm.
  destruct (merged_total (map JObj valid_qa) S m HV) as [M HM]. rewrite HM.
  destruct (merged_spec _ _ _ _ HM) as [Hlen Hrec].
  rewrite length_map in Hlen.
  exists M. split; [reflexivity|]. split; [exact Hlen|].
  apply Forall2_same_length_lookup_2; [now rewrite Hlen|].
  intros i rec out Hi Ho.
  assert (Hin : In rec valid_qa).
  { apply list_elem_of_In. eapply list_elem_of_lookup_2. exact Hi. }
  destruct (Hvalid rec Hin) as [tid Ht]. exists tid.
  destruct (Hrec i (JObj rec)) as (d & k & [= <-] & Hk & HMi).
  { rewrite list_lookup_fmap, Hi. reflexivity. }
  rewrite Ho in HMi. injection HMi as ->.
  unfold get in Hk. rewrite Ht in Hk. simpl in Hk. injection Hk as <-.
  match goal with |- context [bool_decide ?P] => destruct (bool_decide P) end; [|eauto].
  match goal with |- context [match ?x with Some _ => _ | None => _ end] =>
    destruct x as [c|] eqn:Ec end; [|eauto].
  exists c. split; [exact Ht|]. split; [reflexivity|].
  rewrite (corrected_by_id_spec _ _ _ Hm) in Ec.
  destruct (last_correction (map JObj corrected_list) (Some (inr tid))) as [c'|] eqn:El;
    [|rewrite lookup_empty in Ec; discriminate].
  injection Ec as ->.
  apply last_correction_Some in El as (j & r & _ & Hu & _).
  destruct Hu as (d' & qa & _ & _ & Hh & _ & _ & _ & ->).
  apply hash_key_str in Hh. rewrite Hh. apply lookup_insert_eq.
Qed.

(** A run of two records: the first fails the judge and is corrected. *)
Definition valid_t (tid : string) : GenerationResult := {|
  trace_id := tid; qa_pair := Some Stub.leaky_faucet_qa;
  raw_response := Stub.object_text Stub.leaky_faucet; is_valid := true;
  validation_errors := []; generation_timestamp := "2026-01-01T00:00:00" |}.

Definition row_t (tid : string) (overall_failure : Z) : gmap string json :=
  <["overall_failure" := JInt overall_failure]>
    (<["trace_id" := JStr tid]> (model_dump Stub.leaky_faucet_qa)).

Definition corrected_t (tid : string) : gmap string json :=
  <["generation_timestamp" := JStr "2026-01-02T00:00:00"]>
  (<["validation_errors" := JArr []]>
  (<["is_valid" := JBool true]>
  (<["raw_response" := JStr (Stub.object_text Stub.leaky_faucet)]>
  (<["qa_pair" := JObj (model_dump Stub.leaky_faucet_qa)]>
  (<["trace_id" := JStr tid]> ∅))))).

Lemma row_t_labels tid o :
  o = 0 \/ o = 1 ->
  labels (<["trace_id" := JStr tid]> (model_dump Stub.leaky_faucet_qa)) (row_t tid o).
Proof.
  intros Ho. split; [|split].
  - intros v. rewrite lookup_insert_eq. intros [= <-]. unfold row_t.
    rewrite lookup_insert_ne by discriminate. apply lookup_insert_eq.
  - rewrite lookup_insert_eq. discriminate.
  - exists o. split; [apply lookup_insert_eq | exact Ho].
Qed.

Lemma corrected_t_corrects tid o : corrects (row_t tid o) (corrected_t tid).
Proof.
  split; [|split].
  - unfold row_t. rewrite lookup_insert_ne by discriminate.
    rewrite lookup_insert_eq. reflexivity.
  - eexists. reflexivity.
  - left. split; [reflexivity|]. split; [reflexivity|].
    exists (JObj (list_to_map Stub.leaky_faucet)), Stub.leaky_faucet_qa.
    split; [vm_compute; reflexivity | reflexivity].
Qed.

Lemma merge_accepts_pipeline_outputs_witness :
  exists merged_records,
    merge_corrected_qa_records
      (map JObj (save_valid_data [valid_t "t1"; valid_t "t2"]))
      (map JObj [row_t "t1" 1; row_t "t2" 0]) (map JObj [corrected_t "t1"])
    = inr merged_records
    /\ length merged_records = length (save_valid_data [valid_t "t1"; valid_t "t2"])
    /\ Forall2
         (fun rec out =>
            exists tid d, rec !! "trace_id" = Some (JStr tid)
              /\ out = JObj d /\ d !! "trace_id" = Some (JStr tid))
         (save_valid_data [valid_t "t1"; valid_t "t2"]) merged_records.
Proof.
  apply (merge_accepts_pipeline_outputs [valid_t "t1"; valid_t "t2"]
           [row_t "t1" 1; row_t "t2" 0] [corrected_t "t1"]).
  - constructor; [apply row_t_labels; now right|].
    constructor; [apply row_t_labels; now left | constructor].
  - change (failed_records [row_t "t1" 1; row_t "t2" 0]) with [row_t "t1" 1].
    constructor; [apply corrected_t_corrects | constructor].
Defined.

Lemma valid_correction_is_usable_witness :
  (corrected_t "t1" !! "is_valid" = Some (JBool true) -> "t1" <> "" ->
   exists c, usable (JObj (corrected_t "t1")) (Some (inr "t1")) c
             /\ c !! "trace_id" = Some (JStr "t1"))
  /\ (corrected_t "t1" !! "is_valid" = Some (JBool false) \/ "t1" = "" ->
      forall k c, ~ usable (JObj (corrected_t "t1")) k c).
Proof.
  apply (valid_correction_is_usable (row_t "t1" 1) (corrected_t "t1") "t1").
  - apply corrected_t_corrects.
  - vm_compute. reflexivity.
Defined.

End PipelineFacts.

(** ** The analyzer's groups and lists *)

Module AnalysisFacts.
Import Py Config FailureAnalysis.

(** The name of a row's pattern. *)
Definition name_of (self : FailureAnalyzer) (row : Row) : string :=
  _pattern_to_name self (map (fun mode => getitem row mode) (failure_modes self)).

(** The positions of the rows of [self.df] whose pattern has the name
    [name], in increasing order. *)
Definition rows_named (self : FailureAnalyzer) (name : string) : list Z :=
  map fst (List.filter (fun e => String.eqb (name_of self (snd e)) name)
             (imap (fun i row => (Z.of_nat i, row)) (df self))).

Section Groups.

Context {R : Type} (nm : R -> string).

#[local] Abbreviation step :=
  (fun (patterns : list (string * list Z)) '(idx, row) =>
     patterns_append (nm row) idx patterns).

Definition members (name : string) (es : list (Z * R)) : list Z :=
  map fst (List.filter (fun e => String.eqb (nm (snd e)) name) es).

Lemma patterns_get_append n n' i p :
  patterns_get n (patterns_append n' i p)
  = if String.eqb n' n then Some (default [] (patterns_get n p) ++ [i])
    else patterns_get n p.
Proof.
  induction p as [|[k v] p IH]; simpl.
  - destruct (String.eqb n' n); reflexivity.
  - destruct (String.eqb k n') eqn:E1; simpl.
    + apply String.eqb_eq in E1. subst k.
      destruct (String.eqb n' n); reflexivity.
    + rewrite IH. destruct (String.eqb k n) eqn:E2; [|reflexivity].
      apply String.eqb_eq in E2. subst k. now rewrite String.eqb_sym, E1.
Qed.

Lemma patterns_get_fold es : forall p n,
  patterns_get n (fold_left step es p)
  = match members n es with
    | [] => patterns_get n p
    | l => Some (default [] (patterns_get n p) ++ l)
    end.
Proof.
  induction es as [|[idx row] es IH]; intros p n; simpl; [reflexivity|].
  rewrite IH, patterns_get_append. unfold members. simpl.
  destruct (String.eqb (nm row) n); simpl; [|reflexivity].
  destruct (map fst (List.filter _ es)) as [|j l]; simpl.
  - reflexivity.
  - now rewrite <- app_assoc.
Qed.

Lemma patterns_append_keys n i p k :
  In k (map fst (patterns_append n i p)) <-> k = n \/ In k (map fst p).
Proof.
  induction p as [|[k' v] p IH]; simpl.
  - intuition congruence.
  - destruct (String.eqb k' n) eqn:E; simpl.
    + apply String.eqb_eq in E. subst k'. intuition congruence.
    + rewrite IH. tauto.
Qed.

Lemma patterns_append_NoDup n i p :
  List.NoDup (map fst p) -> List.NoDup (map fst (patterns_append n i p)).
Proof.
  induction p as [|[k v] p IH]; simpl; intros Hnd.
  - repeat constructor. intros [].
  - inversion Hnd as [|? ? Hk Hp]; subst.
    destruct (String.eqb k n) eqn:E; simpl.
    + now constructor.
    + constructor; [|auto].
      rewrite patterns_append_keys. intros [->|H]; [|tauto].
      now rewrite String.eqb_refl in E.
Qed.

Lemma patterns_fold_NoDup es : forall p,
  List.NoDup (map fst p) -> List.NoDup (map fst (fold_left step es p)).
Proof.
  induction es as [|[idx row] es IH]; intros p Hp; simpl; [exact Hp|].
  apply IH. now apply patterns_append_NoDup.
Qed.

Lemma patterns_get_In p :
  List.NoDup (map fst p) ->
  forall n v, In (n, v) p <-> patterns_get n p = Some v.
Proof.
  induction p as [|[k w] p IH]; simpl; intros Hnd n v.
  - split; [tauto | discriminate].
  - inversion Hnd as [|? ? Hk Hp]; subst.
    destruct (String.eqb k n) eqn:E.
    + apply String.eqb_eq in E. subst k. split.
      * intros [[= ->]|Hin]; [reflexivity|].
        exfalso. apply Hk. apply in_map_iff. now exists (n, v).
      * intros [= ->]. now left.
    + rewrite <- (IH Hp). split; [|tauto].
      intros [[= -> ->]|Hin]; [|exact Hin].
      now rewrite String.eqb_refl in E.
Qed.

End Groups.

Lemma StronglySorted_sizes (l : list (string * list Z)) :
  StronglySorted
    (fun a b => Z.of_nat (length (snd b)) <= Z.of_nat (length (snd a))) l ->
  StronglySorted (fun a b => (length (snd b) <= length (snd a))%nat) l.
Proof.
  induction 1 as [|a l _ IH Hall]; constructor; [exact IH|].
  eapply Forall_impl; [exact Hall|]. simpl. intros; lia.
Qed.

(** X19.  The pattern groups partition the rows.  No name is listed twice and
    no group is empty; the group listed for a name is exactly the rows
    whose pattern has that name, by position and in increasing order, so
    every row is in the group of its own pattern and in no other; and
    the groups come largest first. *)
Theorem identify_failure_patterns_partition (self : FailureAnalyzer) :
  let patterns := identify_failure_patterns self in
  List.NoDup (map fst patterns)
  /\ (forall name idxs,
        In (name, idxs) patterns <-> idxs <> [] /\ idxs = rows_named self name)
  /\ (forall i row, df self !! i = Some row ->
        In (name_of self row, rows_named self (name_of self row)) patterns
        /\ In (Z.of_nat i) (rows_named self (name_of self row)))
  /\ StronglySorted (fun a b => (length (snd b) <= length (snd a))%nat) patterns.
Proof.
  intros patterns. subst patterns. unfold identify_failure_patterns.
  set (lt := fun a b : string * list Z => (length (snd a) <? length (snd b))%nat).
  set (es := imap (fun i row => (Z.of_nat i, row)) (df self)).
  set (groups := fold_left _ es []).
  assert (Hg : groups
               = fold_left (fun (patterns : list (string * list Z)) '(idx, row) =>
                              patterns_append (name_of self row) idx patterns) es [])
    by reflexivity.
  assert (Hperm : Permutation (sorted_desc lt groups) groups)
    by apply SortFacts.sorted_desc_perm.
  assert (Hnd : List.NoDup (map fst groups)).
  { rewrite Hg. apply patterns_fold_NoDup. constructor. }
  assert (Hin : forall name idxs,
            In (name, idxs) groups <-> idxs <> [] /\ idxs = rows_named self name).
  { intros name idxs. rewrite (patterns_get_In groups Hnd), Hg, patterns_get_fold.
    simpl. unfold rows_named. fold es.
    change (map fst (List.filter (fun e => String.eqb (name_of self (snd e)) name) es))
      with (members (name_of self) name es).
    destruct (members (name_of self) name es) as [|j l].
    - split; [discriminate | intros [H ->]; congruence].
    - split; [intros [= <-]; split; [discriminate | reflexivity]|].
      intros [_ ->]. reflexivity. }
  assert (Hrow : forall i row, df self !! i = Some row ->
            In (Z.of_nat i) (rows_named self (name_of self row))).
  { intros i row Hi. unfold rows_named. fold es. apply in_map_iff.
    exists (Z.of_nat i, row). split; [reflexivity|].
    apply filter_In. split; [|apply String.eqb_refl].
    apply list_elem_of_In. subst es. apply elem_of_lookup_imap. eauto. }
  split; [|split; [|split]].
  - eapply Permutation_NoDup; [|exact Hnd].
    apply Permutation_map. symmetry. exact Hperm.
  - intros name idxs. rewrite <- Hin. split; apply Permutation_in;
      [exact Hperm | symmetry; exact Hperm].
  - intros i row Hi. split; [|now apply (Hrow i)].
    apply (Permutation_in _ (Permutation_sym Hperm)). apply Hin.
    split; [|reflexivity]. intros He. specialize (Hrow i row Hi).
    rewrite He in Hrow. destruct Hrow.
  - apply StronglySorted_sizes.
    apply (SortFacts.sorted_desc_sorted lt (fun a => Z.of_nat (length (snd a)))).
    intros a b. unfold lt. rewrite Nat.ltb_lt. lia.
Qed.

(** The six-flag patterns of labelled data. *)
Definition binary6 (pattern : list Z) : Prop :=
  length pattern = 6%nat /\ Forall (fun x => x = 0 \/ x = 1) pattern.

(** The pattern with a given name, looked up among the 64 binary ones. *)
Definition all_patterns : list (list Z) :=
  let bits := [0; 1] in
  a ← bits; b ← bits; c ← bits; d ← bits; e ← bits; f ← bits; [[a; b; c; d; e; f]].

Definition pattern_named (name : string) : option (list Z) :=
  List.find (fun p => String.eqb (_pattern_to_name (init []) p) name) all_patterns.

Lemma pattern_named_name (data : DataFrame) (p : list Z) :
  binary6 p -> pattern_named (_pattern_to_name (init data) p) = Some p.
Proof.
  intros [Hlen Hall].
  destruct p as [|a [|b [|c [|d [|e [|f [|? ?]]]]]]]; try discriminate Hlen.
  repeat match goal with
         | H : Forall _ (_ :: _) |- _ => apply Forall_cons in H as [? H]
         end.
  repeat match goal with
         | H : _ = 0 \/ _ = 1 |- _ => destruct H as [-> | ->]
         end; vm_compute; reflexivity.
Qed.

(** X20.  On labelled data, where every flag is 0 or 1, the name of a pattern
    tells the pattern: two patterns with the same name are the same, so
    the groups by name are the groups by pattern. *)
Theorem pattern_name_tells_pattern (data : DataFrame) (p q : list Z) :
  binary6 p -> binary6 q ->
  _pattern_to_name (init data) p = _pattern_to_name (init data) q ->
  p = q.
Proof.
  intros Hp Hq Hname.
  apply (pattern_named_name data) in Hp. apply (pattern_named_name data) in Hq.
  rewrite Hname in Hp. congruence.
Qed.

Lemma pattern_name_tells_pattern_witness :
  [0; 1; 0; 0; 0; 1] = [0; 1; 0; 0; 0; 1].
Proof.
  apply (pattern_name_tells_pattern [] [0; 1; 0; 0; 0; 1] [0; 1; 0; 0; 0; 1]).
  - split; [reflexivity|]. repeat (apply List.Forall_cons; [lia|]). apply List.Forall_nil.
  - split; [reflexivity|]. repeat (apply List.Forall_cons; [lia|]). apply List.Forall_nil.
  - reflexivity.
Defined.

(** X21.  The two lists of the summary split the six modes: whatever the data
    (also when rates are not numbers), the three most common and the
    three least common failure modes have no mode in common and are,
    together, the six modes of the taxonomy. *)
Theorem most_and_least_common_split_modes (data : DataFrame) :
  let summary := generate_failure_summary (init data) in
  length (most_common_failures summary) = 3%nat
  /\ length (least_common_failures summary) = 3%nat
  /\ Permutation (most_common_failures summary ++ least_common_failures summary)
       FailureLabeling.FAILURE_MODE_NAMES
  /\ List.NoDup (most_common_failures summary ++ least_common_failures summary).
Proof.
  intros summary. subst summary. unfold generate_failure_summary, init.
  cbn [most_common_failures least_common_failures failure_modes df].
  match goal with |- context [sorted_desc ?lt ?l] =>
    set (sorted_modes := sorted_desc lt l);
    assert (Hperm : Permutation sorted_modes l) by apply SortFacts.sorted_desc_perm
  end.
  assert (Hlen : length sorted_modes = 6%nat)
    by (rewrite (Permutation_length Hperm); reflexivity).
  assert (Hsplit : firstn 3 sorted_modes ++ last3 sorted_modes = sorted_modes).
  { unfold last3. rewrite Hlen. apply firstn_skipn. }
  split; [rewrite length_firstn; lia|].
  split; [unfold last3; rewrite length_skipn; lia|].
  rewrite Hsplit. split; [exact Hperm|].
  eapply Permutation_NoDup; [symmetry; exact Hperm|].
  repeat (constructor; [simpl; intuition discriminate|]). constructor.
Qed.

(** The summary of an analyzer has a most common failure mode. *)
Lemma summary_has_top_mode (data : DataFrame) :
  exists top others,
    most_common_failures (generate_failure_summary (init data)) = top :: others.
Proof.
  unfold generate_failure_summary, init.
  cbn [most_common_failures failure_modes df].
  match goal with |- context [sorted_desc ?lt ?l] =>
    set (sorted_modes := sorted_desc lt l);
    assert (Hperm : Permutation sorted_modes l) by apply SortFacts.sorted_desc_perm
  end.
  apply Permutation_length in Hperm.
  change (length FailureLabeling.FAILURE_MODE_NAMES) with 6%nat in Hperm.
  destruct sorted_modes as [|top [|m2 [|m3 rest]]]; try discriminate Hperm.
  simpl. eauto.
Qed.

Section Recommendations.

Variable format_percent : nat -> float -> string.

(** X22.  The report never fails on its recommendations: for every labelled
    frame, also the empty one, [_generate_recommendations] on the
    analyzer's own summary and patterns returns between one and four
    recommendations. *)
Theorem report_recommendations_never_raises (data : DataFrame) :
  exists recommendations,
    report_recommendations format_percent (init data) = Some recommendations
    /\ (1 <= length recommendations <= 4)%nat.
Proof.
  unfold report_recommendations, _generate_recommendations.
  destruct (summary_has_top_mode data) as [top [others Htop]].
  rewrite Htop.
  set (s := generate_failure_summary (init data)).
  destruct (patterns_get "No Failures" (identify_failure_patterns (init data)))
    as [[|i l]|] eqn:Eg.
  - eexists. split; [reflexivity|]. cbv zeta.
    destruct (negb (target_met s)), (PrimFloat.ltb 0.5 (overall_failure_rate s));
      rewrite ?length_app; cbn [length]; lia.
  - destruct data as [|row data]; [vm_compute in Eg; discriminate|].
    replace (total_samples s =? 0) with false
      by (symmetry; apply Z.eqb_neq; subst s; cbn [generate_failure_summary
            total_samples init df length]; lia).
    eexists. split; [reflexivity|]. cbv zeta.
    destruct (negb (target_met s)), (PrimFloat.ltb 0.5 (overall_failure_rate s));
      rewrite ?length_app; cbn [length]; lia.
  - eexists. split; [reflexivity|]. cbv zeta.
    destruct (negb (target_met s)), (PrimFloat.ltb 0.5 (overall_failure_rate s));
      rewrite ?length_app; cbn [length]; lia.
Qed.

End Recommendations.

End AnalysisFacts.

(** ** Labelling by hand *)

Module HumanLabelingFacts.
Import Py Models Gateway FailureLabeling HumanLabeling.

Example parse_codes_mixed :
  parse_codes "IA, sv  xx,pt"
  = ["incomplete_answer"; "safety_violations"; "poor_quality_tips"].
Proof. vm_compute. reflexivity. Qed.

Example parse_codes_repeated :
  parse_codes "ia,ia" = ["incomplete_answer"; "incomplete_answer"].
Proof. vm_compute. reflexivity. Qed.

(** The names behind the codes are the six modes. *)
Lemma CODE_TO_NAME_modes code name :
  CODE_TO_NAME !! code = Some name -> In name FAILURE_MODE_NAMES.
Proof.
  intros H.
  assert (Hin : (code, name) ∈ map_to_list CODE_TO_NAME) by now apply elem_of_map_to_list.
  assert (Hall : Forall (fun kv : string * string => In (snd kv) FAILURE_MODE_NAMES)
                   (map_to_list CODE_TO_NAME)).
  { vm_compute map_to_list.
    repeat (apply List.Forall_cons; [simpl; tauto|]). apply List.Forall_nil. }
  rewrite Forall_forall in Hall. apply (Hall _ Hin).
Qed.

Lemma parse_loop_modes parts : forall names,
  Forall (fun n => In n FAILURE_MODE_NAMES) names ->
  Forall (fun n => In n FAILURE_MODE_NAMES)
    (fold_left
       (fun names part =>
          match CODE_TO_NAME !! lower (strip part) with
          | Some name => names ++ [name]
          | None => names
          end) parts names)
  /\ (length (fold_left
       (fun names part =>
          match CODE_TO_NAME !! lower (strip part) with
          | Some name => names ++ [name]
          | None => names
          end) parts names) <= length names + length parts)%nat.
Proof.
  induction parts as [|part parts IH]; intros names Hn; simpl; [split; [exact Hn | lia]|].
  destruct (CODE_TO_NAME !! lower (strip part)) as [name|] eqn:E.
  - destruct (IH (names ++ [name])) as [H1 H2].
    + apply Forall_app. split; [exact Hn|].
      apply List.Forall_cons; [|apply List.Forall_nil].
      eapply CODE_TO_NAME_modes. exact E.
    + split; [exact H1|]. rewrite length_app in H2. simpl in H2. lia.
  - destruct (IH names Hn) as [H1 H2]. split; [exact H1 | lia].
Qed.

Lemma parse_codes_modes (raw : string) :
  Forall (fun name => In name FAILURE_MODE_NAMES) (parse_codes raw).
Proof.
  unfold parse_codes.
  destruct (negb (nonempty raw) || negb (nonempty (strip raw))); [apply List.Forall_nil|].
  apply parse_loop_modes. apply List.Forall_nil.
Qed.

(** X23.  Whatever is typed, [parse_codes] returns names of the six failure
    modes only, at most one per word typed; a word that is no code is
    dropped without a notice. *)
Theorem parse_codes_only_failure_modes (raw : string) :
  Forall (fun name => In name FAILURE_MODE_NAMES) (parse_codes raw)
  /\ (length (parse_codes raw) <= length (split (replace_char "," " " raw)))%nat.
Proof.
  unfold parse_codes.
  destruct (negb (nonempty raw) || negb (nonempty (strip raw))).
  - split; [apply List.Forall_nil | simpl; lia].
  - destruct (parse_loop_modes (split (replace_char "," " " raw)) [])
      as [H1 H2]; [apply List.Forall_nil|].
    split; [exact H1 | exact H2].
Qed.

(** The label that [prompt_for_labels] builds from the names and the
    comment. *)
Definition label_of (trace_id : json) (is_in : string -> bool) (comment : json)
    : gmap string json :=
  let out : gmap string json :=
    <["comment" := comment]>
    (fold_left (fun d name => <[name := JInt (if is_in name then 1 else 0)]> d)
       FAILURE_MODE_NAMES (<["trace_id" := trace_id]> ∅)) in
  <["overall_failure" :=
      JInt (if existsb (fun k => truthy (get out k)) FAILURE_MODE_NAMES then 1 else 0)]> out.

Lemma label_of_fields trace_id is_in comment :
  label_of trace_id is_in comment !! "trace_id" = Some trace_id
  /\ label_of trace_id is_in comment !! "comment" = Some comment
  /\ (forall name, In name FAILURE_MODE_NAMES ->
        label_of trace_id is_in comment !! name
        = Some (JInt (if is_in name then 1 else 0)))
  /\ label_of trace_id is_in comment !! "overall_failure"
     = Some (JInt (if existsb is_in FAILURE_MODE_NAMES then 1 else 0)).
Proof.
  split; [vm_compute; reflexivity|]. split; [vm_compute; reflexivity|]. split.
  - intros name Hn. simpl in Hn.
    destruct Hn as [<-|[<-|[<-|[<-|[<-|[<-|[]]]]]]]; vm_compute; reflexivity.
  - unfold label_of. rewrite lookup_insert_eq. do 2 f_equal.
    vm_compute.
    repeat match goal with |- context [is_in ?s] => destruct (is_in s) end;
      reflexivity.
Qed.

Section Prompt.

Variable W : Type.
Variable input : M W string.

#[local] Abbreviation prompt := (prompt_for_labels W input).

Hypothesis input_returns : forall w, exists line w', input w = (inr line, w').

(** X24.  One sample at the prompt.  The answer q, in either case and with
    blanks around it, raises KeyboardInterrupt before anything is asked
    or built.  Any other answer gives a label with the trace_id of the
    sample, a flag 1 for each mode whose code was typed and 0 for the
    others, and overall_failure 1 exactly when some code was typed; with
    no code, no comment is asked for and the comment is null. *)
Theorem prompt_for_labels_label
    (sample : gmap string json) (line : string) (w w1 : W) :
  input w = (inr line, w1) ->
  let names := parse_codes (strip line) in
  (lower (strip line) = "q" -> prompt sample w = (inl "KeyboardInterrupt", w1))
  /\ (lower (strip line) <> "q" ->
      exists out w',
        prompt sample w = (inr out, w')
        /\ out !! "trace_id" = Some (default (JStr "") (sample !! "trace_id"))
        /\ (forall name, In name FAILURE_MODE_NAMES ->
              (In name names /\ out !! name = Some (JInt 1))
              \/ (~ In name names /\ out !! name = Some (JInt 0)))
        /\ (names <> [] -> out !! "overall_failure" = Some (JInt 1))
        /\ (names = [] ->
            out !! "overall_failure" = Some (JInt 0)
            /\ out !! "comment" = Some JNull /\ w' = w1)).
Proof.
  intros Hin names. unfold prompt_for_labels, mbind, M_bind, bind. rewrite Hin.
  split.
  - intros ->. reflexivity.
  - intros Hq. apply String.eqb_neq in Hq. rewrite Hq. fold names.
    assert (Hflag : forall name,
              (In name names /\ existsb (String.eqb name) names = true)
              \/ (~ In name names /\ existsb (String.eqb name) names = false)).
    { intros name. destruct (existsb (String.eqb name) names) eqn:E.
      - apply existsb_exists in E as (x & Hx & Heq). apply String.eqb_eq in Heq. subst x.
        now left.
      - right. split; [|reflexivity]. intros Hn.
        assert (Ht : existsb (String.eqb name) names = true)
          by (apply existsb_exists; exists name; split; [exact Hn | apply String.eqb_refl]).
        congruence. }
    assert (Hany : names <> [] ->
              existsb (fun name => existsb (String.eqb name) names) FAILURE_MODE_NAMES
              = true).
    { intros Hne. destruct names as [|n l] eqn:En; [congruence|].
      apply existsb_exists. exists n. split; [|simpl; now rewrite String.eqb_refl].
      pose proof (parse_codes_modes (strip line)) as Hall.
      fold names in Hall. rewrite En in Hall. now inversion Hall. }
    assert (Hbuilt : forall comment,
              let out := label_of (default (JStr "") (sample !! "trace_id"))
                           (fun name => existsb (String.eqb name) names) comment in
              out !! "trace_id" = Some (default (JStr "") (sample !! "trace_id"))
              /\ (forall name, In name FAILURE_MODE_NAMES ->
                    (In name names /\ out !! name = Some (JInt 1))
                    \/ (~ In name names /\ out !! name = Some (JInt 0)))
              /\ (names <> [] -> out !! "overall_failure" = Some (JInt 1))
              /\ (names = [] -> out !! "overall_failure" = Some (JInt 0))
              /\ out !! "comment" = Some comment).
    { intros comment out.
      destruct (label_of_fields (default (JStr "") (sample !! "trace_id"))
                  (fun name => existsb (String.eqb name) names) comment)
        as (H1 & H2 & H3 & H4).
      split; [exact H1|]. split; [|split; [|split; [|exact H2]]].
      - intros name Hn. subst out. rewrite (H3 name Hn).
        destruct (Hflag name) as [[Hi ->]|[Hi ->]]; auto.
      - intros Hne. subst out. now rewrite H4, (Hany Hne).
      - intros He. subst out. rewrite H4, He. reflexivity. }
    destruct names as [|n l] eqn:En.
    + destruct (Hbuilt JNull) as (H1 & H2 & H3 & H4 & H5).
      exists (label_of (default (JStr "") (sample !! "trace_id"))
                (fun name => existsb (String.eqb name) []) JNull), w1.
      split; [reflexivity|].
      split; [exact H1|]. split; [exact H2|]. split; [exact H3|].
      intros _. split; [now apply H4|]. split; [exact H5 | reflexivity].
    + destruct (input_returns w1) as (line2 & w2 & Hin2). rewrite Hin2.
      destruct (Hbuilt (if nonempty (strip line2) then JStr (strip line2) else JNull))
        as (H1 & H2 & H3 & H4 & H5).
      exists (label_of (default (JStr "") (sample !! "trace_id"))
                (fun name => existsb (String.eqb name) (n :: l))
                (if nonempty (strip line2) then JStr (strip line2) else JNull)), w2.
      split.
      * unfold mret, M_ret, ret, label_of.
        destruct (nonempty (strip line2)) eqn:Ec; [rewrite Ec|]; reflexivity.
      * split; [exact H1|]. split; [exact H2|]. split; [exact H3|]. discriminate.
Qed.

End Prompt.

(** A keyboard that replays the lines typed. *)
Definition typed : M (list string) string :=
  fun w => match w with
           | [] => (inr "", [])
           | line :: w' => (inr line, w')
           end.

Lemma typed_returns : forall w, exists line w', typed w = (inr line, w').
Proof. intros [|line w]; eexists _, _; reflexivity. Qed.

Definition sample_t1 : gmap string json := <["trace_id" := JStr "t1"]> ∅.

Lemma prompt_for_labels_label_witness :
  (lower (strip " sv, PT ") = "q" ->
   prompt_for_labels (list string) typed sample_t1 [" sv, PT "; "no warning"]
   = (inl "KeyboardInterrupt", ["no warning"]))
  /\ (lower (strip " sv, PT ") <> "q" ->
      exists out w',
        prompt_for_labels (list string) typed sample_t1 [" sv, PT "; "no warning"]
        = (inr out, w')
        /\ out !! "trace_id" = Some (default (JStr "") (sample_t1 !! "trace_id"))
        /\ (forall name, In name FAILURE_MODE_NAMES ->
              (In name (parse_codes (strip " sv, PT ")) /\ out !! name = Some (JInt 1))
              \/ (~ In name (parse_codes (strip " sv, PT "))
                  /\ out !! name = Some (JInt 0)))
        /\ (parse_codes (strip " sv, PT ") <> [] ->
            out !! "overall_failure" = Some (JInt 1))
        /\ (parse_codes (strip " sv, PT ") = [] ->
            out !! "overall_failure" = Some (JInt 0)
            /\ out !! "comment" = Some JNull /\ w' = ["no warning"])).
Proof.
  apply (prompt_for_labels_label (list string) typed typed_returns
           sample_t1 " sv, PT " [" sv, PT "; "no warning"] ["no warning"]).
  reflexivity.
Defined.

End HumanLabelingFacts.
